(** * Supplier catalogue extraction: the extractors and crawlers, verified

    A shallow embedding of the three Python services

    - [server/python_services/bulk_pdf_extractor.py]  (module [PdfExtractor]),
    - [server/python_services/simple_web_crawler.py]  (module [SimpleCrawler]),
    - [server/python_services/bulk_web_crawler.py]    (module [BulkCrawler]),

    followed by the properties of the specification that are settled on them.

    Conventions of the embedding.

    - Python [str] is [list ascii] ([text]): the alphabet of the model is
      the code points U+0000 to U+00FF, and the white-space class, the digit
      class, the word class and the case mappings are Python's on them. The
      capitals of U+00B5 and U+00FF are not in the alphabet: [upper_char]
      and [title] keep these two letters.
    - Python [dict] is a [gmap] with [string] keys; [d.update(e)] is [e ∪ d].
    - A call that can raise returns in [exc]; [try/except] is a [match] on it.
    - [float(s)] is the rational denoted by the decimal literal [s]
      (rounding to binary64 is not modelled), and [int(s)] is the integer
      the digits denote, whatever their number (the interpreter's bound on
      the digits of a literal given to [int] is not modelled).
    - The [re] module is embedded as a backtracking matcher ([Regex]) that
      enumerates matches in the priority order of Python's engine. *)

From Stdlib Require Import Ascii String ZArith QArith List Lia Permutation.
From stdpp Require Import base option list gmap strings.

Open Scope list_scope.

(* ================================================================== *)
(** * Python values, dictionaries and exceptions *)
(* ================================================================== *)

Abbreviation text := (list ascii).

(** A string literal as a [text]. *)
Definition txt (s : string) : text := list_ascii_of_string s.

(** Results of calls that can raise: [Raise e] carries [str(e)]. *)
Inductive exc (A : Type) : Type :=
| Ok (a : A)
| Raise (e : text).
Arguments Ok {A} a.
Arguments Raise {A} e.

#[global] Instance exc_ret : MRet exc := fun A a => Ok a.
#[global] Instance exc_bind : MBind exc :=
  fun A B f m => match m with Ok a => f a | Raise e => Raise e end.

(** The values stored in the dictionaries of the three services. *)
Inductive pyval : Type :=
| PNone
| PStr (s : text)
| PInt (n : Z)
| PFloat (q : Q)
| PList (l : list text).

Abbreviation dict := (gmap string pyval).

(** Python truthiness, as used by [if x:] and [not x]. *)
Definition truthy (v : pyval) : bool :=
  match v with
  | PNone => false
  | PStr s => match s with [] => false | _ => true end
  | PInt n => negb (n =? 0)%Z
  | PFloat q => negb (Qeq_bool q 0)
  | PList l => match l with [] => false | _ => true end
  end.

(** [d.get(k)]: the value, or [None] when the key is absent. *)
Definition get (d : dict) (k : string) : pyval :=
  match d !! k with Some v => v | None => PNone end.

(** [d.get(k, default)]. *)
Definition get_default (d : dict) (k : string) (default : pyval) : pyval :=
  match d !! k with Some v => v | None => default end.

(** An [Optional[str]] as a dictionary value. *)
Definition of_opt (o : option text) : pyval :=
  match o with Some s => PStr s | None => PNone end.

(** The values of the result envelope. *)
Inductive envval : Type :=
| EBool (b : bool)
| EStr (s : text)
| EInt (n : Z)
| EDict (d : dict)
| EDicts (l : list dict).

Abbreviation envelope := (gmap string envval).

(* ================================================================== *)
(** * Python string operations *)
(* ================================================================== *)

Module Text.

Definition code (c : ascii) : N := N_of_ascii c.

Definition between (lo hi : N) (c : ascii) : bool :=
  ((lo <=? code c) && (code c <=? hi))%N.

Definition is_digit : ascii → bool := between 48 57.

(** The classes [[A-Z]], [[a-z]] and [[A-Za-z]] of the patterns. *)
Definition is_upper : ascii → bool := between 65 90.
Definition is_lower : ascii → bool := between 97 122.
Definition is_alpha (c : ascii) : bool := is_upper c || is_lower c.

(** [str.isspace] on one character, which is also [\s] and what [strip]
    removes: TAB, LF, VT, FF, CR, FS, GS, RS, US, the space, NEL (U+0085)
    and the no-break space (U+00A0). *)
Definition is_space (c : ascii) : bool :=
  between 9 13 c || between 28 32 c || (code c =? 133)%N || (code c =? 160)%N.

(** [str.isupper] on one character: A to Z, U+00C0 to U+00D6 and U+00D8 to
    U+00DE. *)
Definition is_capital (c : ascii) : bool :=
  between 65 90 c || between 192 214 c || between 216 222 c.

(** [str.islower] on one character: a to z, the two ordinal indicators
    (U+00AA, U+00BA), the micro sign (U+00B5), U+00DF to U+00F6 and U+00F8
    to U+00FF. *)
Definition is_small (c : ascii) : bool :=
  between 97 122 c || (code c =? 170)%N || (code c =? 181)%N
  || (code c =? 186)%N || between 223 246 c || between 248 255 c.

(** A cased character. *)
Definition is_cased (c : ascii) : bool := is_capital c || is_small c.

(** [str.isalnum] on one character: the digits, the cased characters, the
    superscripts one, two and three and the three fractions. *)
Definition is_alnum (c : ascii) : bool :=
  is_digit c || is_cased c || between 178 179 c || (code c =? 185)%N
  || between 188 190 c.

(** [\w]: an alphanumeric character or the underscore. *)
Definition is_word (c : ascii) : bool := is_alnum c || (code c =? 95)%N.

(** The lower-case and the upper-case form of one character. U+00DF has
    no capital of one letter, and the capitals of U+00B5 and U+00FF are
    outside the alphabet: the three letters are their own upper-case form
    here, which changes no match of the patterns of the services. *)
Definition lower_char (c : ascii) : ascii :=
  if is_capital c then ascii_of_N (code c + 32) else c.
Definition upper_char (c : ascii) : ascii :=
  if between 97 122 c || between 224 246 c || between 248 254 c
  then ascii_of_N (code c - 32) else c.

(** [s.lower()]. *)
Definition lower (s : text) : text := map lower_char s.

Fixpoint drop_while (p : ascii → bool) (s : text) : text :=
  match s with
  | [] => []
  | c :: s' => if p c then drop_while p s' else s
  end.

Fixpoint take_while (p : ascii → bool) (s : text) : text :=
  match s with
  | [] => []
  | c :: s' => if p c then c :: take_while p s' else []
  end.

(** [s.lstrip()], [s.strip()]. *)
Definition lstrip (s : text) : text := drop_while is_space s.
Definition strip (s : text) : text := rev (lstrip (rev (lstrip s))).

(** [s.startswith(p)]. *)
Fixpoint startswith (p s : text) : bool :=
  match p, s with
  | [], _ => true
  | _ :: _, [] => false
  | a :: p', b :: s' => Ascii.eqb a b && startswith p' s'
  end.

(** [s.endswith(p)]. *)
Definition endswith (p s : text) : bool := startswith (rev p) (rev s).

(** [sub in s]. *)
Fixpoint contains (sub s : text) : bool :=
  startswith sub s ||
  match s with
  | [] => false
  | _ :: s' => contains sub s'
  end.

(** [any(k in s for k in keys)]. *)
Definition any_in (keys : list string) (s : text) : bool :=
  existsb (fun k => contains (txt k) s) keys.

(** [s.split(sep)] for a one-character separator. *)
Fixpoint split_on (sep : ascii) (s : text) : list text :=
  match s with
  | [] => [[]]
  | c :: s' =>
      if Ascii.eqb c sep then [] :: split_on sep s'
      else match split_on sep s' with
           | [] => [[c]]
           | l :: ls => (c :: l) :: ls
           end
  end.

Definition newline : ascii := ascii_of_N 10.

(** [s.isupper()]: some cased character, and no lower-case one. *)
Definition isupper (s : text) : bool :=
  existsb is_capital s && negb (existsb is_small s).

(** The title-case form of one character: its capital, which for U+00DF
    is [Ss]. *)
Definition title_char (c : ascii) : text :=
  if (code c =? 223)%N then txt "Ss" else [upper_char c].

(** [s.title()]: a character that follows a cased character is
    lower-cased, any other is title-cased. *)
Fixpoint title_from (prev_cased : bool) (s : text) : text :=
  match s with
  | [] => []
  | c :: s' =>
      (if prev_cased then [lower_char c] else title_char c)
      ++ title_from (is_cased c) s'
  end.
Definition title (s : text) : text := title_from false s.

(** [s.replace(old, new)] for a non-empty [old]: left to right, without
    overlap. The fuel is the length of [s]. *)
Fixpoint replace_from (fuel : nat) (old new s : text) : text :=
  match fuel with
  | O => s
  | S fuel' =>
      match s with
      | [] => []
      | c :: s' =>
          if startswith old s
          then new ++ replace_from fuel' old new (drop (length old) s)
          else c :: replace_from fuel' old new s'
      end
  end.
Definition replace (old new s : text) : text :=
  replace_from (length s) old new s.

(** The value of a run of decimal digits. *)
Definition digit_val (c : ascii) : Z := Z.of_N (code c - 48).
Definition digits_val (s : text) : Z :=
  fold_left (fun acc c => (10 * acc + digit_val c)%Z) s 0%Z.

Definition all_digits (s : text) : bool :=
  match s with [] => false | _ => forallb is_digit s end.

(** [int(s)] on a run of digits; anything else raises [ValueError] here. *)
Definition py_int (s : text) : exc Z :=
  if all_digits s then Ok (digits_val s)
  else Raise (txt "invalid literal for int()").

(** [float(s)] on [digits] or [digits.digits]; anything else raises here. *)
Definition py_float (s : text) : exc Q :=
  let ip := take_while is_digit s in
  match drop_while is_digit s with
  | [] => if all_digits ip then Ok (inject_Z (digits_val ip))
          else Raise (txt "could not convert string to float")
  | c :: fp =>
      if Ascii.eqb c "." && all_digits ip && all_digits fp
      then Ok (Qmake (digits_val (ip ++ fp)) (Pos.pow 10 (Pos.of_nat (length fp))))
      else Raise (txt "could not convert string to float")
  end.

(** [float(x)], [int(x)] and [x.lower()] on a value that may be [None]. *)
Definition float_of (o : option text) : exc Q :=
  match o with
  | Some s => py_float s
  | None => Raise (txt "float() argument must be a string or a real number")
  end.
Definition int_of (o : option text) : exc Z :=
  match o with
  | Some s => py_int s
  | None => Raise (txt "int() argument must be a string or a real number")
  end.

End Text.

(* ================================================================== *)
(** * The [re] module *)
(* ================================================================== *)

Module Regex.
Import Text.

Inductive regex : Type :=
| Eps
| Chr (c : ascii)
| Cls (p : ascii → bool)
| Seq (r1 r2 : regex)
| Alt (r1 r2 : regex)
| Star (r : regex)
| Grp (n : nat) (r : regex)
| WordB.

(** The groups that took part in a match, the most recent binding first. *)
Definition captures : Type := list (nat * text).

(** One way of matching at a position: the text consumed, the groups bound
    and the text left. *)
Definition mres : Type := (text * captures * text)%type.

(** A literal character and a class under [re.IGNORECASE] ([ic]). *)
Definition chr_ok (ic : bool) (c x : ascii) : bool :=
  if ic then Ascii.eqb (lower_char x) (lower_char c) else Ascii.eqb x c.
Definition cls_ok (ic : bool) (p : ascii → bool) (x : ascii) : bool :=
  p x || (ic && (p (lower_char x) || p (upper_char x))).

Definition is_word_opt (o : option ascii) : bool :=
  match o with Some c => is_word c | None => false end.

(** [\b] between the previous and the next character. *)
Definition at_boundary (prev next : option ascii) : bool :=
  xorb (is_word_opt prev) (is_word_opt next).

(** The character before the position reached after consuming [m]. *)
Definition last_char (prev : option ascii) (m : text) : option ascii :=
  fold_left (fun _ c => Some c) m prev.

Definition seq_res (m1 : text) (c1 : captures) (r : mres) : mres :=
  let '(m2, c2, s2) := r in (m1 ++ m2, c2 ++ c1, s2).

(** The iterations of a star whose body matches as [step] says: the
    longest repetition first, the empty one last. An iteration that consumes
    nothing is not repeated; the fuel is the length of the text. *)
Fixpoint star_loop (step : option ascii → text → list mres) (fuel : nat)
  (prev : option ascii) (s : text) : list mres :=
  match fuel with
  | O => [([], [], s)]
  | S fuel' =>
      flat_map (fun '(m1, c1, s1) =>
                  match m1 with
                  | [] => []
                  | _ :: _ =>
                      map (seq_res m1 c1)
                          (star_loop step fuel' (last_char prev m1) s1)
                  end)
               (step prev s)
      ++ [([], [], s)]
  end.

(** All the ways [r] matches a prefix of [s], in the order a backtracking
    engine tries them: alternatives left to right, repetitions greedy. [prev]
    is the character before [s]. *)
Fixpoint matches (ic : bool) (r : regex) (prev : option ascii) (s : text)
  {struct r} : list mres :=
  match r with
  | Eps => [([], [], s)]
  | Chr c =>
      match s with
      | x :: s' => if chr_ok ic c x then [([x], [], s')] else []
      | [] => []
      end
  | Cls p =>
      match s with
      | x :: s' => if cls_ok ic p x then [([x], [], s')] else []
      | [] => []
      end
  | Seq r1 r2 =>
      flat_map (fun '(m1, c1, s1) =>
                  map (seq_res m1 c1) (matches ic r2 (last_char prev m1) s1))
               (matches ic r1 prev s)
  | Alt r1 r2 => matches ic r1 prev s ++ matches ic r2 prev s
  | Star r1 => star_loop (matches ic r1) (length s) prev s
  | Grp n r1 =>
      map (fun '(m, c, s') => (m, (n, m) :: c, s')) (matches ic r1 prev s)
  | WordB => if at_boundary prev (head s) then [([], [], s)] else []
  end.

(** A match object: where the match starts ([m_before] is the text before
    it), what it covers, the groups, and the text after it. *)
Record rmatch : Type := {
  m_before : text;
  m_text : text;
  m_caps : captures;
  m_after : text
}.

Definition shift (x : ascii) (m : rmatch) : rmatch :=
  {| m_before := x :: m_before m; m_text := m_text m;
     m_caps := m_caps m; m_after := m_after m |}.

(** [re.search]: the first way of matching at the leftmost position that has
    one. *)
Fixpoint search_from (ic : bool) (r : regex) (prev : option ascii) (s : text)
  : option rmatch :=
  match matches ic r prev s with
  | (m, c, rest) :: _ =>
      Some {| m_before := []; m_text := m; m_caps := c; m_after := rest |}
  | [] =>
      match s with
      | [] => None
      | x :: s' => shift x <$> search_from ic r (Some x) s'
      end
  end.

Definition search (ic : bool) (r : regex) (s : text) : option rmatch :=
  search_from ic r None s.

(** [m.group(n)] for [n ≥ 1]: [None] when the group took no part. *)
Fixpoint lookup_group (c : captures) (n : nat) : option text :=
  match c with
  | [] => None
  | (k, v) :: c' => if Nat.eqb k n then Some v else lookup_group c' n
  end.
Definition group (m : rmatch) (n : nat) : option text :=
  lookup_group (m_caps m) n.

(** [re.split] for a pattern without groups that matches no empty text: the
    pieces between successive leftmost matches. *)
Fixpoint split_from (fuel : nat) (ic : bool) (r : regex)
  (prev : option ascii) (s : text) : list text :=
  match fuel with
  | O => [s]
  | S fuel' =>
      match search_from ic r prev s with
      | None => [s]
      | Some m =>
          m_before m ::
          split_from fuel' ic r
            (last_char prev (m_before m ++ m_text m)) (m_after m)
      end
  end.
Definition split (ic : bool) (r : regex) (s : text) : list text :=
  split_from (length s) ic r None s.

(** ** Derived forms *)

Definition Plus (r : regex) : regex := Seq r (Star r).
Definition Opt (r : regex) : regex := Alt r Eps.

(** A literal string. *)
Fixpoint Lit (s : text) : regex :=
  match s with
  | [] => Eps
  | [c] => Chr c
  | c :: s' => Seq (Chr c) (Lit s')
  end.
Definition Str (s : string) : regex := Lit (txt s).

(** [r1|r2|...]. *)
Fixpoint Alts (rs : list regex) : regex :=
  match rs with
  | [] => Cls (fun _ => false)
  | [r] => r
  | r :: rs' => Alt r (Alts rs')
  end.

(** [r{n}], [r{n,}] and [r{n,n+k}]. *)
Fixpoint Rep (n : nat) (r : regex) : regex :=
  match n with
  | O => Eps
  | S n' => Seq r (Rep n' r)
  end.
Fixpoint UpTo (k : nat) (r : regex) : regex :=
  match k with
  | O => Eps
  | S k' => Opt (Seq r (UpTo k' r))
  end.
Definition AtLeast (n : nat) (r : regex) : regex := Seq (Rep n r) (Star r).
Definition Range (n k : nat) (r : regex) : regex := Seq (Rep n r) (UpTo k r).

(** Classes. *)
Definition digit : regex := Cls is_digit.
Definition space : regex := Cls is_space.
Definition one_of (s : string) : ascii → bool :=
  fun c => existsb (Ascii.eqb c) (txt s).
Definition none_of (s : string) : ascii → bool :=
  fun c => negb (one_of s c).

(** [\d+(?:\.\d+)?] *)
Definition number : regex :=
  Seq (Plus digit) (Opt (Seq (Chr ".") (Plus digit))).

(** Whether [r] can match the empty text. *)
Fixpoint nullable (r : regex) : bool :=
  match r with
  | Eps | Star _ | WordB => true
  | Chr _ | Cls _ => false
  | Seq r1 r2 => nullable r1 && nullable r2
  | Alt r1 r2 => nullable r1 || nullable r2
  | Grp _ r1 => nullable r1
  end.

End Regex.

(* ================================================================== *)
(** * bulk_pdf_extractor.py *)
(* ================================================================== *)

Module PdfExtractor.
Import Text Regex.

(** A table cell, as [extract_tables] gives it: a string or [None]. *)
Abbreviation cell := (option text).

(** A page of the opened document: what [page.extract_text()] and
    [page.extract_tables()] return, or raise. *)
Record Page : Type := {
  extract_text : exc (option text);
  extract_tables : exc (list (list (list cell)))
}.

(** The attributes of a [BulkPDFExtractor]. *)
Record state : Type := {
  company_data : dict;
  products_data : list dict
}.

(** [__init__] *)
Definition init : state := {| company_data := ∅; products_data := [] |}.

(** [x or ""] *)
Definition or_empty (o : option text) : text :=
  match o with Some s => s | None => [] end.

(** [if cell:] *)
Definition cell_truthy (c : cell) : bool :=
  match c with Some (_ :: _) => true | _ => false end.

(** ** Field parsers *)

Definition weight_units : regex :=
  Alts [Str "g"; Str "kg"; Str "gram"; Str "kilogram"].
Definition capacity_units : regex :=
  Alts [Str "ml"; Str "l"; Str "liter"; Str "litre"; Str "oz"].

(** [(\d+(?:\.\d+)?)\s*(g|kg|gram|kilogram)?] *)
Definition weight_re : regex :=
  Seq (Grp 1 number) (Seq (Star space) (Opt (Grp 2 weight_units))).

(** [(\d+(?:\.\d+)?)\s*(ml|l|liter|litre|oz)?] *)
Definition capacity_re : regex :=
  Seq (Grp 1 number) (Seq (Star space) (Opt (Grp 2 capacity_units))).

(** [m.group(2).lower() if m.group(2) else default] *)
Definition unit_or (default : string) (g : option text) : text :=
  match g with
  | Some (c :: u) => lower (c :: u)
  | _ => txt default
  end.

Definition parse_weight (value : text) : exc dict :=
  match search true weight_re value with
  | Some m =>
      w ← float_of (group m 1);
      mret (<["weightUnit" := PStr (unit_or "g" (group m 2))]>
              (<["weight" := PFloat w]> ∅))
  | None => mret ∅
  end.

Definition parse_capacity (value : text) : exc dict :=
  match search true capacity_re value with
  | Some m =>
      w ← float_of (group m 1);
      mret (<["capacityUnit" := PStr (unit_or "ml" (group m 2))]>
              (<["capacity" := PFloat w]> ∅))
  | None => mret ∅
  end.

(** [(\d+)\s*%] *)
Definition percentage_re : regex :=
  Seq (Grp 1 (Plus digit)) (Seq (Star space) (Chr "%")).

Definition extract_percentage (t : text) : exc (option Z) :=
  match search false percentage_re t with
  | Some m => n ← int_of (group m 1); mret (Some n)
  | None => mret None
  end.

(** ** Table interpreter *)

(** The [if]/[elif] chain of [extract_product_from_table_row] on one
    non-empty cell under the lower-cased header [header]. *)
Definition table_cell (header cell : text) (product : dict) : exc dict :=
  if any_in ["name"; "product"; "item"; "title"] header then
    mret (<["productName" := PStr (strip cell)]> product)
  else if any_in ["description"; "desc"; "details"] header then
    mret (<["description" := PStr (strip cell)]> product)
  else if contains (txt "material") header then
    mret (<["materialType" := PStr (strip cell)]> product)
  else if any_in ["weight"; "mass"] header then
    weight_data ← parse_weight cell;
    mret (weight_data ∪ product)
  else if any_in ["capacity"; "volume"; "size"] header then
    capacity_data ← parse_capacity cell;
    mret (capacity_data ∪ product)
  else if any_in ["color"; "colour"] header then
    mret (<["color" := PStr (strip cell)]> product)
  else if any_in ["sku"; "code"; "ref"] header then
    mret (<["sku" := PStr (strip cell)]> product)
  else if any_in ["recycle"; "recycled"] header then
    recycled ← extract_percentage cell;
    match recycled with
    | Some n => if negb (n =? 0)%Z
                then mret (<["recycledContent" := PInt n]> product)
                else mret product
    | None => mret product
    end
  else mret product.

(** [for i, cell in enumerate(row)], from index [i]. *)
Fixpoint row_loop (headers : list text) (i : nat) (row : list cell)
  (product : dict) : exc dict :=
  match row with
  | [] => mret product
  | c :: row' =>
      product' ← (match headers !! i, c with
                   | Some h, Some (x :: xs) =>
                       table_cell (lower h) (x :: xs) product
                   | _, _ => mret product
                   end);
      row_loop headers (S i) row' product'
  end.

Definition extract_product_from_table_row (headers : list text)
  (row : list cell) : exc (option dict) :=
  match row, headers with
  | [], _ | _, [] => mret None
  | _, _ =>
      product ← row_loop headers 0 row ∅;
      mret (if truthy (get product "productName") then Some product else None)
  end.

(** [row and any(cell for cell in row if cell)] *)
Definition nonempty_row (row : list cell) : bool := existsb cell_truthy row.

(** The header of a row: [[cell.lower() if cell else '' for cell in row]]. *)
Definition header_of (row : list cell) : list text :=
  map (fun c => if cell_truthy c then lower (or_empty c) else []) row.

(** The first loop of [process_product_table]: the first non-empty row is
    the header, the later non-empty rows are the data rows. *)
Definition scan_row (acc : list text * list (list cell)) (row : list cell)
  : list text * list (list cell) :=
  let '(headers, data_rows) := acc in
  if nonempty_row row then
    match headers with
    | [] => (header_of row, data_rows)
    | _ :: _ => (headers, data_rows ++ [row])
    end
  else acc.

Definition scan_table (table : list (list cell))
  : list text * list (list cell) :=
  fold_left scan_row table ([], []).

(** [if product and product.get('productName'): append] for one data row. *)
Definition add_row (headers : list text) (products : list dict)
  (row : list cell) : exc (list dict) :=
  product ← extract_product_from_table_row headers row;
  match product with
  | Some p =>
      if negb (bool_decide (p = ∅)) && truthy (get p "productName")
      then mret (products ++ [p]) else mret products
  | None => mret products
  end.

Fixpoint add_rows (headers : list text) (rows : list (list cell))
  (products : list dict) : exc (list dict) :=
  match rows with
  | [] => mret products
  | row :: rows' =>
      products' ← add_row headers products row;
      add_rows headers rows' products'
  end.

Definition process_product_table (table : list (list cell))
  (products : list dict) : exc (list dict) :=
  if (length table <? 2)%nat then mret products
  else
    let '(headers, data_rows) := scan_table table in
    add_rows headers data_rows products.

(** ** Text segmenter *)

Definition nl : regex := Chr newline.

(** The five delimiters of [split_into_product_sections]; all are used
    with [re.IGNORECASE]. Of the four bullet characters of the third one
    only the middle dot (U+00B7) is in the alphabet of the model. *)
Definition delimiters : list regex :=
  [ (* \n\s*[A-Z][A-Z\s]+\n *)
    Seq nl (Seq (Star space) (Seq (Cls is_upper)
      (Seq (Plus (Cls (fun c => is_upper c || is_space c))) nl)));
    (* \n\s*\d+\.\s+ *)
    Seq nl (Seq (Star space) (Seq (Plus digit) (Seq (Chr ".") (Plus space))));
    (* \n\s*[bullets]\s+ *)
    Seq nl (Seq (Star space) (Seq (Cls (fun c => (code c =? 183)%N)) (Plus space)));
    (* \n\s*Product\s+\d+ *)
    Seq nl (Seq (Star space) (Seq (Str "Product") (Seq (Plus space) (Plus digit))));
    (* \n\s*Item\s+\d+ *)
    Seq nl (Seq (Star space) (Seq (Str "Item") (Seq (Plus space) (Plus digit)))) ].

(** One round of the cascade: every section is split by [delimiter]. *)
Definition split_all (sections : list text) (delimiter : regex) : list text :=
  flat_map (split true delimiter) sections.

Definition split_into_product_sections (t : text) : list text :=
  let sections := fold_left split_all delimiters [t] in
  map strip (List.filter (fun s => (50 <? length (strip s))%nat) sections).

(** ** Section record builder *)

Definition found (ic : bool) (r : regex) (t : text) : bool :=
  match search ic r t with Some _ => true | None => false end.

Definition skip_patterns : list regex :=
  [ Seq (Str "page") (Seq (Plus space) (Plus digit));
    Str "catalog";
    Seq (Str "specification") (Opt (Chr "s"));
    Str "description";
    Seq (Str "feature") (Opt (Chr "s"));
    Seq (Str "benefit") (Opt (Chr "s"));
    Str "contact"; Str "phone"; Str "email"; Str "address";
    Str "www."; Str "http"; Str ".com" ].

Definition product_indicators : list regex :=
  map Str ["bottle"; "jar"; "container"; "cap"; "closure"; "tube";
           "pump"; "dispenser"; "packaging"; "ml"; "oz"; "gram"].

Definition is_likely_product_name (line : text) : bool :=
  if (length line <? 3)%nat || (100 <? length line)%nat then false
  else if existsb (fun r => found true r line) skip_patterns then false
  else existsb (fun r => found true r line) product_indicators.

(** [[^,\n]+] *)
Definition to_comma_or_eol : regex :=
  Plus (Cls (fun c => negb (Ascii.eqb c "," || Ascii.eqb c newline))).

(** The six patterns of [extract_specs_from_text]. *)
Definition material_re : regex :=
  Seq (Str "material") (Seq (Opt (Chr ":")) (Seq (Star space)
    (Grp 1 to_comma_or_eol))).
Definition weight_spec_re : regex :=
  Seq (Str "weight") (Seq (Opt (Chr ":")) (Seq (Star space)
    (Seq (Grp 1 number) (Seq (Star space) (Grp 2 weight_units))))).
Definition capacity_spec_re : regex :=
  Seq (Alts [Str "capacity"; Str "volume"; Str "size"])
    (Seq (Opt (Chr ":")) (Seq (Star space)
    (Seq (Grp 1 number) (Seq (Star space) (Grp 2 capacity_units))))).
Definition color_re : regex :=
  Seq (Str "colo") (Seq (Opt (Chr "u")) (Seq (Chr "r")
    (Seq (Opt (Chr ":")) (Seq (Star space) (Grp 1 to_comma_or_eol))))).
Definition sku_re : regex :=
  Seq (Alts [Str "sku"; Str "code"; Str "ref"; Str "item"])
    (Seq (Opt (Chr ":")) (Seq (Star space)
    (Grp 1 (Plus (Cls (fun c => is_upper c || is_digit c || Ascii.eqb c "-")))))).
Definition recycled_re : regex :=
  Seq (Str "recycle") (Seq (Opt (Chr "d")) (Seq (Star space)
    (Seq (Str "content") (Seq (Opt (Chr ":")) (Seq (Star space)
    (Seq (Grp 1 (Plus digit)) (Seq (Star space) (Chr "%")))))))).

(** [m.group(n).lower()], [m.group(n).strip()]: a method call on [None]
    raises. *)
Definition str_of (o : option text) : exc text :=
  match o with
  | Some s => Ok s
  | None => Raise (txt "'NoneType' object has no attribute")
  end.

Definition extract_specs_from_text (t : text) : exc dict :=
  let specs : dict := ∅ in
  specs ← match search true material_re t with
          | Some m => g ← str_of (group m 1);
                      mret (<["materialType" := PStr (strip g)]> specs)
          | None => mret specs
          end;
  specs ← match search true weight_spec_re t with
          | Some m => w ← float_of (group m 1);
                      u ← str_of (group m 2);
                      mret (<["weightUnit" := PStr (lower u)]>
                              (<["weight" := PFloat w]> specs))
          | None => mret specs
          end;
  specs ← match search true capacity_spec_re t with
          | Some m => w ← float_of (group m 1);
                      u ← str_of (group m 2);
                      mret (<["capacityUnit" := PStr (lower u)]>
                              (<["capacity" := PFloat w]> specs))
          | None => mret specs
          end;
  specs ← match search true color_re t with
          | Some m => g ← str_of (group m 1);
                      mret (<["color" := PStr (strip g)]> specs)
          | None => mret specs
          end;
  specs ← match search true sku_re t with
          | Some m => g ← str_of (group m 1);
                      mret (<["sku" := PStr (strip g)]> specs)
          | None => mret specs
          end;
  match search true recycled_re t with
  | Some m => n ← int_of (group m 1);
              mret (<["recycledContent" := PInt n]> specs)
  | None => mret specs
  end.

(** [\n\s*\n] *)
Definition blank_line_re : regex := Seq nl (Seq (Star space) nl).

Definition spec_indicators : list string :=
  ["weight:"; "material:"; "capacity:"; "size:"; "sku:"].

Definition count_indicators (paragraph : text) : nat :=
  length (List.filter (fun k => contains (txt k) (lower paragraph)) spec_indicators).

Definition extract_description_from_text (t : text) : option text :=
  find (fun paragraph =>
          negb (length paragraph <? 50)%nat
          && negb (2 <? count_indicators paragraph)%nat)
       (map strip (split false blank_line_re t)).

(** [[line.strip() for line in text.split('\n') if line.strip()]] *)
Definition stripped_lines (t : text) : list text :=
  List.filter (fun l => match l with [] => false | _ => true end)
         (map strip (split_on newline t)).

Definition extract_product_from_text_section (t : text) : exc (option dict) :=
  let lines := stripped_lines t in
  let product : dict :=
    match find is_likely_product_name (take 3 lines) with
    | Some line => <["productName" := PStr line]> ∅
    | None => ∅
    end in
  specs ← extract_specs_from_text t;
  let product := specs ∪ product in
  let product :=
    match extract_description_from_text t with
    | Some (c :: d) => <["description" := PStr (c :: d)]> product
    | _ => product
    end in
  mret (if truthy (get product "productName") then Some product else None).

(** [v.lower()] on a dictionary value: only a string has the method. *)
Definition lower_of (v : pyval) : exc text :=
  match v with
  | PStr s => Ok (lower s)
  | _ => Raise (txt "object has no attribute 'lower'")
  end.

(** [{p.get('productName', '').lower() for p in products}] *)
Fixpoint lower_names (products : list dict) : exc (gset text) :=
  match products with
  | [] => mret ∅
  | p :: ps =>
      n ← lower_of (get_default p "productName" (PStr []));
      rest ← lower_names ps;
      mret ({[ n ]} ∪ rest)
  end.

(** The body of the loop of [extract_products_from_text]. *)
Definition add_section (products : list dict) (section : text)
  : exc (list dict) :=
  product ← extract_product_from_text_section section;
  match product with
  | Some p =>
      if negb (bool_decide (p = ∅)) && truthy (get p "productName") then
        existing_names ← lower_names products;
        name ← match p !! "productName" with
                | Some v => lower_of v
                | None => Raise (txt "'productName'")
                end;
        if bool_decide (name ∈ existing_names) then mret products
        else mret (products ++ [p])
      else mret products
  | None => mret products
  end.

Fixpoint add_sections (sections : list text) (products : list dict)
  : exc (list dict) :=
  match sections with
  | [] => mret products
  | section :: rest =>
      products' ← add_section products section;
      add_sections rest products'
  end.

Definition extract_products_from_text (t : text) (products : list dict)
  : exc (list dict) :=
  add_sections (split_into_product_sections t) products.

(** ** Deduplicator *)

(** The loop at the end of [extract_product_listings]: [seen] is
    [seen_names], [unique] is [unique_products]. *)
Fixpoint dedup_loop (products : list dict) (seen : gset text)
  (unique : list dict) : exc (list dict) :=
  match products with
  | [] => mret unique
  | product :: rest =>
      name ← lower_of (get_default product "productName" (PStr []));
      if match name with [] => false | _ => true end
         && negb (bool_decide (name ∈ seen))
      then dedup_loop rest ({[ name ]} ∪ seen) (unique ++ [product])
      else dedup_loop rest seen unique
  end.

Fixpoint process_tables (tables : list (list (list cell)))
  (products : list dict) : exc (list dict) :=
  match tables with
  | [] => mret products
  | table :: rest =>
      products' ← process_product_table table products;
      process_tables rest products'
  end.

(** The loop over the pages of [extract_product_listings]. *)
Fixpoint pages_loop (pages : list Page) (all_text : text)
  (products : list dict) : exc (text * list dict) :=
  match pages with
  | [] => mret (all_text, products)
  | page :: rest =>
      page_text ← extract_text page;
      let all_text := all_text ++ or_empty page_text ++ [newline] in
      tables ← extract_tables page;
      products' ← process_tables tables products;
      pages_loop rest all_text products'
  end.

Definition extract_product_listings (pages : list Page) (self : state)
  : exc state :=
  '(all_text, products) ← pages_loop pages [] (products_data self);
  products ← extract_products_from_text all_text products;
  unique_products ← dedup_loop products ∅ [];
  mret {| company_data := company_data self;
          products_data := unique_products |}.

(** ** Company profile builder *)

Fixpoint first_some {A B : Type} (f : A → option B) (l : list A) : option B :=
  match l with
  | [] => None
  | x :: l' => match f x with Some y => Some y | None => first_some f l' end
  end.

Definition company_indicators : list string :=
  ["ltd"; "inc"; "corp"; "company"; "limited"].

(** The body of the first loop of [extract_company_name]: what the line
    makes the function return, if anything. *)
Definition name_rule (line : text) : option text :=
  if (length line <? 3)%nat || (80 <? length line)%nat then None
  else if any_in company_indicators (lower line) then Some line
  else if isupper line && (5 <? length line)%nat then Some (title line)
  else None.

(** The test of the fallback loop. *)
Definition substantial (line : text) : bool :=
  (5 <? length line)%nat && (length line <? 50)%nat.

Definition extract_company_name (t : text) : text :=
  let lines := stripped_lines t in
  match first_some name_rule (take 10 lines) with
  | Some name => name
  | None =>
      match find substantial (take 5 lines) with
      | Some line => line
      | None => txt "Unknown Company"
      end
  end.

(** [[A-Za-z0-9\s,.-]] *)
Definition address_char (c : ascii) : bool :=
  is_alpha c || is_digit c || is_space c || one_of ",.-" c.

Definition address_patterns : list regex :=
  [ (* [A-Za-z0-9\s,.-]+\b\d{5}(?:-\d{4})?\b *)
    Seq (Plus (Cls address_char)) (Seq WordB (Seq (Rep 5 digit)
      (Seq (Opt (Seq (Chr "-") (Rep 4 digit))) WordB)));
    (* [A-Za-z0-9\s,.-]+\b[A-Z]{1,2}\d{1,2}[A-Z]?\s\d[A-Z]{2}\b *)
    Seq (Plus (Cls address_char)) (Seq WordB (Seq (Range 1 1 (Cls is_upper))
      (Seq (Range 1 1 digit) (Seq (Opt (Cls is_upper)) (Seq space
      (Seq digit (Seq (Rep 2 (Cls is_upper)) WordB)))))));
    (* [A-Za-z0-9\s,.-]+\b\d{4,5}\s[A-Za-z]+\b *)
    Seq (Plus (Cls address_char)) (Seq WordB (Seq (Range 4 1 digit)
      (Seq space (Seq (Plus (Cls is_alpha)) WordB)))) ].

Definition extract_address (t : text) : option text :=
  first_some (fun pattern =>
                match search false pattern t with
                | Some m =>
                    let address := strip (m_text m) in
                    if (20 <? length address)%nat then Some address else None
                | None => None
                end)
             address_patterns.

(** [\b[A-Za-z0-9._%+-]+@[A-Za-z0-9.-]+\.[A-Z|a-z]{2,}\b] *)
Definition email_re : regex :=
  Seq WordB
    (Seq (Plus (Cls (fun c => is_alpha c || is_digit c || one_of "._%+-" c)))
    (Seq (Chr "@")
    (Seq (Plus (Cls (fun c => is_alpha c || is_digit c || one_of ".-" c)))
    (Seq (Chr ".")
    (Seq (AtLeast 2 (Cls (fun c => is_alpha c || Ascii.eqb c "|")))
     WordB))))).

Definition extract_email (t : text) : option text :=
  m_text <$> search false email_re t.

(** [[-.\s]?] *)
Definition phone_sep : regex :=
  Opt (Cls (fun c => one_of "-." c || is_space c)).

Definition phone_patterns : list regex :=
  [ (* \+?\d{1,3}[-.\s]?\(?\d{3}\)?[-.\s]?\d{3}[-.\s]?\d{4} *)
    Seq (Opt (Chr "+")) (Seq (Range 1 2 digit) (Seq phone_sep
      (Seq (Opt (Chr "(")) (Seq (Rep 3 digit) (Seq (Opt (Chr ")"))
      (Seq phone_sep (Seq (Rep 3 digit) (Seq phone_sep (Rep 4 digit)))))))));
    (* \b\d{3}[-.\s]?\d{3}[-.\s]?\d{4}\b *)
    Seq WordB (Seq (Rep 3 digit) (Seq phone_sep (Seq (Rep 3 digit)
      (Seq phone_sep (Seq (Rep 4 digit) WordB))))) ].

Definition extract_phone (t : text) : option text :=
  first_some (fun pattern => m_text <$> search false pattern t) phone_patterns.

Definition not_space (c : ascii) : bool := negb (is_space c).

Definition website_patterns : list regex :=
  [ (* https?://[^\s]+ *)
    Seq (Str "http") (Seq (Opt (Chr "s")) (Seq (Str "://") (Plus (Cls not_space))));
    (* www\.[^\s]+ *)
    Seq (Str "www.") (Plus (Cls not_space));
    (* \b[a-zA-Z0-9-]+\.(?:com|co\.uk|net|org|biz)\b *)
    Seq WordB (Seq (Plus (Cls (fun c => is_alpha c || is_digit c || Ascii.eqb c "-")))
      (Seq (Chr ".") (Seq (Alts [Str "com"; Str "co.uk"; Str "net"; Str "org"; Str "biz"])
       WordB))) ].

Definition extract_website (t : text) : option text :=
  first_some (fun pattern =>
                match search true pattern t with
                | Some m =>
                    let url := m_text m in
                    Some (if startswith (txt "http") url then url
                          else txt "https://" ++ url)
                | None => None
                end)
             website_patterns.

(** [[:\s]*([^.]*\.)] *)
Definition about_tail : regex :=
  Seq (Star (Cls (fun c => Ascii.eqb c ":" || is_space c)))
      (Grp 1 (Seq (Star (Cls (fun c => negb (Ascii.eqb c ".")))) (Chr "."))).

Definition about_patterns : list regex :=
  [ Seq (Str "about") (Seq (Plus space) (Seq (Str "us") about_tail));
    Seq (Str "company") (Seq (Plus space) (Seq (Str "overview") about_tail));
    Seq (Str "who") (Seq (Plus space) (Seq (Str "we") (Seq (Plus space)
      (Seq (Str "are") about_tail)))) ].

(** The loop over [about_patterns]. *)
Fixpoint about_loop (patterns : list regex) (t : text) : exc (option text) :=
  match patterns with
  | [] => mret None
  | pattern :: rest =>
      match search true pattern t with
      | Some m =>
          g ← str_of (group m 1);
          let desc := strip g in
          if (50 <? length desc)%nat then mret (Some desc)
          else about_loop rest t
      | None => about_loop rest t
      end
  end.

(** [phone|email|address|weight|material] *)
Definition contact_or_spec_re : regex :=
  Alts [Str "phone"; Str "email"; Str "address"; Str "weight"; Str "material"].

Definition extract_company_description (t : text) : exc (option text) :=
  about ← about_loop about_patterns t;
  match about with
  | Some desc => mret (Some desc)
  | None =>
      mret (find (fun paragraph =>
                    (100 <? length paragraph)%nat
                    && (length paragraph <? 500)%nat
                    && negb (found true contact_or_spec_re paragraph))
                 (map strip (split false blank_line_re t)))
  end.

(** The indices of the pages read for the company profile: the first three,
    then the last two that are not among them. *)
Definition pages_to_check (n : nat) : list nat :=
  let first := seq 0 (Nat.min 3 n) in
  let last :=
    if (3 <? n)%nat
    then List.filter (fun i => negb (existsb (Nat.eqb i) first))
                     (seq (n - 2) 2)
    else [] in
  first ++ last.

Fixpoint company_text_loop (pages : list Page) (company_text : text)
  : exc text :=
  match pages with
  | [] => mret company_text
  | page :: rest =>
      t ← extract_text page;
      company_text_loop rest (company_text ++ or_empty t)
  end.

Definition extract_company_profile (pages : list Page) (self : state)
  : exc state :=
  let checked := omap (fun i => pages !! i) (pages_to_check (length pages)) in
  company_text ← company_text_loop checked [];
  description ← extract_company_description company_text;
  mret {| company_data :=
            <["companyName" := PStr (extract_company_name company_text)]>
            (<["address" := of_opt (extract_address company_text)]>
            (<["email" := of_opt (extract_email company_text)]>
            (<["phone" := of_opt (extract_phone company_text)]>
            (<["website" := of_opt (extract_website company_text)]>
            (<["supplierType" := PStr (txt "Packaging")]>
            (<["description" := of_opt description]> ∅))))));
          products_data := products_data self |}.

(** ** Orchestrator *)

Definition success_envelope (self : state) : envelope :=
  <["success" := EBool true]>
  (<["supplierData" := EDict (company_data self)]>
  (<["productsData" := EDicts (products_data self)]>
  (<["totalProducts" := EInt (Z.of_nat (length (products_data self)))]> ∅))).

Definition failure_envelope (message : text) : envelope :=
  <["success" := EBool false]> (<["error" := EStr message]> ∅).

(** The body of the [try] of [extract_all_data]; [opened] is what
    [pdfplumber.open(self.pdf_path)] gives: the pages, or an exception. *)
Definition extract_steps (opened : exc (list Page)) (self : state) : exc state :=
  pages ← opened;
  self ← extract_company_profile pages self;
  extract_product_listings pages self.

Definition extract_all_data (opened : exc (list Page)) (self : state)
  : envelope :=
  match extract_steps opened self with
  | Ok self' => success_envelope self'
  | Raise e => failure_envelope (txt "PDF extraction failed: " ++ e)
  end.

(** [main]: what is printed and the exit status; [open] stands for
    [pdfplumber.open]. *)
Definition main (argv : list text) (open : text → exc (list Page))
  : envelope * Z :=
  match argv with
  | [_; pdf_path] => (extract_all_data (open pdf_path) init, 0%Z)
  | _ => (failure_envelope (txt "PDF file path required"), 1%Z)
  end.

End PdfExtractor.

(* ================================================================== *)
(** * The parsed page and the outside world of the crawlers *)
(* ================================================================== *)

Module Dom.

(** An element of a parsed page, as far as the crawlers look at it. *)
Record Element : Type := {
  attrs : gmap string text;      (* el.get(name), el[name] *)
  el_text : text;                (* el.get_text() *)
  el_text_strip : text           (* el.get_text(strip=True) *)
}.

(** A parsed page ([BeautifulSoup]): the answers to the queries made. *)
Record Soup : Type := {
  select : string → exc (list Element);        (* soup.select(selector) *)
  find_all : string → list Element;            (* soup.find_all(tag) *)
  tables : list (list (list Element));         (* table, tr, td and th *)
  dls : list (list Element * list Element);    (* dl: its dt and its dd *)
  text_nodes : list (text * Element);          (* each string, its parent *)
  get_text : text                              (* soup.get_text() *)
}.

(** [soup.select_one(selector)] *)
Definition select_one (soup : Soup) (selector : string)
  : exc (option Element) :=
  links ← select soup selector; mret (head links).

(** [el.get(name)] when it is truthy. *)
Definition attr (el : Element) (name : string) : option text :=
  match attrs el !! name with
  | Some (c :: s) => Some (c :: s)
  | _ => None
  end.

(** What the crawlers take from outside: [urllib.parse], the network, and
    the order in which a [set] of strings is listed. [http_get n url] is the
    parsed answer to the request for [url] made after [n] earlier requests,
    or the exception of the request, of [raise_for_status] or of the parser. *)
Record World : Type := {
  urljoin : text → text → exc text;
  netloc : text → exc text;
  http_get : nat → text → exc Soup;
  list_set : list text → list text
}.

(** [list(set(l))] lists the elements of [l] once each, in some order. *)
Definition set_order_ok (W : World) : Prop :=
  ∀ l : list text, NoDup (list_set W l) ∧ ∀ x, In x (list_set W l) ↔ In x l.

End Dom.

(* ================================================================== *)
(** * simple_web_crawler.py *)
(* ================================================================== *)

Module SimpleCrawler.
Import Text Regex Dom.

(** The attributes of a [SimpleWebCrawler], with two logs: the URLs
    requested, in order, and the lines written to the error stream. *)
Record state : Type := {
  start_url : text;
  base_domain : text;
  company_data : dict;
  products_data : list dict;
  visited_urls : gset text;
  requested : list text;
  stderr : list text
}.

Definition set_company (self : state) (d : dict) : state :=
  {| start_url := start_url self; base_domain := base_domain self;
     company_data := d; products_data := products_data self;
     visited_urls := visited_urls self; requested := requested self;
     stderr := stderr self |}.

Definition add_product (self : state) (p : dict) : state :=
  {| start_url := start_url self; base_domain := base_domain self;
     company_data := company_data self;
     products_data := products_data self ++ [p];
     visited_urls := visited_urls self; requested := requested self;
     stderr := stderr self |}.

Definition add_visited (self : state) (url : text) : state :=
  {| start_url := start_url self; base_domain := base_domain self;
     company_data := company_data self; products_data := products_data self;
     visited_urls := {[ url ]} ∪ visited_urls self;
     requested := requested self; stderr := stderr self |}.

Definition log_error (self : state) (line : text) : state :=
  {| start_url := start_url self; base_domain := base_domain self;
     company_data := company_data self; products_data := products_data self;
     visited_urls := visited_urls self; requested := requested self;
     stderr := stderr self ++ [line] |}.

(** [self.session.get(url, timeout=30)], [raise_for_status] and the parse:
    the request is logged whatever its outcome. *)
Definition session_get (W : World) (self : state) (url : text)
  : state * exc Soup :=
  ({| start_url := start_url self; base_domain := base_domain self;
      company_data := company_data self; products_data := products_data self;
      visited_urls := visited_urls self;
      requested := requested self ++ [url]; stderr := stderr self |},
   http_get W (length (requested self)) url).

(** [__init__] *)
Definition init (W : World) (url : text) : exc state :=
  domain ← netloc W url;
  mret {| start_url := url; base_domain := domain; company_data := ∅;
          products_data := []; visited_urls := ∅; requested := [];
          stderr := [] |}.

(** ** Crawl frontier *)

Definition is_same_domain (W : World) (self : state) (url : text) : bool :=
  match netloc W url with
  | Ok domain =>
      bool_decide (domain = base_domain self)
      || endswith ("."%char :: base_domain self) domain
  | Raise _ => false
  end.

Definition is_product_link (href : text) : bool :=
  match href with
  | [] => false
  | _ :: _ =>
      if any_in ["mailto:"; "tel:"; "#"; "javascript:"; ".pdf"; ".jpg";
                 ".png"; ".css"; ".js"] (lower href)
      then false
      else any_in ["product"; "bottle"; "container"; "jar"; "cap";
                   "closure"; "packaging"] (lower href)
  end.

(** The loop over the links of one selector; an exception of [urljoin]
    ends it, and what was collected before stays. [keep] is the test made on
    the [href]. *)
Fixpoint links_loop (W : World) (self : state) (keep : text → bool)
  (links : list Element) (acc : list text) : list text :=
  match links with
  | [] => acc
  | link :: rest =>
      match attr link "href" with
      | Some href =>
          if keep href then
            match urljoin W (start_url self) href with
            | Ok full_url =>
                links_loop W self keep rest
                  (if is_same_domain W self full_url
                   then acc ++ [full_url] else acc)
            | Raise _ => acc
            end
          else links_loop W self keep rest acc
      | None => links_loop W self keep rest acc
      end
  end.

(** The loop over the selectors, each under its own [try]. *)
Definition selectors_loop (W : World) (self : state) (keep : text → bool)
  (soup : Soup) (selectors : list string) : list text :=
  fold_left (fun acc selector =>
               match select soup selector with
               | Ok links => links_loop W self keep links acc
               | Raise _ => acc
               end)
            selectors [].

(** The selectors name the queries put to the page; they are written
    without the inner quotation marks of the source. *)
Definition company_selectors : list string :=
  [ "a[href*=about]"; "a[href*=contact]"; "a[href*=company]";
    "a:contains(About)"; "a:contains(Contact)"; "a:contains(Company)" ].

Definition product_selectors : list string :=
  [ "a[href*=product]"; "a[href*=bottle]"; "a[href*=container]";
    "a[href*=packaging]"; ".product-item a"; ".product-card a";
    ".product-grid a"; ".catalog-item a"; ".product a" ].

Definition find_company_info_links (W : World) (self : state) (soup : Soup)
  : list text :=
  list_set W (selectors_loop W self (fun _ => true) soup company_selectors).

Definition find_product_links (W : World) (self : state) (soup : Soup)
  : list text :=
  list_set W (selectors_loop W self is_product_link soup product_selectors).

(** ** Field parsers *)

(** [(\d+(?:\.\d+)?)\s*(g|kg|gram|kilogram)?] and the capacity pattern are
    those of the document extractor. *)
Definition weight_re : regex := PdfExtractor.weight_re.
Definition capacity_re : regex := PdfExtractor.capacity_re.

Definition parse_weight (value : text) (specs : dict) : exc dict :=
  match search true weight_re value with
  | Some m =>
      w ← float_of (group m 1);
      mret (<["weight_unit" := PStr (PdfExtractor.unit_or "g" (group m 2))]>
              (<["weight" := PFloat w]> specs))
  | None => mret specs
  end.

Definition parse_capacity (value : text) (specs : dict) : exc dict :=
  match search true capacity_re value with
  | Some m =>
      w ← float_of (group m 1);
      mret (<["capacity_unit" := PStr (PdfExtractor.unit_or "ml" (group m 2))]>
              (<["capacity" := PFloat w]> specs))
  | None => mret specs
  end.

(** [(\d+(?:\.\d+)?)\s*%] *)
Definition percentage_re : regex :=
  Seq (Grp 1 number) (Seq (Star space) (Chr "%")).

Definition extract_percentage (t : text) : exc (option Q) :=
  match search false percentage_re t with
  | Some m => q ← float_of (group m 1); mret (Some q)
  | None => mret None
  end.

Definition parse_spec_value (key value : text) (specs : dict) : exc dict :=
  if contains (txt "material") key then
    mret (<["material" := PStr value]> specs)
  else if contains (txt "weight") key then parse_weight value specs
  else if contains (txt "capacity") key || contains (txt "volume") key then
    parse_capacity value specs
  else if contains (txt "color") key || contains (txt "colour") key then
    mret (<["color" := PStr value]> specs)
  else if contains (txt "sku") key || contains (txt "code") key then
    mret (<["sku" := PStr value]> specs)
  else if contains (txt "recycle") key then
    recycled ← extract_percentage value;
    mret (<["recycled_content" :=
              match recycled with Some q => PFloat q | None => PNone end]> specs)
  else mret specs.

(** [(\d+(?:\.\d+)?)\s*(g|kg|gram|kilogram)] and its capacity sibling. *)
Definition weight_text_re : regex :=
  Seq (Grp 1 number) (Seq (Star space) (Grp 2 PdfExtractor.weight_units)).
Definition capacity_text_re : regex :=
  Seq (Grp 1 number) (Seq (Star space) (Grp 2 PdfExtractor.capacity_units)).

Definition extract_specs_from_text (t : text) (specs : dict) : exc dict :=
  specs ← match search true weight_text_re t with
          | Some m =>
              if bool_decide (is_Some (specs !! "weight")) then mret specs
              else
                w ← float_of (group m 1);
                u ← PdfExtractor.str_of (group m 2);
                mret (<["weight_unit" := PStr (lower u)]>
                        (<["weight" := PFloat w]> specs))
          | None => mret specs
          end;
  match search true capacity_text_re t with
  | Some m =>
      if bool_decide (is_Some (specs !! "capacity")) then mret specs
      else
        w ← float_of (group m 1);
        u ← PdfExtractor.str_of (group m 2);
        mret (<["capacity_unit" := PStr (lower u)]>
                (<["capacity" := PFloat w]> specs))
  | None => mret specs
  end.

(** The rows of one table: the first two cells of a row are a key and a
    value. *)
Fixpoint rows_loop (rows : list (list Element)) (specs : dict) : exc dict :=
  match rows with
  | [] => mret specs
  | cells :: rest =>
      specs' ← match cells with
                | k :: v :: _ =>
                    parse_spec_value (lower (el_text_strip k)) (el_text_strip v) specs
                | _ => mret specs
                end;
      rows_loop rest specs'
  end.

Fixpoint tables_loop (ts : list (list (list Element))) (specs : dict)
  : exc dict :=
  match ts with
  | [] => mret specs
  | rows :: rest => specs' ← rows_loop rows specs; tables_loop rest specs'
  end.

(** [for term, value in zip(terms, values)] *)
Fixpoint terms_loop (terms values : list Element) (specs : dict) : exc dict :=
  match terms, values with
  | term :: terms', value :: values' =>
      specs' ← parse_spec_value (lower (el_text_strip term))
                                (el_text_strip value) specs;
      terms_loop terms' values' specs'
  | _, _ => mret specs
  end.

Fixpoint dls_loop (ds : list (list Element * list Element)) (specs : dict)
  : exc dict :=
  match ds with
  | [] => mret specs
  | (terms, values) :: rest =>
      specs' ← terms_loop terms values specs; dls_loop rest specs'
  end.

Definition extract_specifications (soup : Soup) : exc dict :=
  specs ← tables_loop (tables soup) ∅;
  specs ← dls_loop (dls soup) specs;
  extract_specs_from_text (get_text soup) specs.

(** The loop of [extract_by_selectors]; a selector that raises is skipped. *)
Fixpoint extract_by_selectors (soup : Soup) (selectors : list string)
  : option text :=
  match selectors with
  | [] => None
  | selector :: rest =>
      match select_one soup selector with
      | Ok (Some element) =>
          let t := el_text_strip element in
          if (2 <? length t)%nat then Some t
          else extract_by_selectors soup rest
      | _ => extract_by_selectors soup rest
      end
  end.

Definition is_valid_image_url (url : text) : bool :=
  existsb (fun ext => endswith (txt ext) (lower url))
          [".jpg"; ".jpeg"; ".png"; ".webp"; ".gif"].

(** The images of one selector; an exception of [urljoin] ends the loop. *)
Fixpoint images_loop (W : World) (base_url : text) (imgs : list Element)
  (acc : list text) : list text :=
  match imgs with
  | [] => acc
  | img :: rest =>
      match match attr img "src" with
            | Some src => Some src
            | None => attr img "data-src"
            end with
      | Some src =>
          match urljoin W base_url src with
          | Ok full_url =>
              images_loop W base_url rest
                (if is_valid_image_url full_url then acc ++ [full_url] else acc)
          | Raise _ => acc
          end
      | None => images_loop W base_url rest acc
      end
  end.

Definition image_selectors : list string :=
  [ ".product-image img"; ".product-gallery img"; ".product-photos img";
    "[data-product-image]"; ".product img"; ".gallery img" ].

Definition extract_product_images (W : World) (soup : Soup) (base_url : text)
  : list text :=
  take 5 (list_set W
    (fold_left (fun acc selector =>
                  match select soup selector with
                  | Ok imgs => images_loop W base_url imgs acc
                  | Raise _ => acc
                  end)
               image_selectors [])).

Definition name_selectors : list string :=
  ["h1"; ".product-title"; ".product-name"; "[data-product-name]"; ".title"].
Definition desc_selectors : list string :=
  [".product-description"; ".description"; ".product-details p"; ".content p"].

Definition extract_product_data (W : World) (soup : Soup) (url : text)
  : exc (option dict) :=
  match extract_by_selectors soup name_selectors with
  | None => mret None
  | Some product_name =>
      let description := extract_by_selectors soup desc_selectors in
      specs ← extract_specifications soup;
      let images := extract_product_images W soup url in
      mret (Some (
        <["productName" := PStr product_name]>
        (<["description" := of_opt description]>
        (<["materialType" := get specs "material"]>
        (<["weight" := get specs "weight"]>
        (<["weightUnit" := get specs "weight_unit"]>
        (<["capacity" := get specs "capacity"]>
        (<["capacityUnit" := get specs "capacity_unit"]>
        (<["color" := get specs "color"]>
        (<["dimensions" := get specs "dimensions"]>
        (<["recycledContent" := get specs "recycled_content"]>
        (<["sku" := get specs "sku"]>
        (<["productImage" := of_opt (head images)]>
        (<["additionalImages" :=
             PList (if (1 <? length images)%nat then take 4 (drop 1 images) else [])]>
        (<["sourceUrl" := PStr url]> ∅)))))))))))))))
  end.

(** ** Company profile builder *)

(** [len(v)] on a dictionary value. *)
Definition py_len (v : pyval) : exc nat :=
  match v with
  | PStr s => Ok (length s)
  | PList l => Ok (length l)
  | PNone => Raise (txt "object of type 'NoneType' has no len()")
  | PInt _ => Raise (txt "object of type 'int' has no len()")
  | PFloat _ => Raise (txt "object of type 'float' has no len()")
  end.

(** [soup.find('img', {'alt': re.compile(r'logo', re.IGNORECASE)})] *)
Definition find_logo (soup : Soup) : option Element :=
  find (fun img => match attrs img !! "alt" with
                   | Some alt => PdfExtractor.found true (Str "logo") alt
                   | None => false
                   end)
       (find_all soup "img").

Definition title_suffixes : list string :=
  [" - Home"; " | Home"; " - Official Site"; " | Official Site"].

Definition remove (old : string) (s : text) : text := replace (txt old) [] s.

Definition extract_company_name (W : World) (soup : Soup) (url : text)
  : exc text :=
  let from_logo :=
    match find_logo soup with
    | Some logo =>
        match attr logo "alt" with
        | Some alt =>
            match strip (remove "Logo" (remove "logo" alt)) with
            | [] => None
            | c :: name => Some (c :: name)
            end
        | None => None
        end
    | None => None
    end in
  let from_title :=
    match head (find_all soup "title") with
    | Some title =>
        match fold_left (fun t suffix => remove suffix t) title_suffixes
                        (strip (el_text title)) with
        | [] => None
        | c :: t => Some (c :: t)
        end
    | None => None
    end in
  match from_logo, from_title with
  | Some name, _ => mret name
  | None, Some title_text => mret title_text
  | None, None =>
      domain ← netloc W url;
      mret (title (remove ".co.uk" (remove ".com" (remove "www." domain))))
  end.

Definition extract_email (soup : Soup) : option text :=
  m_text <$> search false PdfExtractor.email_re (get_text soup).

(** The first two patterns of the document extractor. *)
Definition address_patterns : list regex := take 2 PdfExtractor.address_patterns.

Definition extract_address (soup : Soup) : option text :=
  PdfExtractor.first_some
    (fun pattern =>
       match search false pattern (get_text soup) with
       | Some m =>
           let address := strip (m_text m) in
           if (20 <? length address)%nat then Some address else None
       | None => None
       end)
    address_patterns.

(** [(\+?\d{1,3}[-.\s]?)?\(?\d{3}\)?[-.\s]?\d{3}[-.\s]?\d{4}] *)
Definition phone_re : regex :=
  Seq (Opt (Grp 1 (Seq (Opt (Chr "+")) (Seq (Range 1 2 digit) PdfExtractor.phone_sep))))
    (Seq (Opt (Chr "(")) (Seq (Rep 3 digit) (Seq (Opt (Chr ")"))
    (Seq PdfExtractor.phone_sep (Seq (Rep 3 digit)
    (Seq PdfExtractor.phone_sep (Rep 4 digit))))))).

Definition extract_phone (soup : Soup) : option text :=
  m_text <$> search false phone_re (get_text soup).

Definition about_selectors : list string :=
  [".about-text"; ".company-description"; ".intro-text"; ".hero-text"].

(** The loop over [about_selectors]; [select_one] is not guarded here. *)
Fixpoint about_loop (soup : Soup) (selectors : list string)
  : exc (option text) :=
  match selectors with
  | [] => mret None
  | selector :: rest =>
      element ← select_one soup selector;
      match element with
      | Some el =>
          if (50 <? length (el_text_strip el))%nat
          then mret (Some (el_text_strip el))
          else about_loop soup rest
      | None => about_loop soup rest
      end
  end.

(** [soup.find('meta', attrs={'name': 'description'})] *)
Definition find_meta_description (soup : Soup) : option Element :=
  find (fun meta => bool_decide (attrs meta !! "name" = Some (txt "description")))
       (find_all soup "meta").

Definition extract_description (soup : Soup) : exc (option text) :=
  match match find_meta_description soup with
        | Some meta_desc => attr meta_desc "content"
        | None => None
        end with
  | Some content => mret (Some (strip content))
  | None =>
      about ← about_loop soup about_selectors;
      match about with
      | Some t => mret (Some t)
      | None =>
          mret (find (fun t => (100 <? length t)%nat)
                     (map el_text_strip (find_all soup "p")))
      end
  end.

Definition extract_company_profile (W : World) (soup : Soup) (url : text)
  (self : state) : exc state :=
  company_name ← extract_company_name W soup url;
  let email := extract_email soup in
  let address := extract_address soup in
  let phone := extract_phone soup in
  description ← extract_description soup;
  mret (set_company self (
    (<["companyName" := PStr company_name]>
    (<["website" := PStr url]>
    (<["email" := of_opt email]>
    (<["address" := of_opt address]>
    (<["phone" := of_opt phone]>
    (<["supplierType" := PStr (txt "Packaging")]>
    (<["description" := of_opt description]> ∅)))))))
    ∪ company_data self)).

(** [if not d.get(key): d[key] = value] *)
Definition fill (key : string) (value : option text) (d : dict) : dict :=
  if truthy (get d key) then d else <[key := of_opt value]> d.

Definition company_error (url e : text) : text :=
  txt "Error crawling company page " ++ url ++ txt ": " ++ e.

(** The body of the [try] of [crawl_company_page] after the page is
    fetched: the company data reached, and the exception if one ended it. *)
Definition update_company (soup : Soup) (d : dict) : dict * option text :=
  let d := fill "email" (extract_email soup) d in
  let d := fill "address" (extract_address soup) d in
  let d := fill "phone" (extract_phone soup) d in
  match extract_description soup with
  | Raise e => (d, Some e)
  | Ok (Some (c :: description)) =>
      match py_len (get_default d "description" (PStr [])) with
      | Raise e => (d, Some e)
      | Ok n =>
          if (n <? length (c :: description))%nat
          then (<["description" := PStr (c :: description)]> d, None)
          else (d, None)
      end
  | Ok _ => (d, None)
  end.

Definition crawl_company_page (W : World) (url : text) (self : state)
  : state :=
  let '(self, response) := session_get W self url in
  match response with
  | Raise e => log_error self (company_error url e)
  | Ok soup =>
      match update_company soup (company_data self) with
      | (d, None) => set_company self d
      | (d, Some e) => log_error (set_company self d) (company_error url e)
      end
  end.

(** ** Product pages *)

Definition product_error (url e : text) : text :=
  txt "Error crawling product page " ++ url ++ txt ": " ++ e.

Definition crawl_product_page (W : World) (url : text) (self : state)
  : state :=
  let self := add_visited self url in
  let '(self, response) := session_get W self url in
  match response with
  | Raise e => log_error self (product_error url e)
  | Ok soup =>
      match extract_product_data W soup url with
      | Raise e => log_error self (product_error url e)
      | Ok (Some product_data) =>
          if negb (bool_decide (product_data = ∅))
             && truthy (get product_data "productName")
          then add_product self product_data
          else self
      | Ok None => self
      end
  end.

(** ** Orchestrator *)

Definition success_envelope (self : state) : envelope :=
  <["success" := EBool true]>
  (<["supplierData" := EDict (company_data self)]>
  (<["productsData" := EDicts (products_data self)]>
  (<["totalProducts" := EInt (Z.of_nat (length (products_data self)))]> ∅))).

Definition failure_envelope (message : text) : envelope :=
  <["success" := EBool false]> (<["error" := EStr message]> ∅).

(** Step 4: a product link is crawled unless it was visited. *)
Definition visit_product (W : World) (self : state) (link : text) : state :=
  if bool_decide (link ∈ visited_urls self) then self
  else crawl_product_page W link self.

(** The body of the [try] of [crawl_supplier_catalog]: the crawler as the
    body leaves it, and the exception that ended it, if any. *)
Definition crawl_steps (W : World) (self : state) : state * exc unit :=
  let '(self, main_response) := session_get W self (start_url self) in
  match main_response with
  | Raise e => (self, Raise e)
  | Ok main_soup =>
      match extract_company_profile W main_soup (start_url self) self with
      | Raise e => (self, Raise e)
      | Ok self =>
          let company_links := find_company_info_links W self main_soup in
          let self :=
            fold_left (fun s link => crawl_company_page W link s)
                      (take 3 company_links) self in
          let product_links := find_product_links W self main_soup in
          let self := fold_left (visit_product W) (take 20 product_links) self in
          (self, Ok ())
      end
  end.

(** [crawl_supplier_catalog]: the envelope returned and the crawler as the
    call leaves it. *)
Definition crawl_supplier_catalog (W : World) (self : state)
  : envelope * state :=
  match crawl_steps W self with
  | (self, Ok _) => (success_envelope self, self)
  | (self, Raise e) => (failure_envelope (txt "Crawling failed: " ++ e), self)
  end.

(** [main]: what is printed and the exit status, or the exception that
    [SimpleWebCrawler(start_url)] lets escape. *)
Definition main (W : World) (argv : list text) : exc (envelope * Z) :=
  match argv with
  | [_; url] =>
      crawler ← init W url;
      mret (fst (crawl_supplier_catalog W crawler), 0%Z)
  | _ => mret (failure_envelope (txt "URL argument required"), 1%Z)
  end.

End SimpleCrawler.

(* ================================================================== *)
(** * bulk_web_crawler.py *)
(* ================================================================== *)

Module BulkCrawler.
Import Text Regex Dom.

(** A response handed to a callback: its URL, its parsed body, what the
    selector of step 2 of [parse] returns for it, and [response.follow]:
    the URL of the request that scrapy builds for a URL (joined with the
    base URL of the page and escaped), or its exception (a URL without a
    scheme is a [ValueError]). *)
Record Response : Type := {
  url : text;
  soup : Soup;
  css_company_links : list text;
  follow : text → exc text
}.

(** The attributes of a [SupplierCrawlerSpider]. *)
Record state : Type := {
  base_domain : text;
  company_data : dict;
  products_data : list dict;
  visited_product_urls : gset text
}.

Definition set_company (self : state) (d : dict) : state :=
  {| base_domain := base_domain self; company_data := d;
     products_data := products_data self;
     visited_product_urls := visited_product_urls self |}.

Definition add_visited (self : state) (link : text) : state :=
  {| base_domain := base_domain self; company_data := company_data self;
     products_data := products_data self;
     visited_product_urls := {[ link ]} ∪ visited_product_urls self |}.

(** The callbacks a request can be followed with. *)
Inductive callback : Type := parse_company_page_cb | parse_product_page_cb.

(** ** Company profile builder *)

Definition extract_company_name (W : World) (s : Soup) (u : text) : exc text :=
  match match SimpleCrawler.find_logo s with
        | Some logo => attr logo "alt"
        | None => None
        end with
  | Some alt =>
      mret (strip (SimpleCrawler.remove "Logo" (SimpleCrawler.remove "logo" alt)))
  | None =>
      match head (find_all s "title") with
      | Some title =>
          mret (strip (fold_left (fun t suffix => SimpleCrawler.remove suffix t)
                                 [" - Home"; " | Home"; " - Official Site"]
                                 (el_text title)))
      | None =>
          domain ← netloc W u;
          mret (Text.title (SimpleCrawler.remove ".co.uk"
                  (SimpleCrawler.remove ".com" (SimpleCrawler.remove "www." domain))))
      end
  end.

Definition extract_email (s : Soup) : option text :=
  m_text <$> search false PdfExtractor.email_re (get_text s).

(** [\b\d{5}(?:-\d{4})?\b|\b[A-Z]{1,2}\d{1,2}[A-Z]?\s\d[A-Z]{2}\b] *)
Definition postcode_re : regex :=
  Alt (Seq WordB (Seq (Rep 5 digit)
         (Seq (Opt (Seq (Chr "-") (Rep 4 digit))) WordB)))
      (Seq WordB (Seq (Range 1 1 (Cls is_upper)) (Seq (Range 1 1 digit)
         (Seq (Opt (Cls is_upper)) (Seq space (Seq digit
         (Seq (Rep 2 (Cls is_upper)) WordB))))))).

(** For each indicator, the strings of the page that contain it; the text
    of the parent of the first one that holds a postal code. *)
Definition extract_address (s : Soup) : option text :=
  PdfExtractor.first_some
    (fun indicator =>
       PdfExtractor.first_some
         (fun node : text * Element =>
            if PdfExtractor.found true (Str indicator) (fst node)
               && PdfExtractor.found false postcode_re (el_text_strip (snd node))
            then Some (el_text_strip (snd node)) else None)
         (text_nodes s))
    ["address"; "location"; "contact"].

Definition extract_phone (s : Soup) : option text :=
  m_text <$> search false SimpleCrawler.phone_re (get_text s).

Definition desc_selectors : list string :=
  [".about-text"; ".company-description"; ".intro-text";
   "meta[name=description]"; ".hero-text"].

Fixpoint desc_loop (s : Soup) (selectors : list string) : exc (option text) :=
  match selectors with
  | [] => mret None
  | selector :: rest =>
      element ← select_one s selector;
      if startswith (txt "meta") (txt selector) then
        match element with
        | Some el =>
            mret (Some (match attrs el !! "content" with
                        | Some c => c
                        | None => []
                        end))
        | None => desc_loop s rest
        end
      else
        match element with
        | Some el =>
            if (50 <? length (el_text_strip el))%nat
            then mret (Some (el_text_strip el))
            else desc_loop s rest
        | None => desc_loop s rest
        end
  end.

Definition extract_description (s : Soup) : exc (option text) :=
  found ← desc_loop s desc_selectors;
  match found with
  | Some t => mret (Some t)
  | None =>
      mret (find (fun t => (100 <? length t)%nat)
                 (map el_text_strip (find_all s "p")))
  end.

Definition extract_company_profile (W : World) (response : Response)
  (self : state) : exc state :=
  company_name ← extract_company_name W (soup response) (url response);
  let email := extract_email (soup response) in
  let address := extract_address (soup response) in
  let phone := extract_phone (soup response) in
  description ← extract_description (soup response);
  mret (set_company self (
    (<["companyName" := PStr company_name]>
    (<["website" := PStr (url response)]>
    (<["email" := of_opt email]>
    (<["address" := of_opt address]>
    (<["phone" := of_opt phone]>
    (<["supplierType" := PStr (txt "Packaging")]>
    (<["description" := of_opt description]> ∅)))))))
    ∪ company_data self)).

(** [parse_company_page]: the spider after the callback, and the exception
    the callback lets escape to the framework, if any. *)
Definition parse_company_page (response : Response) (self : state)
  : state * option text :=
  let s := soup response in
  let d := company_data self in
  let d := SimpleCrawler.fill "email" (extract_email s) d in
  let d := SimpleCrawler.fill "address" (extract_address s) d in
  let d := SimpleCrawler.fill "phone" (extract_phone s) d in
  match extract_description s with
  | Raise e => (set_company self d, Some e)
  | Ok (Some (c :: description)) =>
      match SimpleCrawler.py_len (get_default d "description" (PStr [])) with
      | Raise e => (set_company self d, Some e)
      | Ok n =>
          if (n <? length (c :: description))%nat
          then (set_company self (<["description" := PStr (c :: description)]> d), None)
          else (set_company self d, None)
      end
  | Ok _ => (set_company self d, None)
  end.

(** ** Crawl frontier *)

Definition is_product_link (href : text) : bool :=
  match href with
  | [] => false
  | _ :: _ =>
      if any_in ["mailto:"; "tel:"; "#"; "javascript:"; ".pdf"; ".jpg"; ".png"]
                (lower href)
      then false
      else any_in ["product"; "bottle"; "container"; "jar"; "cap"; "closure"]
                  (lower href)
  end.

Definition product_selectors : list string :=
  [ "a[href*=product]"; "a[href*=bottle]"; "a[href*=container]";
    "a[href*=packaging]"; ".product-item a"; ".product-card a";
    ".product-grid a"; ".catalog-item a" ].

(** The loop over [product_selectors]; nothing is guarded. *)
Fixpoint selectors_loop (s : Soup) (selectors : list string)
  (product_links : list text) : exc (list text) :=
  match selectors with
  | [] => mret product_links
  | selector :: rest =>
      links ← select s selector;
      selectors_loop s rest
        (product_links ++
         omap (fun link => match attr link "href" with
                           | Some href =>
                               if is_product_link href then Some href else None
                           | None => None
                           end) links)
  end.

Definition find_product_links (W : World) (response : Response)
  : exc (list text) :=
  product_links ← selectors_loop (soup response) product_selectors [];
  mret (list_set W product_links).

(** [response.follow(urljoin(response.url, link), callback)]: the URL of
    the request. *)
Definition follow_link (W : World) (response : Response) (link : text)
  : exc text :=
  full_url ← urljoin W (url response) link;
  follow response full_url.

(** The requests of step 2, in order; an exception of [urljoin] or of
    [response.follow] ends the generator. *)
Fixpoint company_requests (W : World) (response : Response)
  (links : list text) (out : list (text * callback))
  : list (text * callback) * option text :=
  match links with
  | [] => (out, None)
  | link :: rest =>
      match follow_link W response link with
      | Ok request =>
          company_requests W response rest
            (out ++ [(request, parse_company_page_cb)])
      | Raise e => (out, Some e)
      end
  end.

(** The requests of step 4. *)
Fixpoint product_requests (W : World) (response : Response)
  (links : list text) (self : state) (out : list (text * callback))
  : list (text * callback) * state * option text :=
  match links with
  | [] => (out, self, None)
  | link :: rest =>
      if bool_decide (link ∈ visited_product_urls self)
      then product_requests W response rest self out
      else
        let self := add_visited self link in
        match follow_link W response link with
        | Ok request =>
            product_requests W response rest self
              (out ++ [(request, parse_product_page_cb)])
        | Raise e => (out, self, Some e)
        end
  end.

(** [parse]: the requests the generator yields, the spider after it, and
    the exception that ended it, if any. *)
Definition parse (W : World) (response : Response) (self : state)
  : list (text * callback) * state * option text :=
  match extract_company_profile W response self with
  | Raise e => ([], self, Some e)
  | Ok self =>
      match company_requests W response
              (take 3 (css_company_links response)) [] with
      | (out, Some e) => (out, self, Some e)
      | (out, None) =>
          match find_product_links W response with
          | Raise e => (out, self, Some e)
          | Ok product_links =>
              product_requests W response (take 50 product_links) self out
          end
      end
  end.

(** ** Product pages *)

(** The values of the specifications and of the record of a product page:
    those of the other dictionaries, and the dictionary of the dimensions. *)
Inductive specval : Type :=
| Val (v : pyval)
| Dims (d : dict).

Abbreviation record := (gmap string specval).

(** [d.get(k)] and the truth of a value. *)
Definition sget (d : record) (k : string) : specval :=
  match d !! k with Some v => v | None => Val PNone end.
Definition struthy (v : specval) : bool :=
  match v with
  | Val v => truthy v
  | Dims d => negb (bool_decide (d = ∅))
  end.

(** A number that may be [None], as a value. *)
Definition num (o : option Q) : pyval :=
  match o with Some q => PFloat q | None => PNone end.

Definition parse_weight (value : text) (specs : record) : exc record :=
  match search true SimpleCrawler.weight_re value with
  | Some m =>
      w ← float_of (group m 1);
      mret (<["weight_unit" := Val (PStr (PdfExtractor.unit_or "g" (group m 2)))]>
              (<["weight" := Val (PFloat w)]> specs))
  | None => mret specs
  end.

Definition parse_capacity (value : text) (specs : record) : exc record :=
  match search true SimpleCrawler.capacity_re value with
  | Some m =>
      w ← float_of (group m 1);
      mret (<["capacity_unit" := Val (PStr (PdfExtractor.unit_or "ml" (group m 2)))]>
              (<["capacity" := Val (PFloat w)]> specs))
  | None => mret specs
  end.

(** [(\d+(?:\.\d+)?)] *)
Definition extract_number (t : text) : exc (option Q) :=
  match search false (Grp 1 number) t with
  | Some m => q ← float_of (group m 1); mret (Some q)
  | None => mret None
  end.

(** [(\d+(?:\.\d+)?)\s*%], as in the simple crawler. *)
Definition extract_percentage (t : text) : exc (option Q) :=
  match search false SimpleCrawler.percentage_re t with
  | Some m => q ← float_of (group m 1); mret (Some q)
  | None => mret None
  end.

(** [specs['dimensions'][name] = self.extract_number(value)] *)
Definition set_dimension (name : string) (value : text) (specs : record)
  : exc record :=
  n ← extract_number value;
  match specs !! "dimensions" with
  | Some (Dims d) => mret (<["dimensions" := Dims (<[name := num n]> d)]> specs)
  | Some (Val _) => Raise (txt "object does not support item assignment")
  | None => Raise (txt "'dimensions'")
  end.

Definition parse_spec_value (key value : text) (specs : record) : exc record :=
  if contains (txt "material") key then
    mret (<["material" := Val (PStr value)]> specs)
  else if contains (txt "weight") key then parse_weight value specs
  else if contains (txt "capacity") key || contains (txt "volume") key then
    parse_capacity value specs
  else if contains (txt "color") key || contains (txt "colour") key then
    mret (<["color" := Val (PStr value)]> specs)
  else if contains (txt "sku") key || contains (txt "code") key then
    mret (<["sku" := Val (PStr value)]> specs)
  else if contains (txt "recycle") key then
    recycled ← extract_percentage value;
    mret (<["recycled_content" := Val (num recycled)]> specs)
  else if any_in ["height"; "width"; "diameter"; "dimension"] key then
    let specs :=
      if bool_decide (is_Some (specs !! "dimensions")) then specs
      else <["dimensions" := Dims ∅]> specs in
    if contains (txt "height") key then set_dimension "height" value specs
    else if contains (txt "width") key then set_dimension "width" value specs
    else if contains (txt "diameter") key then set_dimension "diameter" value specs
    else mret specs
  else mret specs.

(** The two patterns are those of the simple crawler; here what the text
    gives is written whatever the dictionary holds. *)
Definition extract_specs_from_text (t : text) (specs : record) : exc record :=
  specs ← match search true SimpleCrawler.weight_text_re t with
          | Some m =>
              w ← float_of (group m 1);
              u ← PdfExtractor.str_of (group m 2);
              mret (<["weight_unit" := Val (PStr (lower u))]>
                      (<["weight" := Val (PFloat w)]> specs))
          | None => mret specs
          end;
  match search true SimpleCrawler.capacity_text_re t with
  | Some m =>
      w ← float_of (group m 1);
      u ← PdfExtractor.str_of (group m 2);
      mret (<["capacity_unit" := Val (PStr (lower u))]>
              (<["capacity" := Val (PFloat w)]> specs))
  | None => mret specs
  end.

Fixpoint rows_loop (rows : list (list Element)) (specs : record) : exc record :=
  match rows with
  | [] => mret specs
  | cells :: rest =>
      specs' ← match cells with
                | k :: v :: _ =>
                    parse_spec_value (lower (el_text_strip k)) (el_text_strip v) specs
                | _ => mret specs
                end;
      rows_loop rest specs'
  end.

Fixpoint tables_loop (ts : list (list (list Element))) (specs : record)
  : exc record :=
  match ts with
  | [] => mret specs
  | rows :: rest => specs' ← rows_loop rows specs; tables_loop rest specs'
  end.

Fixpoint terms_loop (terms values : list Element) (specs : record) : exc record :=
  match terms, values with
  | term :: terms', value :: values' =>
      specs' ← parse_spec_value (lower (el_text_strip term))
                                (el_text_strip value) specs;
      terms_loop terms' values' specs'
  | _, _ => mret specs
  end.

Fixpoint dls_loop (ds : list (list Element * list Element)) (specs : record)
  : exc record :=
  match ds with
  | [] => mret specs
  | (terms, values) :: rest =>
      specs' ← terms_loop terms values specs; dls_loop rest specs'
  end.

Definition extract_specifications (s : Soup) : exc record :=
  specs ← tables_loop (tables s) ∅;
  specs ← dls_loop (dls s) specs;
  extract_specs_from_text (get_text s) specs.

(** The loop of [extract_by_selectors]; nothing is guarded, and any text
    that is not empty is taken. *)
Fixpoint extract_by_selectors (s : Soup) (selectors : list string)
  : exc (option text) :=
  match selectors with
  | [] => mret None
  | selector :: rest =>
      element ← select_one s selector;
      match element with
      | Some el =>
          match el_text_strip el with
          | c :: t => mret (Some (c :: t))
          | [] => extract_by_selectors s rest
          end
      | None => extract_by_selectors s rest
      end
  end.

Definition is_valid_image_url (u : text) : bool :=
  existsb (fun ext => endswith (txt ext) (lower u))
          [".jpg"; ".jpeg"; ".png"; ".webp"; ".gif"].

(** The images of one selector. *)
Fixpoint images_loop (W : World) (base_url : text) (imgs : list Element)
  (acc : list text) : exc (list text) :=
  match imgs with
  | [] => mret acc
  | img :: rest =>
      match match attr img "src" with
            | Some src => Some src
            | None => attr img "data-src"
            end with
      | Some src =>
          full_url ← urljoin W base_url src;
          images_loop W base_url rest
            (if is_valid_image_url full_url then acc ++ [full_url] else acc)
      | None => images_loop W base_url rest acc
      end
  end.

Definition image_selectors : list string :=
  [ ".product-image img"; ".product-gallery img"; ".product-photos img";
    "[data-product-image]" ].

Fixpoint image_selectors_loop (W : World) (s : Soup) (base_url : text)
  (selectors : list string) (images : list text) : exc (list text) :=
  match selectors with
  | [] => mret images
  | selector :: rest =>
      img_elements ← select s selector;
      images ← images_loop W base_url img_elements images;
      image_selectors_loop W s base_url rest images
  end.

Definition extract_product_images (W : World) (s : Soup) (base_url : text)
  : exc (list text) :=
  images ← image_selectors_loop W s base_url image_selectors [];
  mret (list_set W images).

Definition name_selectors : list string :=
  ["h1"; ".product-title"; ".product-name"; "[data-product-name]"].
(** The [desc_selectors] of [extract_product_data]. *)
Definition product_desc_selectors : list string :=
  [".product-description"; ".description"; ".product-details p"].

Definition extract_product_data (W : World) (s : Soup) (u : text) : exc record :=
  product_name ← extract_by_selectors s name_selectors;
  description ← extract_by_selectors s product_desc_selectors;
  specs ← extract_specifications s;
  images ← extract_product_images W s u;
  mret (<["productName" := Val (of_opt product_name)]>
       (<["description" := Val (of_opt description)]>
       (<["materialType" := sget specs "material"]>
       (<["weight" := sget specs "weight"]>
       (<["weightUnit" := sget specs "weight_unit"]>
       (<["capacity" := sget specs "capacity"]>
       (<["capacityUnit" := sget specs "capacity_unit"]>
       (<["color" := sget specs "color"]>
       (<["dimensions" := sget specs "dimensions"]>
       (<["recycledContent" := sget specs "recycled_content"]>
       (<["sku" := sget specs "sku"]>
       (<["productImage" := Val (of_opt (head images))]>
       (<["additionalImages" :=
            Val (PList (if (1 <? length images)%nat
                        then take 4 (drop 1 images) else []))]>
       (<["sourceUrl" := Val (PStr u)]> ∅)))))))))))))).

(** [parse_product_page]: the record the callback appends to
    [products_data], if it appends one; a record of this spider can hold the
    dictionary of the dimensions. *)
Definition parse_product_page (W : World) (response : Response)
  : exc (option record) :=
  product_data ← extract_product_data W (soup response) (url response);
  mret (if negb (bool_decide (product_data = ∅))
           && struthy (sget product_data "productName")
        then Some product_data else None).

(** ** Orchestrator *)

Definition success_envelope (spider : state) : envelope :=
  <["success" := EBool true]>
  (<["supplierData" := EDict (company_data spider)]>
  (<["productsData" := EDicts (products_data spider)]>
  (<["totalProducts" := EInt (Z.of_nat (length (products_data spider)))]> ∅))).

Definition failure_envelope (message : text) : envelope :=
  <["success" := EBool false]> (<["error" := EStr message]> ∅).

(** [run_crawler]: what is printed, given how the crawl ended: with the
    spider, or with an exception. *)
Definition run_crawler (crawl : exc state) : envelope :=
  match crawl with
  | Ok spider => success_envelope spider
  | Raise e => failure_envelope e
  end.

End BulkCrawler.

(* ================================================================== *)
(** * The vocabulary of the properties *)
(* ================================================================== *)

Module Spec.
Import Text Regex Dom PdfExtractor.

(** The shape shared by the weight and the capacity pattern. *)
Definition field_re (units : regex) : regex :=
  Seq (Grp 1 number) (Seq (Star space) (Opt (Grp 2 units))).

(** The fixed sets of unit tokens. *)
Definition weight_unit_names : list string := ["g"; "kg"; "gram"; "kilogram"].
Definition capacity_unit_names : list string := ["ml"; "l"; "liter"; "litre"; "oz"].

(** A unit token of the set stands at the head of [rest], after optional
    white space and in any case. *)
Definition follows_unit (names : list string) (rest : text) : bool :=
  existsb (fun u => startswith (txt u) (lower (lstrip rest))) names.


(** A field parser in general: the pattern [field_re units], the keys
    written, the default unit and the dictionary written to. *)
Definition field_parser (units : regex) (vkey ukey default : string)
  (base : dict) (value : text) : exc dict :=
  match search true (field_re units) value with
  | Some m =>
      w ← float_of (group m 1);
      mret (<[ukey := PStr (PdfExtractor.unit_or default (group m 2))]>
              (<[vkey := PFloat w]> base))
  | None => mret base
  end.

Definition name_keys : list string := ["name"; "product"; "item"; "title"].

(** The header classifies its column as NAME. *)
Definition is_name_header (h : text) : bool := any_in name_keys (lower h).

(** The non-empty cells of a row that stand under a NAME header, in order;
    [i] is the index of the first cell of [row]. *)
Fixpoint name_cells_from (headers : list text) (i : nat) (row : list cell)
  : list text :=
  match row with
  | [] => []
  | c :: row' =>
      match headers !! i, c with
      | Some h, Some (x :: xs) =>
          if is_name_header h then (x :: xs) :: name_cells_from headers (S i) row'
          else name_cells_from headers (S i) row'
      | _, _ => name_cells_from headers (S i) row'
      end
  end.
Definition name_cells (headers : list text) (row : list cell) : list text :=
  name_cells_from headers 0 row.

(** Some cell of the row is classified as NAME by its header. *)
Definition has_name_cell (headers : list text) (row : list cell) : bool :=
  match name_cells headers row with [] => false | _ :: _ => true end.

(** The last NAME cell of the row has text besides white space. *)
Definition named (headers : list text) (row : list cell) : Prop :=
  ∃ c, last (name_cells headers row) = Some c ∧ strip c ≠ [].

(** The record a data row gives, if it gives one. *)
Definition emitted (headers : list text) (row : list cell) : option dict :=
  match extract_product_from_table_row headers row with
  | Ok o => o
  | Raise _ => None
  end.

(** The name of a record and its identity: the name in lower case,
    trimmed. *)
Definition name_of (p : dict) : text :=
  match p !! "productName" with Some (PStr n) => n | _ => [] end.
Definition identity (p : dict) : text := lower (strip (name_of p)).

(** A record with a name that is a non-empty string. *)
Definition has_name (p : dict) : Prop :=
  ∃ n, p !! "productName" = Some (PStr n) ∧ n ≠ [].

(** A record as the document extractor stores it: a non-empty, trimmed
    name, and a recycled content, if any, that is an integer from 0 up. *)
Definition trimmed_name (p : dict) : Prop :=
  ∃ n, p !! "productName" = Some (PStr n) ∧ n ≠ [] ∧ strip n = n.
Definition recycled_int (p : dict) : Prop :=
  ∀ v, p !! "recycledContent" = Some v → ∃ n, v = PInt n ∧ (0 <= n)%Z.
Definition stored (p : dict) : Prop := trimmed_name p ∧ recycled_int p.

(** The records of the data rows of a table. *)
Definition table_records (table : list (list cell)) : list dict :=
  if (length table <? 2)%nat then []
  else let '(headers, data_rows) := scan_table table in
       omap (emitted headers) data_rows.

(** A recycled content as the crawler stores it: [None], or a number from
    0 up. *)
Definition recycled_float (p : dict) (key : string) : Prop :=
  ∀ v, p !! key = Some v → v = PNone ∨ ∃ q, v = PFloat q ∧ (0 <= q)%Q.

(** The host of [u] is the start host or a subdomain of it. *)
Definition on_site (W : World) (start_host : text) (u : text) : Prop :=
  ∃ host, netloc W u = Ok host ∧
          (host = start_host ∨ endswith ("."%char :: start_host) host = true).

(** A record as the simple crawler stores it. *)
Definition web_stored (p : dict) : Prop :=
  has_name p ∧ recycled_float p "recycledContent".

Definition contact_keys : list string := ["email"; "address"; "phone"].

(** A contact field is absent, [None], or a string that is not empty. *)
Definition contact_ok (d : dict) : Prop :=
  ∀ k, In k contact_keys → ∀ v, d !! k = Some v → v = PNone ∨ ∃ s, v = PStr s ∧ s ≠ [].

(** The company pages crawled one after the other. *)
Definition company_pages (W : World) (urls : list text) (self : SimpleCrawler.state)
  : SimpleCrawler.state :=
  fold_left (fun s link => SimpleCrawler.crawl_company_page W link s) urls self.

(** The callbacks of the company pages, run one after the other. *)
Definition company_callbacks (responses : list BulkCrawler.Response)
  (self : BulkCrawler.state) : BulkCrawler.state :=
  fold_left (fun s r => fst (BulkCrawler.parse_company_page r s)) responses self.

(** What [len] says of [None]. *)
Definition len_of_none : text := txt "object of type 'NoneType' has no len()".

(** The line holds a legal-entity marker. *)
Definition has_marker (line : text) : bool := any_in company_indicators (lower line).

(** The fallback chain as the specification words it, over the lines of the
    window: a marker line; else an all-caps line longer than 5 characters,
    title-cased; else the first line of length 5 to 49 among the first 5
    lines; else the placeholder. *)
Definition spec_company_name (lines : list text) : text :=
  match find has_marker lines with
  | Some line => line
  | None =>
      match find (fun l => isupper l && (5 <? length l)%nat) lines with
      | Some line => title line
      | None =>
          match find (fun l => (5 <=? length l)%nat && (length l <=? 49)%nat)
                     (take 5 lines) with
          | Some line => line
          | None => txt "Unknown Company"
          end
      end
  end.

(** The line ends the first loop of [extract_company_name]: its length is
    from 3 to 80, and it holds a marker or is all-caps and longer than 5. *)
Definition wins (line : text) : bool :=
  negb ((length line <? 3)%nat || (80 <? length line)%nat)
  && (has_marker line || (isupper line && (5 <? length line)%nat)).

(** [line] is at index [i], below [bound], and is the first line that
    satisfies [p]. *)
Definition first_at (p : text → bool) (bound : nat) (lines : list text)
  (i : nat) (line : text) : Prop :=
  i < bound ∧ lines !! i = Some line ∧ p line = true ∧
  ∀ j l, j < i → lines !! j = Some l → p l = false.

(** The length of the longest run of digits in a text; [run] is the
    length of the run that ends where the text begins. *)
Fixpoint longest_digits (run : nat) (t : text) : nat :=
  match t with
  | [] => run
  | c :: t' =>
      if is_digit c then longest_digits (S run) t'
      else Nat.max run (longest_digits 0 t')
  end.

(** No run of digits in the text is longer than the 4300 digits that
    [int] converts. *)
Definition short_digits (t : text) : bool := (longest_digits 0 t <=? 4300)%nat.

(** The same for the cells of a row. *)
Definition short_cells (row : list cell) : Prop :=
  Forall (fun c : cell => short_digits (default [] c) = true) row.

(** No line below [bound] satisfies [p]. *)
Definition none_below (p : text → bool) (bound : nat) (lines : list text) : Prop :=
  ∀ i l, i < bound → lines !! i = Some l → p l = false.

(** The two shapes of the result envelope. *)
Definition success_shape (e : envelope) : Prop :=
  dom e = ({[ "success"; "supplierData"; "productsData"; "totalProducts" ]} : gset string) ∧
  e !! "success" = Some (EBool true) ∧
  (∃ d, e !! "supplierData" = Some (EDict d)) ∧
  (∃ ps, e !! "productsData" = Some (EDicts ps)) ∧
  (∃ n, e !! "totalProducts" = Some (EInt n)).

Definition failure_shape (e : envelope) : Prop :=
  dom e = ({[ "success"; "error" ]} : gset string) ∧
  e !! "success" = Some (EBool false) ∧
  ∃ message, e !! "error" = Some (EStr message).

Definition one_shape (e : envelope) : Prop :=
  (success_shape e ∧ ¬ failure_shape e) ∨ (failure_shape e ∧ ¬ success_shape e).

(** In a success envelope, the count is the length of the list. *)
Definition count_is_length (e : envelope) : Prop :=
  e !! "success" = Some (EBool true) →
  ∃ ps, e !! "productsData" = Some (EDicts ps) ∧
        e !! "totalProducts" = Some (EInt (Z.of_nat (length ps))).

(** Every match of [r] binds group [n]: a syntactic test. *)
Fixpoint always_binds (r : regex) (n : nat) : bool :=
  match r with
  | Grp k r1 => Nat.eqb k n || always_binds r1 n
  | Seq r1 r2 => always_binds r1 n || always_binds r2 n
  | Alt r1 r2 => always_binds r1 n && always_binds r2 n
  | _ => false
  end.

(** The patterns that group [n] encloses in [r]. *)
Fixpoint groups_of (r : regex) (n : nat) : list regex :=
  match r with
  | Grp k r1 => (if Nat.eqb k n then [r1] else []) ++ groups_of r1 n
  | Seq r1 r2 | Alt r1 r2 => groups_of r1 n ++ groups_of r2 n
  | Star r1 => groups_of r1 n
  | _ => []
  end.


(** [d] is a part of [t]: it occurs in it, as it is. *)
Definition part_of (d t : text) : Prop := ∃ a b, t = a ++ d ++ b.

(** The least and the greatest number of characters a match of [r] can
    cover; no greatest number under a star. *)
Fixpoint min_len (r : regex) : nat :=
  match r with
  | Eps | WordB | Star _ => 0
  | Chr _ | Cls _ => 1
  | Seq r1 r2 => min_len r1 + min_len r2
  | Alt r1 r2 => Nat.min (min_len r1) (min_len r2)
  | Grp _ r1 => min_len r1
  end.

Fixpoint max_len (r : regex) : option nat :=
  match r with
  | Eps | WordB => Some 0
  | Star _ => None
  | Chr _ | Cls _ => Some 1
  | Seq r1 r2 =>
      match max_len r1, max_len r2 with
      | Some a, Some b => Some (a + b)
      | _, _ => None
      end
  | Alt r1 r2 =>
      match max_len r1, max_len r2 with
      | Some a, Some b => Some (Nat.max a b)
      | _, _ => None
      end
  | Grp _ r1 => max_len r1
  end.

(** The 256 characters, and a test that holds of all of them. *)
Definition all_chars : list ascii := map ascii_of_nat (seq 0 256).
Definition everywhere (p : ascii → bool) : bool := forallb p all_chars.

(** A number of characters with [P] that every case-sensitive match of
    [r] holds. *)
Fixpoint min_count (P : ascii → bool) (r : regex) : nat :=
  match r with
  | Eps | WordB | Star _ => 0
  | Chr a => if P a then 1 else 0
  | Cls p => if everywhere (fun c => implb (p c) (P c)) then 1 else 0
  | Seq r1 r2 => min_count P r1 + min_count P r2
  | Alt r1 r2 => Nat.min (min_count P r1) (min_count P r2)
  | Grp _ r1 => min_count P r1
  end.

(** The number of digits of a text. *)
Definition digits_in (s : text) : nat := length (List.filter is_digit s).

(** The seven keys of the company data. *)
Definition company_keys : gset string :=
  list_to_set ["companyName"; "address"; "email"; "phone"; "website";
               "supplierType"; "description"].

(** The literal words of [skip_patterns], and its one pattern that is not
    a literal: [page\s+\d+]. *)
Definition skip_words : list string :=
  ["catalog"; "specification"; "description"; "feature"; "benefit";
   "contact"; "phone"; "email"; "address"; "www."; "http"; ".com"].
Definition page_number_re : regex :=
  Seq (Str "page") (Seq (Plus space) (Plus digit)).

(** The words of [product_indicators]. *)
Definition indicator_words : list string :=
  ["bottle"; "jar"; "container"; "cap"; "closure"; "tube";
   "pump"; "dispenser"; "packaging"; "ml"; "oz"; "gram"].


(** The fourteen keys of a product record of the crawlers. *)
Definition product_keys : gset string :=
  list_to_set ["productName"; "description"; "materialType"; "weight";
               "weightUnit"; "capacity"; "capacityUnit"; "color"; "dimensions";
               "recycledContent"; "sku"; "productImage"; "additionalImages";
               "sourceUrl"].

(** The endings of the address of an image. *)
Definition image_extensions : list string :=
  [".jpg"; ".jpeg"; ".png"; ".webp"; ".gif"].

(** The keys a company page can write. *)
Definition page_keys : list string := ["email"; "address"; "phone"; "description"].

(** The four keys [extract_specs_from_text] can write. *)
Definition text_spec_keys : list string :=
  ["weight"; "weight_unit"; "capacity"; "capacity_unit"].

(** The dimensions a page can give, and a dictionary of dimensions: each
    key one of the three, each value [None] or a number not below zero. *)
Definition dimension_names : list string := ["height"; "width"; "diameter"].
Definition dimensions_ok (d : dict) : Prop :=
  ∀ k x, d !! k = Some x →
         In k dimension_names ∧ (x = PNone ∨ ∃ q, x = PFloat q ∧ (0 <= q)%Q).
Definition dims_ok (specs : BulkCrawler.record) : Prop :=
  ∀ v, specs !! "dimensions" = Some v → ∃ d, v = BulkCrawler.Dims d ∧ dimensions_ok d.

(** A text that does not begin with white space. *)
Definition no_lead (s : text) : Prop :=
  match s with [] => True | c :: _ => is_space c = false end.

(** Names written in lower case, none empty. *)
Definition plain_names (names : list string) : Prop :=
  Forall (fun u => txt u ≠ [] ∧ lower (txt u) = txt u) names.

(** The keys [extract_specs_from_text] can write leave the name alone, and
    its recycled content is an integer from 0 up. *)
Definition spec_keys (specs : dict) : Prop :=
  specs !! "productName" = None ∧ recycled_int specs.

(** Two crawlers that agree on what the frontier reads. *)
Definition same_site (s1 s2 : SimpleCrawler.state) : Prop :=
  SimpleCrawler.start_url s1 = SimpleCrawler.start_url s2
  ∧ SimpleCrawler.base_domain s1 = SimpleCrawler.base_domain s2.

(** The three fills of a company page. *)
Definition fills (email address phone : option text) (d : dict) : dict :=
  SimpleCrawler.fill "phone" phone
    (SimpleCrawler.fill "address" address (SimpleCrawler.fill "email" email d)).

End Spec.

(* ================================================================== *)
(** * Sample inputs *)
(* ================================================================== *)

Module Demo.
Import Text Regex Dom.

(** ** A small site *)

Fixpoint after_slashes (s : text) : text :=
  match s with
  | [] => []
  | c :: s' =>
      match s' with
      | d :: s'' =>
          if Ascii.eqb c "/" && Ascii.eqb d "/" then s'' else after_slashes s'
      | [] => []
      end
  end.

(** [urlparse(url).netloc] on a URL of the form [scheme://host/path]. *)
Definition host_of (url : text) : exc text :=
  Ok (take_while (fun c => negb (Ascii.eqb c "/")) (after_slashes url)).

Definition empty_soup : Soup :=
  {| select := fun _ => Ok []; find_all := fun _ => []; tables := [];
     dls := []; text_nodes := []; get_text := [] |}.

Definition link (href : string) : Element :=
  {| attrs := {[ "href" := txt href ]}; el_text := []; el_text_strip := [] |}.

Definition heading (t : string) : Element :=
  {| attrs := ∅; el_text := txt t; el_text_strip := txt t |}.

Definition catalog_url : text := txt "http://shop.test/products".
Definition jar_url : text := txt "http://shop.test/product/jar".
Definition jar_copy_url : text := txt "http://shop.test/product/jar-copy".

(** The catalogue page links to itself and to two product pages. *)
Definition catalog_page : Soup :=
  {| select := fun selector =>
       if String.eqb selector "a[href*=product]"
       then Ok [ link "http://shop.test/products";
                 link "http://shop.test/product/jar";
                 link "http://shop.test/product/jar-copy" ]
       else Ok [];
     find_all := fun _ => []; tables := []; dls := []; text_nodes := [];
     get_text := [] |}.

(** Both product pages are headed Glass Jar. *)
Definition jar_page : Soup :=
  {| select := fun selector =>
       if String.eqb selector "h1" then Ok [heading "Glass Jar"] else Ok [];
     find_all := fun _ => []; tables := []; dls := []; text_nodes := [];
     get_text := [] |}.

(** The links of the site are absolute, so [urljoin] returns them. *)
Definition shop : World :=
  {| urljoin := fun _ href => Ok href;
     netloc := host_of;
     http_get := fun _ u =>
       if bool_decide (u = catalog_url) then Ok catalog_page
       else if bool_decide (u = jar_url) then Ok jar_page
       else if bool_decide (u = jar_copy_url) then Ok jar_page
       else Raise (txt "404 Client Error");
     list_set := remove_dups |}.

(** A crawler for the site, as [SimpleWebCrawler(catalog_url)] builds it,
    and its crawl. *)
Definition shop_crawler : SimpleCrawler.state :=
  {| SimpleCrawler.start_url := catalog_url;
     SimpleCrawler.base_domain := txt "shop.test";
     SimpleCrawler.company_data := ∅; SimpleCrawler.products_data := [];
     SimpleCrawler.visited_urls := ∅; SimpleCrawler.requested := [];
     SimpleCrawler.stderr := [] |}.

Definition shop_crawl : envelope * SimpleCrawler.state :=
  SimpleCrawler.crawl_supplier_catalog shop shop_crawler.

Definition some_cell (s : string) : PdfExtractor.cell := Some (txt s).

(** A one-page catalogue whose table lists one jar twice, in two
    spellings, and gives it a recycled content of 150 %. *)
Definition jar_table : list (list PdfExtractor.cell) :=
  [ [some_cell "Name"; some_cell "Material"; some_cell "Recycled"];
    [some_cell "Glass Jar"; some_cell "Glass"; some_cell "150 %"];
    [some_cell " GLASS JAR "; some_cell "Flint glass"; None] ].

Definition jar_catalog : list PdfExtractor.Page :=
  [ {| PdfExtractor.extract_text := Ok None;
       PdfExtractor.extract_tables := Ok [jar_table] |} ].

Definition jar_records : list dict :=
  match PdfExtractor.extract_steps (Ok jar_catalog) PdfExtractor.init with
  | Ok self => PdfExtractor.products_data self
  | Raise _ => []
  end.

(** A response whose only product link leaves the site. *)
Definition offsite_response : BulkCrawler.Response :=
  {| BulkCrawler.url := txt "http://shop.test/";
     BulkCrawler.soup :=
       {| select := fun selector =>
            if String.eqb selector "a[href*=product]"
            then Ok [link "http://elsewhere.test/product/1"] else Ok [];
          find_all := fun _ => []; tables := []; dls := []; text_nodes := [];
          get_text := [] |};
     BulkCrawler.css_company_links := [];
     BulkCrawler.follow := Ok |}.

Definition new_spider : BulkCrawler.state :=
  {| BulkCrawler.base_domain := txt "shop.test"; BulkCrawler.company_data := ∅;
     BulkCrawler.products_data := []; BulkCrawler.visited_product_urls := ∅ |}.

(** A start URL that [urlparse] rejects with a [ValueError], in a world
    that is otherwise the shop. *)
Definition bracket_url : text := txt "http://[bad".
Definition bracket_world : World :=
  {| urljoin := urljoin shop;
     netloc := fun u => if bool_decide (u = bracket_url)
                        then Raise (txt "Invalid IPv6 URL") else netloc shop u;
     http_get := http_get shop;
     list_set := list_set shop |}.

(** A home page with an e-mail address and no description, and a contact
    page with another address, a telephone number and a description of more
    than 100 characters in its first paragraph. *)
Definition acme_home : Soup :=
  {| select := fun _ => Ok []; find_all := fun _ => []; tables := [];
     dls := []; text_nodes := [];
     get_text := txt "Acme Packaging Ltd - write to info@acme.test" |}.

Definition acme_story : text :=
  txt "Acme Packaging has made glass jars and bottles since 1952 for food and cosmetics brands across Europe.".

Definition acme_contact : Soup :=
  {| select := fun _ => Ok [];
     find_all := fun tag =>
       if String.eqb tag "p"
       then [ {| attrs := ∅; el_text := acme_story; el_text_strip := acme_story |} ]
       else [];
     tables := []; dls := []; text_nodes := [];
     get_text := txt "Sales: sales@acme.test, tel. 020 555 0199" |}.

Definition acme_url : text := txt "http://acme.test/".
Definition acme_contact_url : text := txt "http://acme.test/contact".

Definition acme : World :=
  {| urljoin := fun _ href => Ok href;
     netloc := host_of;
     http_get := fun _ u =>
       if bool_decide (u = acme_url) then Ok acme_home
       else if bool_decide (u = acme_contact_url) then Ok acme_contact
       else Raise (txt "404 Client Error");
     list_set := remove_dups |}.

Definition acme_crawler : SimpleCrawler.state :=
  {| SimpleCrawler.start_url := acme_url;
     SimpleCrawler.base_domain := txt "acme.test";
     SimpleCrawler.company_data := ∅; SimpleCrawler.products_data := [];
     SimpleCrawler.visited_urls := ∅; SimpleCrawler.requested := [];
     SimpleCrawler.stderr := [] |}.

(** The crawler after the profile is taken from the home page. *)
Definition acme_profiled : SimpleCrawler.state :=
  match SimpleCrawler.extract_company_profile acme acme_home acme_url acme_crawler with
  | Ok self => self
  | Raise _ => acme_crawler
  end.

(** The foot of a page of a catalogue. *)
Definition contact_block : text :=
  txt "Acme Packaging Ltd, 12 Mill Lane, Springfield 12345. Mail sales@acme.test or call +1 555-123-4567. See WWW.ACME.TEST".

(** A section of a catalogue: a name, a paragraph, and a line of figures. *)
Definition jar_section : text :=
  txt "Glass jar 250 ml" ++ [newline; newline]
  ++ txt "A clear glass jar with a wide mouth, made for jams and honey."
  ++ [newline; newline]
  ++ txt "Material: flint glass, Weight: 180 g, Capacity: 250 ML".

(** A record with a name and nothing else. *)
Definition named_record (name : string) : dict := <["productName" := PStr (txt name)]> ∅.

Definition image (src : string) : Element :=
  {| attrs := {[ "src" := txt src ]}; el_text := []; el_text_strip := [] |}.

(** A product page with a heading, a table of two rows, a line of text and
    three image elements, two of them with the same address. *)
Definition bottle_page : Soup :=
  {| select := fun selector =>
       if String.eqb selector "h1" then Ok [heading "Amber Bottle"]
       else if String.eqb selector ".product-image img"
       then Ok [image "http://shop.test/img/a.JPG"; image "http://shop.test/img/b.png";
                image "http://shop.test/img/a.JPG"; image "http://shop.test/img/c.svg"]
       else Ok [];
     find_all := fun _ => [];
     tables := [[[heading "Weight"; heading "120 g"];
                 [heading "Material"; heading "Glass"]]];
     dls := []; text_nodes := [];
     get_text := txt "Amber Bottle Weight 120 g Material Glass holds 500 ml or 0.5 kg of syrup" |}.

Definition bottle_url : text := txt "http://shop.test/product/bottle".

(** A crawler that has a company name and a short description. *)
Definition described_crawler : SimpleCrawler.state :=
  {| SimpleCrawler.start_url := catalog_url;
     SimpleCrawler.base_domain := txt "shop.test";
     SimpleCrawler.company_data :=
       <["description" := PStr (txt "Jars.")]> (<["companyName" := PStr (txt "Shop")]> ∅);
     SimpleCrawler.products_data := [];
     SimpleCrawler.visited_urls := ∅; SimpleCrawler.requested := [];
     SimpleCrawler.stderr := [] |}.

(** The answer to the request for the page of the bottle. *)
Definition bottle_response : BulkCrawler.Response :=
  {| BulkCrawler.url := bottle_url; BulkCrawler.soup := bottle_page;
     BulkCrawler.css_company_links := [];
     BulkCrawler.follow := Ok |}.

Definition acme_window : text :=
  txt "ACME PACKAGING" ++ [newline] ++ txt "Acme Packaging Ltd".

End Demo.

(* ================================================================== *)
(** * Lemmas *)
(* ================================================================== *)

Module TextFacts.
Import Text Spec.

Lemma take_drop_while p s : take_while p s ++ drop_while p s = s.
Proof. induction s as [|c s IH]; simpl; [done|]. destruct (p c); simpl; congruence. Qed.

Lemma take_while_all p s : forallb p (take_while p s) = true.
Proof. induction s as [|c s IH]; simpl; [done|]. destruct (p c) eqn:E; simpl; [by rewrite E|done]. Qed.

Lemma drop_while_no_lead s : no_lead (drop_while is_space s).
Proof. induction s as [|c s IH]; simpl; [done|]. destruct (is_space c) eqn:E; simpl; done. Qed.

Lemma drop_while_id s : no_lead s → drop_while is_space s = s.
Proof. destruct s as [|c s]; simpl; [done|]. by intros ->. Qed.

Lemma no_lead_prefix u v : no_lead (u ++ v) → u ≠ [] → no_lead u.
Proof. destruct u; simpl; done. Qed.

Lemma rstrip_no_lead t : no_lead t → no_lead (rev (drop_while is_space (rev t))).
Proof.
  intros Ht.
  pose proof (take_drop_while is_space (rev t)) as E.
  apply (f_equal (@rev ascii)) in E. rewrite rev_app_distr, rev_involutive in E.
  destruct (rev (drop_while is_space (rev t))) as [|c u] eqn:Eu; [done|].
  rewrite <- E in Ht. simpl in Ht. done.
Qed.

Lemma strip_no_lead s : no_lead (strip s).
Proof. apply rstrip_no_lead, drop_while_no_lead. Qed.

Lemma strip_no_trail s : no_lead (rev (strip s)).
Proof. unfold strip. rewrite rev_involutive. apply drop_while_no_lead. Qed.

(** [strip] leaves alone a text with no white space at either end. *)
Lemma strip_id s : no_lead s → no_lead (rev s) → strip s = s.
Proof.
  intros H1 H2. unfold strip, lstrip.
  rewrite (drop_while_id s H1), (drop_while_id _ H2). apply rev_involutive.
Qed.

Lemma strip_idem s : strip (strip s) = strip s.
Proof. apply strip_id; [apply strip_no_lead | apply strip_no_trail]. Qed.

Lemma lower_length s : length (lower s) = length s.
Proof. apply length_map. Qed.

Lemma lower_nil s : lower s = [] ↔ s = [].
Proof. destruct s; simpl; split; done. Qed.

(** Case analysis on a character: 256 closed cases. *)
Ltac by_char c := destruct c as [[] [] [] [] [] [] [] []]; vm_compute; try reflexivity; try discriminate.

Lemma digit_not_space c : is_digit c = true → is_space c = false.
Proof. by_char c. Qed.

Lemma digit_lower c : is_digit (lower_char c) = is_digit c.
Proof. by_char c. Qed.
Lemma digit_upper c : is_digit (upper_char c) = is_digit c.
Proof. by_char c. Qed.
Lemma space_lower c : is_space (lower_char c) = is_space c.
Proof. by_char c. Qed.
Lemma space_upper c : is_space (upper_char c) = is_space c.
Proof. by_char c. Qed.

Lemma digit_val_nonneg c : (0 <= digit_val c)%Z.
Proof. unfold digit_val. lia. Qed.

Lemma digits_val_from_nonneg s acc :
  (0 <= acc)%Z → (0 <= fold_left (fun a c => (10 * a + digit_val c)%Z) s acc)%Z.
Proof.
  revert acc. induction s as [|c s IH]; simpl; intros acc H; [done|].
  apply IH. pose proof (digit_val_nonneg c). lia.
Qed.

Lemma digits_val_nonneg s : (0 <= digits_val s)%Z.
Proof. by apply digits_val_from_nonneg. Qed.

Lemma all_digits_forall s : all_digits s = true → forallb is_digit s = true ∧ s ≠ [].
Proof. destruct s; simpl; [done|]. intros H; split; done. Qed.

Lemma all_digits_intro s : forallb is_digit s = true → s ≠ [] → all_digits s = true.
Proof. destruct s; simpl; done. Qed.

Lemma take_while_forall p s : forallb p s = true → take_while p s = s.
Proof. induction s as [|c s IH]; simpl; [done|]. intros [-> H]%andb_true_iff. by rewrite IH. Qed.

Lemma drop_while_forall p s : forallb p s = true → drop_while p s = [].
Proof. induction s as [|c s IH]; simpl; [done|]. intros [-> H]%andb_true_iff. by rewrite IH. Qed.

Lemma take_while_app p s c t :
  forallb p s = true → p c = false → take_while p (s ++ c :: t) = s.
Proof. induction s as [|x s IH]; simpl; [by intros _ ->|]. intros [-> H]%andb_true_iff Hc. by rewrite IH. Qed.

Lemma drop_while_app p s c t :
  forallb p s = true → p c = false → drop_while p (s ++ c :: t) = c :: t.
Proof. induction s as [|x s IH]; simpl; [by intros _ ->|]. intros [-> H]%andb_true_iff Hc. by rewrite IH. Qed.

(** [int] accepts a run of digits, and the value is not negative. *)
Lemma py_int_digits s : all_digits s = true → ∃ n, py_int s = Ok n ∧ (0 <= n)%Z.
Proof. intros H. unfold py_int. rewrite H. eexists; split; [done|apply digits_val_nonneg]. Qed.

(** [float] accepts [digits] and [digits.digits]. *)
Lemma py_float_int s : all_digits s = true → ∃ q, py_float s = Ok q ∧ (0 <= q)%Q.
Proof.
  intros H. destruct (all_digits_forall _ H) as [Hf Hn]. unfold py_float.
  rewrite (drop_while_forall _ _ Hf), (take_while_forall _ _ Hf), H.
  eexists; split; [done|]. unfold Qle; simpl. pose proof (digits_val_nonneg s). lia.
Qed.

Lemma py_float_frac s f :
  all_digits s = true → all_digits f = true →
  ∃ q, py_float (s ++ "."%char :: f) = Ok q ∧ (0 <= q)%Q.
Proof.
  intros H Hf'. destruct (all_digits_forall _ H) as [Hf Hn]. unfold py_float.
  rewrite (drop_while_app _ _ _ _ Hf), (take_while_app _ _ _ _ Hf) by done.
  rewrite H, Hf'. simpl. eexists; split; [done|].
  unfold Qle; simpl. pose proof (digits_val_nonneg (s ++ f)). lia.
Qed.

End TextFacts.

Module RegexFacts.
Import Text Regex TextFacts.

(** ** Inversion of [matches], constructor by constructor *)

Lemma matches_Eps ic prev s x :
  In x (matches ic Eps prev s) ↔ x = ([], [], s).
Proof. simpl. split; [intros [<-|[]]; done | intros ->; by left]. Qed.

Lemma matches_Chr ic a prev s m c rest :
  In (m, c, rest) (matches ic (Chr a) prev s) ↔
  ∃ x, s = x :: rest ∧ m = [x] ∧ c = [] ∧ chr_ok ic a x = true.
Proof.
  simpl. destruct s as [|x s']; [split; [done | by intros (? & ? & _)]|].
  destruct (chr_ok ic a x) eqn:E; simpl.
  - split; [intros [[= <- <- <-]|[]]; eauto | intros (y & [= <- <-] & -> & -> & _); by left].
  - split; [done | intros (y & [= <- <-] & _ & _ & H); congruence].
Qed.

Lemma matches_Cls ic p prev s m c rest :
  In (m, c, rest) (matches ic (Cls p) prev s) ↔
  ∃ x, s = x :: rest ∧ m = [x] ∧ c = [] ∧ cls_ok ic p x = true.
Proof.
  simpl. destruct s as [|x s']; [split; [done | by intros (? & ? & _)]|].
  destruct (cls_ok ic p x) eqn:E; simpl.
  - split; [intros [[= <- <- <-]|[]]; eauto | intros (y & [= <- <-] & -> & -> & _); by left].
  - split; [done | intros (y & [= <- <-] & _ & _ & H); congruence].
Qed.

Lemma matches_Seq ic r1 r2 prev s m c rest :
  In (m, c, rest) (matches ic (Seq r1 r2) prev s) ↔
  ∃ m1 c1 s1 m2 c2,
    In (m1, c1, s1) (matches ic r1 prev s) ∧
    In (m2, c2, rest) (matches ic r2 (last_char prev m1) s1) ∧
    m = m1 ++ m2 ∧ c = c2 ++ c1.
Proof.
  simpl. rewrite in_flat_map. split.
  - intros ([[m1 c1] s1] & H1 & H2). apply in_map_iff in H2 as ([[m2 c2] s2] & E & H2).
    simpl in E. injection E as <- <- <-. by exists m1, c1, s1, m2, c2.
  - intros (m1 & c1 & s1 & m2 & c2 & H1 & H2 & -> & ->).
    exists (m1, c1, s1). split; [done|]. apply in_map_iff. by exists (m2, c2, rest).
Qed.

Lemma matches_Alt ic r1 r2 prev s x :
  In x (matches ic (Alt r1 r2) prev s) ↔
  In x (matches ic r1 prev s) ∨ In x (matches ic r2 prev s).
Proof. simpl. apply in_app_iff. Qed.

Lemma matches_Grp ic n r prev s m c rest :
  In (m, c, rest) (matches ic (Grp n r) prev s) ↔
  ∃ c', In (m, c', rest) (matches ic r prev s) ∧ c = (n, m) :: c'.
Proof.
  simpl. rewrite in_map_iff. split.
  - intros ([[m' c'] s'] & [= <- <- <-] & H). eauto.
  - intros (c' & H & ->). by exists (m, c', rest).
Qed.

Lemma matches_WordB ic prev s x :
  In x (matches ic WordB prev s) → x = ([], [], s).
Proof. simpl. destruct (at_boundary _ _); [intros [<-|[]]; done | done]. Qed.

Lemma star_loop_inv step fuel prev s m c rest :
  In (m, c, rest) (star_loop step fuel prev s) →
  (m = [] ∧ c = [] ∧ rest = s) ∨
  ∃ fuel' m1 c1 s1 m2 c2,
    fuel = S fuel' ∧ In (m1, c1, s1) (step prev s) ∧ m1 ≠ [] ∧
    In (m2, c2, rest) (star_loop step fuel' (last_char prev m1) s1) ∧
    m = m1 ++ m2 ∧ c = c2 ++ c1.
Proof.
  destruct fuel as [|fuel']; simpl.
  - intros [[= <- <- <-]|[]]. by left.
  - rewrite in_app_iff, in_flat_map. intros [([[m1 c1] s1] & H1 & H2)|[[= <- <- <-]|[]]]; [|by left].
    destruct m1 as [|x m1]; [done|]. apply in_map_iff in H2 as ([[m2 c2] s2] & E & H2).
    simpl in E. injection E as <- <- <-. right. exists fuel', (x :: m1), c1, s1, m2, c2. done.
Qed.

Lemma matches_Opt ic r prev s x :
  In x (matches ic (Opt r) prev s) ↔ In x (matches ic r prev s) ∨ x = ([], [], s).
Proof. unfold Opt. rewrite matches_Alt, matches_Eps. done. Qed.

(** ** What a match consumes *)

Lemma star_loop_app step fuel :
  (∀ prev s m c rest, In (m, c, rest) (step prev s) → s = m ++ rest) →
  ∀ prev s m c rest, In (m, c, rest) (star_loop step fuel prev s) → s = m ++ rest.
Proof.
  intros Hstep. induction fuel as [|fuel IH]; intros prev s m c rest H;
    apply star_loop_inv in H as [(-> & _ & ->)|(f' & m1 & c1 & s1 & m2 & c2 & E & H1 & _ & H2 & -> & _)];
    try done.
  injection E as <-. apply Hstep in H1 as ->. apply IH in H2 as ->. by rewrite app_assoc.
Qed.

(** A match consumes a prefix of the text and leaves the rest. *)
Lemma matches_app ic r : ∀ prev s m c rest,
  In (m, c, rest) (matches ic r prev s) → s = m ++ rest.
Proof.
  induction r as [|a|p|r1 IH1 r2 IH2|r1 IH1 r2 IH2|r IH|n r IH|]; intros prev s m c rest H.
  - apply matches_Eps in H. by injection H as -> -> ->.
  - apply matches_Chr in H as (x & -> & -> & _). done.
  - apply matches_Cls in H as (x & -> & -> & _). done.
  - apply matches_Seq in H as (m1 & c1 & s1 & m2 & c2 & H1 & H2 & -> & _).
    apply IH1 in H1 as ->. apply IH2 in H2 as ->. by rewrite app_assoc.
  - apply matches_Alt in H as [H|H]; eauto.
  - simpl in H. eapply star_loop_app; eauto.
  - apply matches_Grp in H as (c' & H & _). eauto.
  - apply matches_WordB in H. by injection H as -> -> ->.
Qed.

(** A pattern that is not nullable consumes at least one character. *)
Lemma matches_nonempty ic r : nullable r = false → ∀ prev s m c rest,
  In (m, c, rest) (matches ic r prev s) → m ≠ [].
Proof.
  induction r as [|a|p|r1 IH1 r2 IH2|r1 IH1 r2 IH2|r IH|n r IH|]; simpl; intros Hn prev s m c rest H; try done.
  - change (In (m, c, rest) (matches ic (Chr a) prev s)) in H.
    apply matches_Chr in H as (x & -> & -> & _). done.
  - change (In (m, c, rest) (matches ic (Cls p) prev s)) in H.
    apply matches_Cls in H as (x & -> & -> & _). done.
  - change (In (m, c, rest) (matches ic (Seq r1 r2) prev s)) in H.
    apply matches_Seq in H as (m1 & c1 & s1 & m2 & c2 & H1 & H2 & -> & _).
    apply andb_false_iff in Hn as [Hn|Hn].
    + apply (IH1 Hn) in H1. destruct m1; done.
    + apply (IH2 Hn) in H2. destruct m1, m2; done.
  - apply orb_false_iff in Hn as [Hn1 Hn2].
    apply in_app_iff in H as [H|H]; eauto.
  - change (In (m, c, rest) (matches ic (Grp n r) prev s)) in H.
    apply matches_Grp in H as (c' & H & _). eauto.
Qed.

(** ** [re.search] *)

(** What [search] returns is a way of matching at the position it names. *)
Lemma search_from_In ic r : ∀ s prev x,
  search_from ic r prev s = Some x →
  s = m_before x ++ m_text x ++ m_after x ∧
  ∃ prev', In (m_text x, m_caps x, m_after x)
              (matches ic r prev' (m_text x ++ m_after x)).
Proof.
  induction s as [|a s IH]; intros prev x; simpl.
  - destruct (matches ic r prev []) as [|[[m c] rest] tl] eqn:E; [done|].
    intros [= <-]; simpl. pose proof (matches_app ic r prev [] m c rest) as Happ.
    rewrite E in Happ. specialize (Happ (or_introl eq_refl)). split; [done|].
    exists prev. rewrite <- Happ, E. by left.
  - destruct (matches ic r prev (a :: s)) as [|[[m c] rest] tl] eqn:E.
    + destruct (search_from ic r (Some a) s) as [y|] eqn:Ey; [|done].
      intros [= <-]; simpl. destruct (IH _ _ Ey) as [E1 E2]. split; [by rewrite <- E1|done].
    + intros [= <-]; simpl. pose proof (matches_app ic r prev (a :: s) m c rest) as Happ.
      rewrite E in Happ. specialize (Happ (or_introl eq_refl)). split; [done|].
      exists prev. rewrite <- Happ, E. by left.
Qed.

Lemma search_In ic r s x :
  search ic r s = Some x →
  s = m_before x ++ m_text x ++ m_after x ∧
  ∃ prev', In (m_text x, m_caps x, m_after x)
              (matches ic r prev' (m_text x ++ m_after x)).
Proof. apply search_from_In. Qed.

(** The text matched by a pattern that is not nullable is not empty. *)
Lemma search_nonempty ic r s x :
  nullable r = false → search ic r s = Some x → m_text x ≠ [].
Proof.
  intros Hn H. apply search_In in H as [_ [prev' H]]. eapply matches_nonempty; eauto.
Qed.

(** A pattern that is not nullable finds nothing in the empty text. *)
Lemma search_empty ic r : nullable r = false → search ic r [] = None.
Proof.
  intros Hn. destruct (search ic r []) as [x|] eqn:E; [|done].
  pose proof (search_nonempty _ _ _ _ Hn E) as Hne.
  apply search_In in E as [E _]. destruct (m_before x), (m_text x); done.
Qed.

End RegexFacts.

Module ParserFacts.
Import Text Regex TextFacts RegexFacts.

Lemma cls_ok_digit ic c : cls_ok ic is_digit c = is_digit c.
Proof. unfold cls_ok. rewrite digit_lower, digit_upper. destruct ic, (is_digit c); done. Qed.

Lemma cls_ok_space ic c : cls_ok ic is_space c = is_space c.
Proof. unfold cls_ok. rewrite space_lower, space_upper. destruct ic, (is_space c); done. Qed.

Lemma chr_ok_dot ic x : chr_ok ic "." x = true → x = "."%char.
Proof. destruct ic; by_char x. Qed.

Lemma chr_ok_lower c x : chr_ok true c x = true → lower_char x = lower_char c.
Proof. unfold chr_ok. apply Ascii.eqb_eq. Qed.

Lemma take_while_ext p q s : (∀ c, p c = q c) → take_while p s = take_while q s.
Proof. intros H. induction s as [|c s IH]; simpl; [done|]. by rewrite H, IH. Qed.
Lemma drop_while_ext p q s : (∀ c, p c = q c) → drop_while p s = drop_while q s.
Proof. intros H. induction s as [|c s IH]; simpl; [done|]. by rewrite H, IH. Qed.

(** ** Greedy repetition of a class *)

Lemma star_loop_S step fuel prev s :
  star_loop step (S fuel) prev s =
  flat_map (fun '(m1, c1, s1) =>
              match m1 with
              | [] => []
              | _ :: _ => map (seq_res m1 c1) (star_loop step fuel (last_char prev m1) s1)
              end) (step prev s) ++ [([], [], s)].
Proof. done. Qed.

Lemma matches_Cls_cons ic p prev x s :
  matches ic (Cls p) prev (x :: s) = if cls_ok ic p x then [([x], [], s)] else [].
Proof. done. Qed.

Lemma matches_Star ic r prev s :
  matches ic (Star r) prev s = star_loop (matches ic r) (length s) prev s.
Proof. done. Qed.

Lemma matches_Seq_eq ic r1 r2 prev s :
  matches ic (Seq r1 r2) prev s =
  flat_map (fun '(m1, c1, s1) =>
              map (seq_res m1 c1) (matches ic r2 (last_char prev m1) s1))
           (matches ic r1 prev s).
Proof. done. Qed.

(** The first way a starred class matches is the longest run. *)
Lemma star_cls_head ic p : ∀ s fuel prev, length s ≤ fuel →
  ∃ tl, star_loop (matches ic (Cls p)) fuel prev s
        = (take_while (cls_ok ic p) s, [], drop_while (cls_ok ic p) s) :: tl.
Proof.
  induction s as [|x s IH]; intros fuel prev Hf.
  - destruct fuel; simpl; eauto.
  - destruct fuel as [|fuel]; [simpl in Hf; lia|]. simpl in Hf.
    rewrite star_loop_S, matches_Cls_cons.
    destruct (cls_ok ic p x) eqn:E; cbn [take_while drop_while]; rewrite E; [|simpl; eauto].
    cbn [flat_map]. destruct (IH fuel (last_char prev [x]) ltac:(lia)) as [tl ->].
    simpl. eauto.
Qed.

(** Every way a starred class matches is a run of the class. *)
Lemma star_cls_In ic p : ∀ fuel prev s m c rest,
  In (m, c, rest) (star_loop (matches ic (Cls p)) fuel prev s) →
  c = [] ∧ forallb (cls_ok ic p) m = true.
Proof.
  induction fuel as [|fuel IH]; intros prev s m c rest H;
    apply star_loop_inv in H as [(-> & -> & _)|(f' & m1 & c1 & s1 & m2 & c2 & E & H1 & _ & H2 & -> & ->)];
    try done.
  injection E as <-. apply matches_Cls in H1 as (x & -> & -> & -> & Hx).
  apply IH in H2 as [-> H2]. simpl. by rewrite Hx, H2.
Qed.

Lemma plus_cls_In ic p prev s m c rest :
  In (m, c, rest) (matches ic (Plus (Cls p)) prev s) →
  c = [] ∧ forallb (cls_ok ic p) m = true ∧ m ≠ [].
Proof.
  unfold Plus. intros H. apply matches_Seq in H as (m1 & c1 & s1 & m2 & c2 & H1 & H2 & -> & ->).
  apply matches_Cls in H1 as (x & -> & -> & -> & Hx).
  simpl in H2. apply star_cls_In in H2 as [-> H2]. simpl. by rewrite Hx, H2.
Qed.

Lemma plus_cls_nil ic p prev s :
  match s with x :: _ => cls_ok ic p x = false | [] => True end →
  matches ic (Plus (Cls p)) prev s = [].
Proof. destruct s as [|x s]; simpl; [done|]. by intros ->. Qed.

Lemma plus_cls_head ic p prev x s : cls_ok ic p x = true →
  ∃ tl, matches ic (Plus (Cls p)) prev (x :: s)
        = (x :: take_while (cls_ok ic p) s, [], drop_while (cls_ok ic p) s) :: tl.
Proof.
  intros Hx. unfold Plus. rewrite matches_Seq_eq, matches_Cls_cons, Hx.
  cbn [flat_map]. rewrite matches_Star.
  destruct (star_cls_head ic p s (length s) (last_char prev [x]) ltac:(lia)) as [tl ->].
  simpl. eauto.
Qed.

Lemma plus_digits_In ic prev s m c rest :
  In (m, c, rest) (matches ic (Plus digit) prev s) → c = [] ∧ all_digits m = true.
Proof.
  intros H. apply plus_cls_In in H as (-> & H & Hn). split; [done|].
  apply all_digits_intro; [|done]. rewrite <- H. clear.
  induction m as [|a m IH]; simpl; [done|]. by rewrite cls_ok_digit, IH.
Qed.

(** ** The numeric token *)

(** Every way [number] matches is [digits] or [digits.digits]. *)
Lemma number_In ic prev s m c rest :
  In (m, c, rest) (matches ic number prev s) →
  c = [] ∧
  (all_digits m = true ∨
   ∃ d1 d2, m = d1 ++ "."%char :: d2 ∧ all_digits d1 = true ∧ all_digits d2 = true).
Proof.
  unfold number. intros H.
  apply matches_Seq in H as (m1 & c1 & s1 & m2 & c2 & H1 & H2 & -> & ->).
  apply plus_digits_In in H1 as [-> H1].
  apply matches_Opt in H2. destruct H2 as [H2|H2]; [|injection H2 as -> -> ->].
  - apply matches_Seq in H2 as (m3 & c3 & s3 & m4 & c4 & H3 & H4 & -> & ->).
    apply matches_Chr in H3 as (x & _ & -> & -> & Hx). apply chr_ok_dot in Hx as ->.
    apply plus_digits_In in H4 as [-> H4]. split; [done|]. right. by exists m1, m4.
  - rewrite !app_nil_r. split; [done|by left].
Qed.

(** [float] accepts the numeric token. *)
Lemma number_float ic prev s m c rest :
  In (m, c, rest) (matches ic number prev s) → ∃ q, py_float m = Ok q ∧ (0 <= q)%Q.
Proof.
  intros H. apply number_In in H as [_ [H|(d1 & d2 & -> & H1 & H2)]].
  - by apply py_float_int.
  - by apply py_float_frac.
Qed.

Lemma seq_nil ic r1 r2 prev s :
  matches ic r1 prev s = [] → matches ic (Seq r1 r2) prev s = [].
Proof. simpl. by intros ->. Qed.

(** The first way a sequence matches, when the first way of its head can
    be continued. *)
Lemma seq_head ic r1 r2 prev s m1 c1 s1 tl1 x2 tl2 :
  matches ic r1 prev s = (m1, c1, s1) :: tl1 →
  matches ic r2 (last_char prev m1) s1 = x2 :: tl2 →
  ∃ tl, matches ic (Seq r1 r2) prev s = seq_res m1 c1 x2 :: tl.
Proof.
  intros E1 E2. rewrite matches_Seq_eq, E1. cbn [flat_map]. rewrite E2. simpl. eauto.
Qed.

Lemma opt_head ic r prev s :
  ∃ tl, matches ic (Opt r) prev s
        = match matches ic r prev s with x :: _ => x | [] => ([], [], s) end :: tl.
Proof. unfold Opt. simpl. destruct (matches ic r prev s); simpl; eauto. Qed.

Lemma grp_head ic n r prev s :
  matches ic (Grp n r) prev s =
  match matches ic r prev s with
  | (m, c, s') :: tl => (m, (n, m) :: c, s') :: map (fun '(m, c, s') => (m, (n, m) :: c, s')) tl
  | [] => []
  end.
Proof. simpl. by destruct (matches ic r prev s) as [|[[m c] s'] tl]. Qed.

(** [number] matches where a digit stands, and only there. *)
Lemma number_nil ic prev s :
  match s with x :: _ => is_digit x = false | [] => True end →
  matches ic number prev s = [].
Proof.
  intros H. unfold number. apply seq_nil, plus_cls_nil.
  destruct s; [done|]. by rewrite cls_ok_digit.
Qed.

Lemma number_some ic prev x s :
  is_digit x = true → matches ic number prev (x :: s) ≠ [].
Proof.
  intros Hx. unfold number.
  destruct (plus_cls_head ic is_digit prev x s) as [tl1 E1]; [by rewrite cls_ok_digit|].
  destruct (opt_head ic (Seq (Chr ".") (Plus digit))
              (last_char prev (x :: take_while (cls_ok ic is_digit) s))
              (drop_while (cls_ok ic is_digit) s)) as [tl2 E2].
  destruct (seq_head _ _ _ _ _ _ _ _ _ _ _ E1 E2) as [tl E].
  intros Hnil. unfold digit in *. rewrite E in Hnil. done.
Qed.

Lemma search_from_eq ic r prev s :
  search_from ic r prev s =
  match matches ic r prev s with
  | (m, c, rest) :: _ =>
      Some {| m_before := []; m_text := m; m_caps := c; m_after := rest |}
  | [] =>
      match s with
      | [] => None
      | x :: s' => shift x <$> search_from ic r (Some x) s'
      end
  end.
Proof. by destruct s. Qed.

(** No numeric token is found exactly when the text has no digit. *)
Lemma search_number_None ic : ∀ s prev,
  search_from ic number prev s = None ↔ existsb is_digit s = false.
Proof.
  induction s as [|x s IH]; intros prev; rewrite search_from_eq.
  - rewrite number_nil by done. done.
  - cbn [existsb]. destruct (is_digit x) eqn:Hx.
    + pose proof (number_some ic prev x s Hx) as Hn.
      destruct (matches ic number prev (x :: s)) as [|[[m c] rest] tl]; done.
    + rewrite number_nil by done. rewrite <- (IH (Some x)).
      destruct (search_from ic number (Some x) s); simpl; split; done.
Qed.

End ParserFacts.

Module FieldFacts.
Import Text Regex TextFacts RegexFacts ParserFacts Spec.
#[local] Arguments matches : simpl never.

Lemma Lit_cons a b u : Lit (a :: b :: u) = Seq (Chr a) (Lit (b :: u)).
Proof. done. Qed.

(** A literal matches, whatever the case, the text it spells. *)
Lemma Lit_In : ∀ u prev s m c rest,
  In (m, c, rest) (matches true (Lit u) prev s) →
  c = [] ∧ lower m = lower u ∧ startswith (lower u) (lower s) = true.
Proof.
  induction u as [|a u IH]; intros prev s m c rest H.
  - apply matches_Eps in H. by injection H as -> -> ->.
  - destruct u as [|b u].
    + apply matches_Chr in H as (x & -> & -> & -> & Hx). apply chr_ok_lower in Hx.
      simpl. rewrite Hx, Ascii.eqb_refl. done.
    + rewrite Lit_cons in H.
      apply matches_Seq in H as (m1 & c1 & s1 & m2 & c2 & H1 & H2 & -> & ->).
      apply matches_Chr in H1 as (x & -> & -> & -> & Hx). apply chr_ok_lower in Hx.
      apply IH in H2 as (-> & E & Hs). split; [done|].
      change (lower ([x] ++ m2)) with (lower_char x :: lower m2).
      change (lower (a :: b :: u)) with (lower_char a :: lower (b :: u)).
      change (startswith (lower_char a :: lower (b :: u)) (lower (x :: s1)))
        with (Ascii.eqb (lower_char a) (lower_char x)
              && startswith (lower (b :: u)) (lower s1)).
      rewrite Hx, Ascii.eqb_refl, E, Hs. done.
Qed.

Lemma Alts_In ic : ∀ rs prev s x,
  In x (matches ic (Alts rs) prev s) → ∃ r, In r rs ∧ In x (matches ic r prev s).
Proof.
  induction rs as [|r rs IH]; intros prev s x H.
  - destruct x as [[m c] rest]. apply matches_Cls in H as (? & _ & _ & _ & E).
    unfold cls_ok in E. by destruct ic.
  - destruct rs as [|r' rs].
    + exists r. split; [by left|done].
    + change (Alts (r :: r' :: rs)) with (Alt r (Alts (r' :: rs))) in H.
      apply matches_Alt in H as [H|H].
      * exists r. split; [by left|done].
      * apply IH in H as (r0 & Hr & H). exists r0. split; [by right|done].
Qed.

(** Every way a set of unit tokens matches. *)
Lemma units_In names prev s m c rest :
  In (m, c, rest) (matches true (Alts (map Str names)) prev s) →
  c = [] ∧ ∃ u, In u names ∧ lower m = lower (txt u)
                ∧ startswith (lower (txt u)) (lower s) = true.
Proof.
  intros H. apply Alts_In in H as (r & Hr & H).
  apply in_map_iff in Hr as (u & <- & Hu).
  apply Lit_In in H as (-> & E & Hs). split; [done|]. by exists u.
Qed.

Lemma lookup_group_app c1 c2 n :
  lookup_group (c1 ++ c2) n =
  match lookup_group c1 n with Some g => Some g | None => lookup_group c2 n end.
Proof.
  induction c1 as [|[k v] c1 IH]; simpl; [done|]. destruct (Nat.eqb k n); done.
Qed.

Lemma field_nil units prev s :
  matches true number prev s = [] → matches true (field_re units) prev s = [].
Proof. intros E. unfold field_re. apply seq_nil. by rewrite grp_head, E. Qed.

(** The field pattern finds its match where the numeric token stands; the
    first group is the token, and the second one is a unit of the set, bound
    only if one follows. *)
Lemma field_search_from names : plain_names names → ∀ s prev,
  match search_from true number prev s with
  | None => search_from true (field_re (Alts (map Str names))) prev s = None
  | Some m =>
      ∃ M, search_from true (field_re (Alts (map Str names))) prev s = Some M
           ∧ group M 1 = Some (m_text m)
           ∧ (follows_unit names (m_after m) = false → group M 2 = None)
           ∧ (∀ g, group M 2 = Some g → g ≠ [] ∧ In (lower g) (map txt names))
  end.
Proof.
  intros Hnames. induction s as [|x s IH]; intros prev.
  all: rewrite (search_from_eq true number), (search_from_eq true (field_re _)).
  all: destruct (matches true number prev _) as [|[[m1 c1] s1] tl1] eqn:E1.
  all: try rewrite (field_nil _ _ _ E1).
  - done.
  - shelve.
  - specialize (IH (Some x)). destruct (search_from true number (Some x) s) as [m|].
    + destruct IH as (M & -> & H1 & H2 & H3). exists (shift x M). done.
    + by rewrite IH.
  - shelve.
  Unshelve.
  all: assert (c1 = []) as -> by
    (eapply (number_In true prev _ m1 c1 s1); rewrite E1; by left).
  all: set (p1 := last_char prev m1).
  all: destruct (star_cls_head true is_space s1 (length s1) p1 ltac:(lia)) as [tlw Ew].
  all: rewrite <- matches_Star in Ew.
  all: rewrite (take_while_ext _ is_space), (drop_while_ext _ is_space) in Ew
         by apply cls_ok_space.
  all: set (ws := take_while is_space s1) in *; set (s2 := drop_while is_space s1) in *.
  all: destruct (opt_head true (Grp 2 (Alts (map Str names))) (last_char p1 ws) s2) as [tlo Eo].
  all: destruct (seq_head _ _ _ _ _ _ _ _ _ _ _ Ew Eo) as [tlt Et].
  all: assert (matches true (Grp 1 number) prev _ = (m1, [(1, m1)], s1)
               :: map (fun '(m, c, s') => (m, (1, m) :: c, s')) tl1) as Eg
         by (by rewrite grp_head, E1).
  all: destruct (seq_head _ _ _ _ _ _ _ _ _ _ _ Eg Et) as [tlf Ef].
  all: change (matches true (field_re (Alts (map Str names))) prev)
         with (matches true (Seq (Grp 1 number) (Seq (Star (Cls is_space))
                 (Opt (Grp 2 (Alts (map Str names)))))) prev).
  all: rewrite Ef; clear Ef Et Eo Ew Eg.
  all: rewrite grp_head.
  all: destruct (matches true (Alts (map Str names)) (last_char p1 ws) s2)
         as [|[[u cu] r] tlu] eqn:Eu; simpl.
  all: eexists; split; [done|]; unfold group; simpl.
  all: try (split; [done|split; [done|done]]).
  all: assert (In (u, cu, r) (matches true (Alts (map Str names)) (last_char p1 ws) s2)) as Hu
         by (rewrite Eu; by left).
  all: apply units_In in Hu as (-> & n & Hn & El & Hs).
  all: pose proof (proj1 (List.Forall_forall _ _) Hnames n Hn) as [Hne Hlow].
  all: rewrite Hlow in El, Hs.
  all: simpl; split; [done|]; split.
  all: try (intros Hf; exfalso; unfold follows_unit in Hf;
            apply not_true_iff_false in Hf; apply Hf, existsb_exists; by exists n).
  all: intros g [= <-]; split; [|rewrite El; by apply in_map].
  all: intros ->; simpl in El; by symmetry in El.
Qed.

End FieldFacts.

Module PolicyFacts.
Import Text Regex TextFacts RegexFacts ParserFacts Spec FieldFacts.
#[local] Arguments matches : simpl never.

Lemma plain_weight : plain_names weight_unit_names.
Proof. repeat constructor; done. Qed.
Lemma plain_capacity : plain_names capacity_unit_names.
Proof. repeat constructor; done. Qed.

(** What a field parser returns: the dictionary it was given, or that
    dictionary with a value that is not negative and a unit of the set. *)
Lemma field_parser_shape names vkey ukey default base value :
  plain_names names → In default names →
  field_parser (Alts (map Str names)) vkey ukey default base value = Ok base ∨
  ∃ w u, field_parser (Alts (map Str names)) vkey ukey default base value
         = Ok (<[ukey := PStr u]> (<[vkey := PFloat w]> base))
         ∧ (0 <= w)%Q ∧ In u (map txt names).
Proof.
  intros Hnames Hdef. unfold field_parser, search.
  pose proof (field_search_from names Hnames value None) as H.
  destruct (search_from true number None value) as [m|] eqn:Em.
  - destruct H as (M & -> & G1 & _ & G3). rewrite G1. right.
    apply search_from_In in Em as [_ [prev' Hin]].
    apply number_float in Hin as (q & Eq & Hq). simpl. rewrite Eq. simpl.
    exists q. eexists. split; [done|]. split; [done|].
    destruct (group M 2) as [g|] eqn:G2; simpl.
    + destruct (G3 g eq_refl) as [Hg Hin]. destruct g; [done|]. exact Hin.
    + by apply in_map.
  - rewrite H. by left.
Qed.


(** ** The percentage parsers *)

Lemma percentage_In ic n prev s m c rest :
  In (m, c, rest) (matches ic (Seq (Grp 1 n) (Seq (Star space) (Chr "%"))) prev s) →
  ∃ g c1 s1 prev', In (g, c1, s1) (matches ic n prev' (g ++ s1)) ∧ c = (1, g) :: c1.
Proof.
  intros H. apply matches_Seq in H as (m1 & c1 & s1 & m2 & c2 & H1 & H2 & -> & ->).
  apply matches_Grp in H1 as (c' & H1 & ->).
  apply matches_Seq in H2 as (m3 & c3 & s3 & m4 & c4 & H3 & H4 & -> & ->).
  apply star_cls_In in H3 as [-> _]. apply matches_Chr in H4 as (x & _ & _ & -> & _).
  pose proof (matches_app _ _ _ _ _ _ _ H1) as ->.
  exists m1, c', s1, prev. done.
Qed.

(** The percentage of the document extractor: no exception, and an integer
    that is not negative. *)
Lemma pdf_percentage t :
  ∃ o, PdfExtractor.extract_percentage t = Ok o ∧ ∀ n, o = Some n → (0 <= n)%Z.
Proof.
  unfold PdfExtractor.extract_percentage.
  destruct (search false PdfExtractor.percentage_re t) as [M|] eqn:E.
  - apply search_In in E as [_ [prev' H]].
    apply percentage_In in H as (g & c1 & s1 & p & H & Ec).
    apply plus_digits_In in H as [-> Hd]. unfold group. rewrite Ec. simpl.
    apply py_int_digits in Hd as (n & -> & Hn). simpl. eexists; split; [done|].
    by intros ? [= <-].
  - eexists; split; [done|]. done.
Qed.

(** The percentage of the simple crawler: no exception, and a number that is
    not negative. *)
Lemma web_percentage t :
  ∃ o, SimpleCrawler.extract_percentage t = Ok o ∧ ∀ q, o = Some q → (0 <= q)%Q.
Proof.
  unfold SimpleCrawler.extract_percentage.
  destruct (search false SimpleCrawler.percentage_re t) as [M|] eqn:E.
  - apply search_In in E as [_ [prev' H]].
    apply percentage_In in H as (g & c1 & s1 & p & H & Ec).
    unfold group. rewrite Ec. simpl.
    apply number_float in H as (q & -> & Hq). simpl. eexists; split; [done|].
    by intros ? [= <-].
  - eexists; split; [done|]. done.
Qed.

End PolicyFacts.

Module TableFacts.
Import Text Regex TextFacts RegexFacts ParserFacts Spec FieldFacts PolicyFacts.
Import PdfExtractor.
#[local] Arguments matches : simpl never.

Lemma parse_weight_eq value :
  parse_weight value
  = field_parser (Alts (map Str weight_unit_names)) "weight" "weightUnit" "g" ∅ value.
Proof. done. Qed.
Lemma parse_capacity_eq value :
  parse_capacity value
  = field_parser (Alts (map Str capacity_unit_names)) "capacity" "capacityUnit" "ml" ∅ value.
Proof. done. Qed.

Lemma parse_weight_shape value :
  parse_weight value = Ok ∅ ∨
  ∃ w u, parse_weight value = Ok (<["weightUnit" := PStr u]> (<["weight" := PFloat w]> ∅)).
Proof.
  rewrite parse_weight_eq.
  destruct (field_parser_shape weight_unit_names "weight" "weightUnit" "g" ∅ value
              plain_weight ltac:(by left)) as [H|(w & u & H & _)]; eauto.
Qed.
Lemma parse_capacity_shape value :
  parse_capacity value = Ok ∅ ∨
  ∃ w u, parse_capacity value = Ok (<["capacityUnit" := PStr u]> (<["capacity" := PFloat w]> ∅)).
Proof.
  rewrite parse_capacity_eq.
  destruct (field_parser_shape capacity_unit_names "capacity" "capacityUnit" "ml" ∅ value
              plain_capacity ltac:(by left)) as [H|(w & u & H & _)]; eauto.
Qed.

(** One cell: no exception; the name is written under a NAME header and
    kept otherwise; a recycled content written is a positive integer. *)
Lemma table_cell_ok h cell p :
  ∃ p', table_cell h cell p = Ok p' ∧
        p' !! "productName"
        = (if any_in name_keys h then Some (PStr (strip cell)) else p !! "productName") ∧
        (∀ v, p' !! "recycledContent" = Some v →
              p !! "recycledContent" = Some v ∨ ∃ n, v = PInt n ∧ (0 < n)%Z).
Proof.
  unfold table_cell. change ["name"; "product"; "item"; "title"] with name_keys.
  destruct (any_in name_keys h); [eexists; split; [done|]; split; [by simplify_map_eq|intros v; simplify_map_eq; eauto]|].
  repeat (match goal with
          | |- context [if ?b then _ else _] => destruct b
          end; [try (eexists; split; [done|]; split; [by simplify_map_eq|intros v; simplify_map_eq; eauto])|]).
  - destruct (parse_weight_shape cell) as [->|(w & u & ->)]; simpl;
      (eexists; split; [done|]; split;
       [rewrite lookup_union; by simplify_map_eq
       |intros v; rewrite lookup_union; simplify_map_eq; destruct (p !! "recycledContent"); eauto]).
  - destruct (parse_capacity_shape cell) as [->|(w & u & ->)]; simpl;
      (eexists; split; [done|]; split;
       [rewrite lookup_union; by simplify_map_eq
       |intros v; rewrite lookup_union; simplify_map_eq; destruct (p !! "recycledContent"); eauto]).
  - destruct (pdf_percentage cell) as (o & -> & Ho). simpl.
    destruct o as [n|]; [|eexists; split; [done|]; split; [done|eauto]].
    destruct (n =? 0)%Z eqn:En; simpl; (eexists; split; [done|]; split; [by simplify_map_eq|]).
    + eauto.
    + intros v. simplify_map_eq. intros [= <-]. right. exists n. split; [done|].
      specialize (Ho n eq_refl). apply Z.eqb_neq in En. lia.
  - eexists; split; [done|]; split; [done|eauto].
Qed.

Lemma name_cells_from_cons headers i c row :
  name_cells_from headers i (c :: row) =
  match headers !! i, c with
  | Some h, Some (x :: xs) =>
      if is_name_header h then (x :: xs) :: name_cells_from headers (S i) row
      else name_cells_from headers (S i) row
  | _, _ => name_cells_from headers (S i) row
  end.
Proof. done. Qed.

(** The loop over the cells: no exception; the name is the trimmed text of
    the last NAME cell, if there is one. *)
Lemma row_loop_ok headers : ∀ row i p,
  ∃ p', row_loop headers i row p = Ok p' ∧
        p' !! "productName"
        = match last (name_cells_from headers i row) with
          | Some c => Some (PStr (strip c))
          | None => p !! "productName"
          end ∧
        (∀ v, p' !! "recycledContent" = Some v →
              p !! "recycledContent" = Some v ∨ ∃ n, v = PInt n ∧ (0 < n)%Z).
Proof.
  induction row as [|c row IH]; intros i p.
  - exists p. simpl. eauto.
  - cbn [row_loop]. rewrite name_cells_from_cons.
    destruct (headers !! i) as [h|] eqn:Eh; [destruct c as [[|x xs]|]|].
    2:{ destruct (table_cell_ok (lower h) (x :: xs) p) as (p1 & -> & Hn & Hr). simpl.
        destruct (IH (S i) p1) as (p' & -> & Hn' & Hr'). exists p'. split; [done|].
        unfold is_name_header. split.
        - rewrite Hn', Hn. destruct (any_in name_keys (lower h)).
          + rewrite last_cons. by destruct (last (name_cells_from headers (S i) row)).
          + done.
        - intros v Hv. destruct (Hr' v Hv) as [H|H]; eauto. }
    all: simpl; destruct (IH (S i) p) as (p' & -> & Hn' & Hr'); exists p'; done.
Qed.

Lemma name_cells_nil_row headers i : name_cells_from headers i [] = [].
Proof. done. Qed.

Lemma name_cells_nil_headers : ∀ row i, name_cells_from [] i row = [].
Proof. induction row as [|c row IH]; intros i; simpl; [done|]. by rewrite IH. Qed.

(** A row: no exception; a record exactly when the last NAME cell has text
    besides white space, and then that text, trimmed, is its name. *)
Lemma table_row_ok headers row :
  ∃ o, extract_product_from_table_row headers row = Ok o ∧
       (∀ p, o = Some p →
             (∃ c, last (name_cells headers row) = Some c ∧ strip c ≠ []
                   ∧ p !! "productName" = Some (PStr (strip c)))
             ∧ ∀ v, p !! "recycledContent" = Some v → ∃ n, v = PInt n ∧ (0 < n)%Z) ∧
       (o = None → ¬ named headers row).
Proof.
  unfold extract_product_from_table_row, named, name_cells.
  destruct row as [|c row].
  { exists None. split; [done|]. split; [done|]. intros _ (c & H & _). done. }
  destruct headers as [|h headers].
  { exists None. split; [done|]. split; [done|]. intros _ (c' & H & _).
    by rewrite name_cells_nil_headers in H. }
  destruct (row_loop_ok (h :: headers) (c :: row) 0 ∅) as (p' & -> & Hn & Hr).
  remember (last (name_cells_from (h :: headers) 0 (c :: row))) as L eqn:El.
  cbn [mbind exc_bind mret exc_ret].
  unfold get. rewrite Hn.
  destruct L as [c'|].
  - destruct (strip c') as [|y ys] eqn:Es; cbn [truthy].
    + exists None. split; [done|]. split; [done|]. intros _ (c'' & [= <-] & H). done.
    + exists (Some p'). split; [done|]. split; [|done]. intros p [= <-]. split.
      * exists c'. rewrite Es. done.
      * intros v Hv. destruct (Hr v Hv) as [H|H]; [by rewrite lookup_empty in H|done].
  - rewrite lookup_empty. cbn [truthy]. exists None. split; [done|]. split; [done|].
    intros _ (c'' & H & _). done.
Qed.

End TableFacts.

Module PipelineFacts.
Import Text Regex TextFacts RegexFacts ParserFacts Spec FieldFacts PolicyFacts TableFacts.
Import PdfExtractor.
#[local] Arguments matches : simpl never.

Lemma emitted_stored headers row p : emitted headers row = Some p → stored p.
Proof.
  unfold emitted. destruct (table_row_ok headers row) as (o & -> & H & _).
  intros ->. destruct (H p eq_refl) as [(c & _ & Hc & Hn) Hr]. split.
  - exists (strip c). split; [done|]. split; [done|apply strip_idem].
  - intros v Hv. destruct (Hr v Hv) as (n & -> & Hn'). exists n. split; [done|lia].
Qed.

Lemma add_row_ok headers products row :
  add_row headers products row
  = Ok (products ++ match emitted headers row with Some p => [p] | None => [] end).
Proof.
  unfold add_row, emitted. destruct (table_row_ok headers row) as (o & E & H & _).
  rewrite E. simpl. destruct o as [p|]; [|by rewrite app_nil_r].
  destruct (H p eq_refl) as [(c & _ & Hc & Hn) _].
  unfold get. rewrite Hn. rewrite bool_decide_eq_false_2.
  - simpl. by destruct (strip c).
  - intros ->. by rewrite lookup_empty in Hn.
Qed.

Lemma add_rows_ok headers : ∀ rows products,
  add_rows headers rows products = Ok (products ++ omap (emitted headers) rows).
Proof.
  induction rows as [|row rows IH]; intros products; simpl.
  - by rewrite app_nil_r.
  - rewrite add_row_ok. simpl. rewrite IH. f_equal.
    rewrite <- app_assoc. by destruct (emitted headers row).
Qed.

(** A table never raises; it appends the records of its data rows. *)
Lemma process_product_table_ok table products :
  process_product_table table products = Ok (products ++ table_records table).
Proof.
  unfold process_product_table, table_records.
  destruct (length table <? 2)%nat; [by rewrite app_nil_r|].
  destruct (scan_table table) as [headers data_rows]. apply add_rows_ok.
Qed.

Lemma table_records_stored table : Forall stored (table_records table).
Proof.
  unfold table_records. destruct (length table <? 2)%nat; [done|].
  destruct (scan_table table) as [headers data_rows].
  apply List.Forall_forall. intros p Hp. apply list_elem_of_In in Hp.
  apply list_elem_of_omap in Hp as (row & _ & Hp). by eapply emitted_stored.
Qed.

Lemma process_tables_ok : ∀ tables products,
  process_tables tables products = Ok (products ++ flat_map table_records tables).
Proof.
  induction tables as [|t tables IH]; intros products; simpl.
  - by rewrite app_nil_r.
  - rewrite process_product_table_ok. simpl. rewrite IH. by rewrite app_assoc.
Qed.

Lemma pages_loop_stored : ∀ pages all_text products all_text' products',
  pages_loop pages all_text products = Ok (all_text', products') →
  Forall stored products → Forall stored products'.
Proof.
  induction pages as [|page pages IH]; intros all_text products all_text' products' H Hs.
  - simpl in H. by injection H as <- <-.
  - simpl in H. destruct (extract_text page) as [page_text|]; [simpl in H|done].
    destruct (extract_tables page) as [tables|]; [simpl in H|done].
    rewrite process_tables_ok in H. simpl in H. eapply IH; [exact H|].
    apply Forall_app. split; [done|].
    apply List.Forall_forall. intros p Hp. apply in_flat_map in Hp as (t & _ & Hp).
    eapply List.Forall_forall; [apply table_records_stored|exact Hp].
Qed.

End PipelineFacts.

Module TextPathFacts.
Import Text Regex TextFacts RegexFacts ParserFacts Spec FieldFacts PolicyFacts TableFacts PipelineFacts.
Import PdfExtractor.
#[local] Arguments matches : simpl never.
#[local] Arguments search : simpl never.

Lemma py_int_nonneg s n : py_int s = Ok n → (0 <= n)%Z.
Proof. unfold py_int. destruct (all_digits s); [|done]. intros [= <-]. apply digits_val_nonneg. Qed.

Lemma int_of_nonneg o n : int_of o = Ok n → (0 <= n)%Z.
Proof. destruct o; [apply py_int_nonneg|done]. Qed.

Lemma spec_keys_insert k v specs :
  k ≠ "productName" → k ≠ "recycledContent" →
  spec_keys specs → spec_keys (<[k := v]> specs).
Proof.
  intros H1 H2 [Hn Hr]. split; [by rewrite lookup_insert_ne|].
  intros x. rewrite lookup_insert_ne by done. apply Hr.
Qed.

Ltac spec_step H s E :=
  match type of H with
  | (?m ≫= _) = Ok _ => destruct m as [s|] eqn:E; [cbn [mbind exc_bind] in H | done]
  end.

Ltac spec_keep E :=
  repeat (match type of E with
          | match ?x with _ => _ end = Ok _ => destruct x; try done
          | (?m ≫= _) = Ok _ => destruct m; [cbn [mbind exc_bind] in E | done]
          end);
  injection E as <-; repeat (apply spec_keys_insert; [done|done|]); try assumption.

Lemma specs_ok t specs : extract_specs_from_text t = Ok specs → spec_keys specs.
Proof.
  unfold extract_specs_from_text. intros H.
  assert (spec_keys ∅) as H0 by (split; [done|intros v; by rewrite lookup_empty]).
  spec_step H s1 E1. assert (spec_keys s1) as H1 by spec_keep E1. clear E1 H0.
  spec_step H s2 E2. assert (spec_keys s2) as H2 by spec_keep E2. clear E2 H1.
  spec_step H s3 E3. assert (spec_keys s3) as H3 by spec_keep E3. clear E3 H2.
  spec_step H s4 E4. assert (spec_keys s4) as H4 by spec_keep E4. clear E4 H3.
  spec_step H s5 E5. assert (spec_keys s5) as H5 by spec_keep E5. clear E5 H4.
  destruct (search true recycled_re t) as [m|]; [|by injection H as <-].
  destruct (int_of (group m 1)) as [n|] eqn:En; [cbn [mbind exc_bind] in H|done].
  injection H as <-. destruct H5 as [Hn Hr]. split; [by rewrite lookup_insert_ne|].
  intros v. rewrite lookup_insert_eq. intros [= <-]. exists n. split; [done|].
  by eapply int_of_nonneg.
Qed.

(** The lines of a text, trimmed, the empty ones left out. *)
Lemma stripped_lines_In t line :
  In line (stripped_lines t) → line ≠ [] ∧ strip line = line.
Proof.
  unfold stripped_lines. intros H. apply filter_In in H as [H Hne].
  apply in_map_iff in H as (l & <- & _). split; [by destruct (strip l)|apply strip_idem].
Qed.

Lemma In_take {A} (x : A) n l : In x (take n l) → In x l.
Proof. intros H. rewrite <- (take_drop n l). apply in_or_app. by left. Qed.

(** A section gives a record that can be stored, or none. *)
Lemma text_section_stored t p :
  extract_product_from_text_section t = Ok (Some p) → stored p.
Proof.
  unfold extract_product_from_text_section.
  destruct (extract_specs_from_text t) as [specs|] eqn:Es; [|done].
  apply specs_ok in Es as [Hn Hr]. cbn [mbind exc_bind mret exc_ret].
  set (product0 := match find is_likely_product_name (take 3 (stripped_lines t)) with
                   | Some line => <["productName" := PStr line]> ∅
                   | None => ∅
                   end).
  set (product1 := specs ∪ product0).
  set (product2 := match extract_description_from_text t with
                   | Some (c :: d) => <["description" := PStr (c :: d)]> product1
                   | _ => product1
                   end).
  assert (product2 !! "productName" = product0 !! "productName") as E2.
  { unfold product2, product1.
    destruct (extract_description_from_text t) as [[|c d]|];
      rewrite ?lookup_insert_ne by done; rewrite lookup_union, Hn; by destruct (product0 !! _). }
  assert (∀ v, product2 !! "recycledContent" = Some v → specs !! "recycledContent" = Some v) as R2.
  { intros v.
    assert (product0 !! "recycledContent" = None) as E0
      by (unfold product0; destruct (find _ _); by simplify_map_eq).
    unfold product2, product1.
    destruct (extract_description_from_text t) as [[|c d]|];
      rewrite ?lookup_insert_ne by done; rewrite lookup_union, E0;
      by destruct (specs !! "recycledContent"). }
  unfold get. rewrite E2. unfold product0 at 1.
  destruct (find is_likely_product_name (take 3 (stripped_lines t))) as [line|] eqn:Ef.
  - rewrite lookup_insert_eq. apply find_some in Ef as [Hin _].
    apply In_take, stripped_lines_In in Hin as [Hne Hst].
    destruct line as [|c line]; [done|]. simpl. intros [= <-]. split.
    + exists (c :: line). split; [|done]. rewrite E2. unfold product0. by rewrite lookup_insert_eq.
    + intros v Hv. apply Hr, R2, Hv.
  - rewrite lookup_empty. done.
Qed.

Lemma add_section_stored products section products' :
  add_section products section = Ok products' →
  Forall stored products → Forall stored products'.
Proof.
  unfold add_section. intros H Hs.
  destruct (extract_product_from_text_section section) as [[p|]|] eqn:E;
    cbn [mbind exc_bind] in H; [|by injection H as <-|done].
  apply text_section_stored in E.
  destruct (negb (bool_decide (p = ∅)) && truthy (get p "productName")); [|by injection H as <-].
  destruct (lower_names products) as [names|]; [cbn [mbind exc_bind] in H|done].
  destruct (match p !! "productName" with Some v => lower_of v | None => _ end) as [name|];
    [cbn [mbind exc_bind] in H|done].
  destruct (bool_decide (name ∈ names)); injection H as <-; [done|].
  apply Forall_app. split; [done|]. by constructor.
Qed.

Lemma add_sections_stored : ∀ sections products products',
  add_sections sections products = Ok products' →
  Forall stored products → Forall stored products'.
Proof.
  induction sections as [|s sections IH]; intros products products' H Hs.
  - by injection H as <-.
  - simpl in H. destruct (add_section products s) as [p1|] eqn:E; [simpl in H|done].
    eapply IH; [exact H|]. eapply add_section_stored; eauto.
Qed.

End TextPathFacts.

Module DedupFacts.
Import Text Regex TextFacts RegexFacts ParserFacts Spec FieldFacts PolicyFacts TableFacts PipelineFacts TextPathFacts.
Import PdfExtractor.
#[local] Arguments matches : simpl never.
#[local] Arguments search : simpl never.

(** The key the deduplicator computes for a stored record is its identity. *)
Lemma stored_key p : stored p →
  lower_of (get_default p "productName" (PStr [])) = Ok (identity p) ∧ identity p ≠ [].
Proof.
  intros [(n & Hn & Hne & Hst) _]. unfold get_default, identity, name_of. rewrite Hn. simpl.
  rewrite Hst. split; [done|]. by destruct n.
Qed.

Lemma stored_has_name p : stored p → has_name p.
Proof. intros [(n & Hn & Hne & _) _]. by exists n. Qed.

(** The loop keeps the first record of every identity. *)
Lemma dedup_loop_ok : ∀ products seen unique out,
  dedup_loop products seen unique = Ok out →
  Forall stored products → Forall stored unique →
  NoDup (map identity unique) →
  (∀ k, k ∈ seen ↔ In k (map identity unique)) →
  Forall stored out ∧ NoDup (map identity out).
Proof.
  induction products as [|p products IH]; intros seen unique out H Hp Hu Hnd Hseen.
  - simpl in H. by injection H as <-.
  - apply Forall_cons in Hp as [Hp Hps]. cbn [dedup_loop] in H.
    destruct (stored_key p Hp) as [Ek Hk]. rewrite Ek in H. cbn [mbind exc_bind] in H.
    assert (match identity p with [] => false | _ :: _ => true end = true) as Et
      by (clear -Hk; by destruct (identity p)).
    rewrite Et in H. cbn [andb] in H. destruct (bool_decide (identity p ∈ seen)) eqn:Eb; cbn [negb] in H.
    + eapply IH; eauto.
    + apply bool_decide_eq_false in Eb. eapply IH; [exact H|done| | |].
      * apply Forall_app. split; [done|by constructor].
      * rewrite map_app. simpl. apply NoDup_app. split; [done|]. split.
        -- intros x Hx [<-|[]]%list_elem_of_In. apply Eb, Hseen. by apply list_elem_of_In.
        -- apply NoDup_singleton.
      * intros k'. rewrite map_app, in_app_iff, elem_of_union, elem_of_singleton, Hseen.
        simpl. split.
        -- intros [->|?]; [right; by left|by left].
        -- intros [?|[<-|[]]]; [by right|by left].
Qed.

(** [extract_product_listings] leaves stored records, no two of them with
    the same identity. *)
Lemma extract_product_listings_ok pages self self' :
  extract_product_listings pages self = Ok self' →
  Forall stored (products_data self) →
  Forall stored (products_data self') ∧ NoDup (map identity (products_data self')).
Proof.
  unfold extract_product_listings. intros H Hs.
  destruct (pages_loop pages [] (products_data self)) as [[all_text products]|] eqn:E1;
    [cbn [mbind exc_bind] in H|done].
  apply pages_loop_stored in E1; [|done].
  destruct (extract_products_from_text all_text products) as [products2|] eqn:E2;
    [cbn [mbind exc_bind] in H|done].
  apply add_sections_stored in E2; [|done].
  destruct (dedup_loop products2 ∅ []) as [unique|] eqn:E3; [cbn [mbind exc_bind] in H|done].
  injection H as <-. simpl.
  eapply dedup_loop_ok; [exact E3|done|done|constructor|].
  intros k. simpl. split; [by intros ?%not_elem_of_empty|done].
Qed.

Lemma extract_company_profile_products pages self self' :
  extract_company_profile pages self = Ok self' → products_data self' = products_data self.
Proof.
  unfold extract_company_profile. intros H.
  destruct (company_text_loop _ _); [cbn [mbind exc_bind] in H|done].
  destruct (extract_company_description _); [cbn [mbind exc_bind] in H|done].
  by injection H as <-.
Qed.

(** The records of a success envelope of the document extractor. *)
Lemma extract_all_data_products opened ps :
  extract_all_data opened init !! "productsData" = Some (EDicts ps) →
  Forall stored ps ∧ NoDup (map identity ps).
Proof.
  unfold extract_all_data, extract_steps.
  destruct opened as [pages|e]; cbn [mbind exc_bind]; [|by vm_compute].
  destruct (extract_company_profile pages init) as [self1|e] eqn:E1; cbn [mbind exc_bind];
    [|by vm_compute].
  destruct (extract_product_listings pages self1) as [self2|e] eqn:E2; [|by vm_compute].
  unfold success_envelope. rewrite lookup_insert_ne by done. rewrite lookup_insert_ne by done.
  rewrite lookup_insert_eq. intros [= <-].
  eapply extract_product_listings_ok; [exact E2|].
  rewrite (extract_company_profile_products _ _ _ E1). constructor.
Qed.

End DedupFacts.

Module WebProductFacts.
Import Text Regex Dom TextFacts RegexFacts ParserFacts Spec FieldFacts PolicyFacts.
Import SimpleCrawler.
#[local] Arguments matches : simpl never.
#[local] Arguments search : simpl never.

Lemma py_float_nonneg s q : py_float s = Ok q → (0 <= q)%Q.
Proof.
  unfold py_float. destruct (drop_while is_digit s) as [|c fp].
  - destruct (all_digits _); [|done]. intros [= <-].
    unfold Qle; simpl. pose proof (digits_val_nonneg (take_while is_digit s)). lia.
  - destruct (_ && _); [|done]. intros [= <-].
    unfold Qle; simpl. pose proof (digits_val_nonneg (take_while is_digit s ++ fp)). lia.
Qed.

Lemma float_of_nonneg o q : float_of o = Ok q → (0 <= q)%Q.
Proof. destruct o; [apply py_float_nonneg|done]. Qed.

Lemma recycled_float_insert k v specs :
  k ≠ "recycled_content" →
  recycled_float specs "recycled_content" → recycled_float (<[k := v]> specs) "recycled_content".
Proof. intros Hk H x. rewrite lookup_insert_ne by done. apply H. Qed.

Lemma web_parse_weight_eq value specs :
  parse_weight value specs
  = field_parser (Alts (map Str weight_unit_names)) "weight" "weight_unit" "g" specs value.
Proof. done. Qed.
Lemma web_parse_capacity_eq value specs :
  parse_capacity value specs
  = field_parser (Alts (map Str capacity_unit_names)) "capacity" "capacity_unit" "ml" specs value.
Proof. done. Qed.

Lemma parse_spec_value_recycled key value specs specs' :
  parse_spec_value key value specs = Ok specs' →
  recycled_float specs "recycled_content" → recycled_float specs' "recycled_content".
Proof.
  unfold parse_spec_value. intros H Hs.
  repeat match type of H with
         | (if ?b then _ else _) = _ => destruct b
         end.
  - injection H as <-. by apply recycled_float_insert.
  - rewrite web_parse_weight_eq in H.
    destruct (field_parser_shape weight_unit_names "weight" "weight_unit" "g" specs value
                plain_weight ltac:(by left)) as [E|(w & u & E & _)];
      rewrite E in H; injection H as <-; [done|].
    by do 2 (apply recycled_float_insert; [done|]).
  - rewrite web_parse_capacity_eq in H.
    destruct (field_parser_shape capacity_unit_names "capacity" "capacity_unit" "ml" specs value
                plain_capacity ltac:(by left)) as [E|(w & u & E & _)];
      rewrite E in H; injection H as <-; [done|].
    by do 2 (apply recycled_float_insert; [done|]).
  - injection H as <-. by apply recycled_float_insert.
  - injection H as <-. by apply recycled_float_insert.
  - destruct (web_percentage value) as (o & E & Ho). rewrite E in H. simpl in H.
    injection H as <-. intros v. rewrite lookup_insert_eq. intros [= <-].
    destruct o as [q|]; [right|by left]. exists q. split; [done|by apply Ho].
  - by injection H as <-.
Qed.

Lemma rows_loop_recycled : ∀ rows specs specs',
  rows_loop rows specs = Ok specs' →
  recycled_float specs "recycled_content" → recycled_float specs' "recycled_content".
Proof.
  induction rows as [|cells rows IH]; intros specs specs' H Hs; simpl in H.
  - by injection H as <-.
  - destruct cells as [|k [|v cells]]; simpl in H; eauto.
    destruct (parse_spec_value _ _ specs) as [s1|] eqn:E; [simpl in H|done].
    eapply IH; [exact H|]. eapply parse_spec_value_recycled; eauto.
Qed.

Lemma tables_loop_recycled : ∀ ts specs specs',
  tables_loop ts specs = Ok specs' →
  recycled_float specs "recycled_content" → recycled_float specs' "recycled_content".
Proof.
  induction ts as [|rows ts IH]; intros specs specs' H Hs; simpl in H.
  - by injection H as <-.
  - destruct (rows_loop rows specs) as [s1|] eqn:E; [simpl in H|done].
    eapply IH; [exact H|]. eapply rows_loop_recycled; eauto.
Qed.

Lemma terms_loop_recycled : ∀ terms values specs specs',
  terms_loop terms values specs = Ok specs' →
  recycled_float specs "recycled_content" → recycled_float specs' "recycled_content".
Proof.
  induction terms as [|term terms IH]; intros values specs specs' H Hs; simpl in H.
  - by injection H as <-.
  - destruct values as [|value values]; [by injection H as <-|].
    destruct (parse_spec_value _ _ specs) as [s1|] eqn:E; [simpl in H|done].
    eapply IH; [exact H|]. eapply parse_spec_value_recycled; eauto.
Qed.

Lemma dls_loop_recycled : ∀ ds specs specs',
  dls_loop ds specs = Ok specs' →
  recycled_float specs "recycled_content" → recycled_float specs' "recycled_content".
Proof.
  induction ds as [|[terms values] ds IH]; intros specs specs' H Hs; simpl in H.
  - by injection H as <-.
  - destruct (terms_loop terms values specs) as [s1|] eqn:E; [simpl in H|done].
    eapply IH; [exact H|]. eapply terms_loop_recycled; eauto.
Qed.

Lemma specs_from_text_recycled t specs specs' :
  extract_specs_from_text t specs = Ok specs' →
  recycled_float specs "recycled_content" → recycled_float specs' "recycled_content".
Proof.
  unfold extract_specs_from_text. intros H Hs.
  match type of H with (?m ≫= _) = _ => destruct m as [s1|] eqn:E1; [cbn [mbind exc_bind] in H|done] end.
  assert (recycled_float s1 "recycled_content") as H1.
  { cbv [mret exc_ret] in E1.
    destruct (search true weight_text_re t); [|by injection E1 as <-].
    destruct (bool_decide (is_Some (specs !! "weight"))); [by injection E1 as <-|].
    destruct (float_of _); [cbn [mbind exc_bind] in E1|done].
    destruct (PdfExtractor.str_of _); [cbn [mbind exc_bind] in E1|done].
    injection E1 as <-. by do 2 (apply recycled_float_insert; [done|]). }
  cbv [mret exc_ret] in H.
  destruct (search true capacity_text_re t); [|by injection H as <-].
  destruct (bool_decide (is_Some (s1 !! "capacity"))); [by injection H as <-|].
  destruct (float_of _); [cbn [mbind exc_bind] in H|done].
  destruct (PdfExtractor.str_of _); [cbn [mbind exc_bind] in H|done].
  injection H as <-. by do 2 (apply recycled_float_insert; [done|]).
Qed.

Lemma extract_specifications_recycled soup specs :
  extract_specifications soup = Ok specs → recycled_float specs "recycled_content".
Proof.
  unfold extract_specifications. intros H.
  destruct (tables_loop (tables soup) ∅) as [s1|] eqn:E1; [cbn [mbind exc_bind] in H|done].
  destruct (dls_loop (dls soup) s1) as [s2|] eqn:E2; [cbn [mbind exc_bind] in H|done].
  eapply specs_from_text_recycled; [exact H|].
  eapply dls_loop_recycled; [exact E2|].
  eapply tables_loop_recycled; [exact E1|].
  intros v. by rewrite lookup_empty.
Qed.

(** A name found by selectors is longer than two characters. *)
Lemma extract_by_selectors_len soup : ∀ selectors t,
  extract_by_selectors soup selectors = Some t → 2 < length t.
Proof.
  induction selectors as [|sel selectors IH]; intros t; simpl; [done|].
  destruct (select_one soup sel) as [[el|]|]; eauto.
  destruct (2 <? length (el_text_strip el))%nat eqn:E; eauto.
  intros [= <-]. by apply Nat.ltb_lt.
Qed.

(** The record of a product page: a name that is not empty, and a recycled
    content that is [None] or a number from 0 up. *)
Lemma extract_product_data_ok W soup url p :
  extract_product_data W soup url = Ok (Some p) →
  has_name p ∧ recycled_float p "recycledContent".
Proof.
  unfold extract_product_data.
  destruct (extract_by_selectors soup name_selectors) as [n|] eqn:En; [|done].
  apply extract_by_selectors_len in En.
  destruct (extract_specifications soup) as [specs|] eqn:Es; [|done].
  apply extract_specifications_recycled in Es.
  cbn [mbind exc_bind mret exc_ret]. intros [= <-]. split.
  - exists n. rewrite lookup_insert_eq. split; [done|]. destruct n; [simpl in En; lia|done].
  - intros v. do 9 (rewrite lookup_insert_ne by done). rewrite lookup_insert_eq.
    intros [= <-]. unfold get. destruct (specs !! "recycled_content") as [x|] eqn:Ex; [|by left].
    by apply Es.
Qed.

End WebProductFacts.

Module CrawlFacts.
Import Text Regex Dom TextFacts RegexFacts Spec WebProductFacts.
Import SimpleCrawler.
#[local] Arguments matches : simpl never.
#[local] Arguments search : simpl never.

Lemma same_site_refl s : same_site s s.
Proof. done. Qed.
Lemma same_site_trans s1 s2 s3 : same_site s1 s2 → same_site s2 s3 → same_site s1 s3.
Proof. intros [? ?] [? ?]. split; congruence. Qed.

Lemma is_same_domain_on_site W self u :
  is_same_domain W self u = true ↔ on_site W (base_domain self) u.
Proof.
  unfold is_same_domain, on_site. destruct (netloc W u) as [host|e].
  - rewrite orb_true_iff, bool_decide_eq_true. split.
    + intros H. by exists host.
    + by intros (h & [= <-] & H).
  - split; [done|]. by intros (h & ? & _).
Qed.

Lemma is_same_domain_ext W s1 s2 u :
  same_site s1 s2 → is_same_domain W s1 u = is_same_domain W s2 u.
Proof. intros [_ E]. unfold is_same_domain. by rewrite E. Qed.

Lemma links_loop_ext W s1 s2 keep : same_site s1 s2 → ∀ links acc,
  links_loop W s1 keep links acc = links_loop W s2 keep links acc.
Proof.
  intros Hs. induction links as [|link links IH]; intros acc; simpl; [done|].
  destruct (attr link "href") as [href|]; [|done].
  destruct (keep href); [|done]. destruct Hs as [E1 E2]. rewrite E1.
  destruct (urljoin W (start_url s2) href) as [full|]; [|done].
  rewrite (is_same_domain_ext W s1 s2) by done. apply IH.
Qed.

Lemma selectors_loop_ext W s1 s2 keep soup selectors :
  same_site s1 s2 →
  selectors_loop W s1 keep soup selectors = selectors_loop W s2 keep soup selectors.
Proof.
  intros Hs. unfold selectors_loop. generalize (@nil text).
  induction selectors as [|sel selectors IH]; intros acc; simpl; [done|].
  destruct (select soup sel); [|done]. by rewrite (links_loop_ext W s1 s2).
Qed.

(** Every link collected is on the site of the crawler. *)
Lemma links_loop_on_site W self keep : ∀ links acc,
  Forall (fun u => is_same_domain W self u = true) acc →
  Forall (fun u => is_same_domain W self u = true) (links_loop W self keep links acc).
Proof.
  induction links as [|link links IH]; intros acc Hacc; simpl; [done|].
  destruct (attr link "href") as [href|]; [|by apply IH].
  destruct (keep href); [|by apply IH].
  destruct (urljoin W (start_url self) href) as [full|]; [|done].
  apply IH. destruct (is_same_domain W self full) eqn:E; [|done].
  apply Forall_app. split; [done|]. by constructor.
Qed.

Lemma selectors_loop_on_site W self keep soup selectors :
  Forall (fun u => is_same_domain W self u = true)
         (selectors_loop W self keep soup selectors).
Proof.
  unfold selectors_loop.
  assert (Forall (fun u => is_same_domain W self u = true) (@nil text)) as H by constructor.
  revert H. generalize (@nil text).
  induction selectors as [|sel selectors IH]; intros acc Hacc; simpl; [done|].
  apply IH. destruct (select soup sel); [|done]. by apply links_loop_on_site.
Qed.

Lemma list_set_on_site W self l :
  set_order_ok W →
  Forall (fun u => is_same_domain W self u = true) l →
  Forall (fun u => is_same_domain W self u = true) (list_set W l).
Proof.
  intros HW Hl. apply List.Forall_forall. intros u Hu.
  apply (HW l) in Hu. eapply List.Forall_forall in Hl; eauto.
Qed.

(** ** What a page visit does to the crawler *)

Lemma crawl_company_page_fields W url self :
  same_site (crawl_company_page W url self) self ∧
  products_data (crawl_company_page W url self) = products_data self ∧
  visited_urls (crawl_company_page W url self) = visited_urls self ∧
  requested (crawl_company_page W url self) = requested self ++ [url].
Proof.
  unfold crawl_company_page, session_get.
  destruct (http_get W _ url) as [soup|e]; [|done].
  destruct (update_company soup _) as [d [e|]]; done.
Qed.

Lemma crawl_product_page_fields W url self :
  same_site (crawl_product_page W url self) self ∧
  company_data (crawl_product_page W url self) = company_data self ∧
  visited_urls (crawl_product_page W url self) = {[ url ]} ∪ visited_urls self ∧
  requested (crawl_product_page W url self) = requested self ++ [url] ∧
  (Forall web_stored (products_data self) →
   Forall web_stored (products_data (crawl_product_page W url self))).
Proof.
  unfold crawl_product_page, session_get. simpl.
  destruct (http_get W _ url) as [soup|e]; [|done].
  destruct (extract_product_data W soup url) as [[p|]|e] eqn:E; [|done|done].
  destruct (_ && _); [|done]. simpl. repeat split; try done.
  intros H. apply Forall_app. split; [done|]. constructor; [|done].
  by eapply extract_product_data_ok.
Qed.

(** Step 2: every company link taken is requested, in order. *)
Lemma company_phase W : ∀ links self,
  same_site (fold_left (fun s link => crawl_company_page W link s) links self) self ∧
  products_data (fold_left (fun s link => crawl_company_page W link s) links self)
  = products_data self ∧
  visited_urls (fold_left (fun s link => crawl_company_page W link s) links self)
  = visited_urls self ∧
  requested (fold_left (fun s link => crawl_company_page W link s) links self)
  = requested self ++ links.
Proof.
  induction links as [|link links IH]; intros self; simpl.
  - by rewrite app_nil_r.
  - destruct (IH (crawl_company_page W link self)) as (H1 & H2 & H3 & H4).
    destruct (crawl_company_page_fields W link self) as (F1 & F2 & F3 & F4).
    split; [by eapply same_site_trans|]. split; [congruence|]. split; [congruence|].
    rewrite H4, F4. by rewrite <- app_assoc.
Qed.

(** Step 4: the product links requested are distinct, were not visited
    before, and are all visited after. *)
Lemma product_phase W : ∀ links self,
  ∃ fetched,
    requested (fold_left (visit_product W) links self) = requested self ++ fetched ∧
    NoDup fetched ∧
    (∀ u, In u fetched → In u links ∧ u ∉ visited_urls self) ∧
    (∀ u, u ∈ visited_urls (fold_left (visit_product W) links self)
          ↔ u ∈ visited_urls self ∨ In u fetched) ∧
    length fetched ≤ length links ∧
    same_site (fold_left (visit_product W) links self) self ∧
    company_data (fold_left (visit_product W) links self) = company_data self ∧
    (Forall web_stored (products_data self) →
     Forall web_stored (products_data (fold_left (visit_product W) links self))).
Proof.
  induction links as [|link links IH]; intros self.
  - exists []. simpl. rewrite app_nil_r.
    split; [done|]. split; [constructor|]. split; [done|].
    split; [intros u; split; [by left|by intros [?|[]]]|]. done.
  - cbn [fold_left]. destruct (IH (visit_product W self link))
      as (fetched & R & Nd & Hin & Hv & Hlen & Hs & Hc & Hp).
    unfold visit_product in *.
    destruct (bool_decide (link ∈ visited_urls self)) eqn:Eb.
    + exists fetched. split; [done|]. split; [done|]. split.
      { intros u Hu. apply Hin in Hu as [? ?]. split; [by right|done]. }
      split; [done|]. split; [simpl; lia|]. done.
    + apply bool_decide_eq_false in Eb.
      destruct (crawl_product_page_fields W link self) as (F1 & F2 & F3 & F4 & F5).
      exists (link :: fetched). rewrite R, F4, <- app_assoc.
      split; [done|]. split.
      { constructor; [|done]. intros Hl%list_elem_of_In. apply Hin in Hl as [_ Hl].
        apply Hl. rewrite F3. apply elem_of_union. left. by apply elem_of_singleton. }
      split.
      { intros u [<-|Hu]; [split; [by left|done]|].
        apply Hin in Hu as [Hu1 Hu2]. split; [by right|].
        intros Hu3. apply Hu2. rewrite F3. apply elem_of_union. by right. }
      split.
      { intros u. rewrite Hv, F3, elem_of_union, elem_of_singleton. simpl.
        split; [intros [[->|?]|?]|intros [?|[->|?]]]; eauto. }
      split; [simpl; lia|]. split; [by eapply same_site_trans|].
      split; [congruence|]. eauto.
Qed.

Lemma extract_company_profile_fields W soup url self self' :
  extract_company_profile W soup url self = Ok self' →
  same_site self' self ∧ products_data self' = products_data self ∧
  visited_urls self' = visited_urls self ∧ requested self' = requested self.
Proof.
  unfold extract_company_profile. intros H.
  destruct (extract_company_name W soup url); [cbn [mbind exc_bind] in H|done].
  destruct (extract_description soup); [cbn [mbind exc_bind] in H|done].
  by injection H as <-.
Qed.

End CrawlFacts.

Module CompanyFacts.
Import Text Regex Dom TextFacts RegexFacts Spec.
#[local] Arguments matches : simpl never.
#[local] Arguments search : simpl never.

Lemma found_nonempty ic r t : nullable r = false → PdfExtractor.found ic r t = true → t ≠ [].
Proof.
  intros Hn H ->. unfold PdfExtractor.found in H. by rewrite search_empty in H.
Qed.

Lemma of_opt_ok (o : option text) :
  (∀ s, o = Some s → s ≠ []) →
  of_opt o = PNone ∨ ∃ s, of_opt o = PStr s ∧ s ≠ [].
Proof. destruct o as [s|]; [right|by left]. exists s. split; [done|by apply H]. Qed.

Lemma first_some_inv {A B} (f : A → option B) l y :
  PdfExtractor.first_some f l = Some y → ∃ x, In x l ∧ f x = Some y.
Proof.
  induction l as [|x l IH]; simpl; [done|].
  destruct (f x) as [z|] eqn:E.
  - intros [= <-]. exists x. split; [by left|done].
  - intros H. destruct (IH H) as (x' & ? & ?). exists x'. split; [by right|done].
Qed.

Lemma length_nonempty (s : text) : 20 < length s → s ≠ [].
Proof. destruct s; simpl; [lia|done]. Qed.

(** ** The contact extractors give [None] or a string that is not empty *)

Lemma email_nonempty soup s : SimpleCrawler.extract_email soup = Some s → s ≠ [].
Proof.
  unfold SimpleCrawler.extract_email.
  destruct (search false PdfExtractor.email_re (get_text soup)) as [m|] eqn:E; [|done].
  intros [= <-]. by eapply search_nonempty; [|exact E].
Qed.

Lemma phone_nonempty soup s : SimpleCrawler.extract_phone soup = Some s → s ≠ [].
Proof.
  unfold SimpleCrawler.extract_phone.
  destruct (search false SimpleCrawler.phone_re (get_text soup)) as [m|] eqn:E; [|done].
  intros [= <-]. by eapply search_nonempty; [|exact E].
Qed.

Lemma address_nonempty soup s : SimpleCrawler.extract_address soup = Some s → s ≠ [].
Proof.
  unfold SimpleCrawler.extract_address. intros H.
  apply first_some_inv in H as (pattern & _ & H).
  destruct (search false pattern (get_text soup)); [|done].
  destruct (20 <? length _)%nat eqn:E; [|done]. injection H as <-.
  apply length_nonempty. by apply Nat.ltb_lt.
Qed.

Lemma bulk_address_nonempty soup s : BulkCrawler.extract_address soup = Some s → s ≠ [].
Proof.
  unfold BulkCrawler.extract_address. intros H.
  apply first_some_inv in H as (indicator & _ & H).
  apply first_some_inv in H as (node & _ & H).
  destruct (_ && PdfExtractor.found false BulkCrawler.postcode_re _) eqn:E; [|done].
  injection H as <-. apply andb_true_iff in E as [_ E].
  by eapply found_nonempty; [|exact E].
Qed.

(** ** [fill] *)

Lemma fill_other key value d k : k ≠ key → SimpleCrawler.fill key value d !! k = d !! k.
Proof.
  intros Hk. unfold SimpleCrawler.fill. destruct (truthy _); [done|].
  by rewrite lookup_insert_ne.
Qed.

Lemma fill_set key value d s :
  d !! key = Some (PStr s) → s ≠ [] → SimpleCrawler.fill key value d = d.
Proof.
  intros H Hs. unfold SimpleCrawler.fill, get. rewrite H. simpl. by destruct s.
Qed.

Lemma fill_lookup key value d v :
  SimpleCrawler.fill key value d !! key = Some v → d !! key = Some v ∨ v = of_opt value.
Proof.
  unfold SimpleCrawler.fill. destruct (truthy _); [by left|].
  rewrite lookup_insert_eq. intros [= <-]. by right.
Qed.

Lemma fills_keeps email address phone d k s :
  d !! k = Some (PStr s) → s ≠ [] → fills email address phone d !! k = Some (PStr s).
Proof.
  intros H Hs. unfold fills.
  destruct (decide (k = "phone")) as [->|Hp].
  { rewrite (fill_set "phone"  _ _ s); [|by rewrite !fill_other|done].
    by rewrite !fill_other. }
  rewrite fill_other by done.
  destruct (decide (k = "address")) as [->|Ha].
  { rewrite (fill_set "address"  _ _ s); [|by rewrite !fill_other|done].
    by rewrite !fill_other. }
  rewrite fill_other by done.
  destruct (decide (k = "email")) as [->|He].
  { by rewrite (fill_set "email"  _ _ s). }
  by rewrite fill_other.
Qed.

Lemma fills_contact_ok email address phone d :
  (∀ s, email = Some s → s ≠ []) → (∀ s, address = Some s → s ≠ []) →
  (∀ s, phone = Some s → s ≠ []) →
  contact_ok d → contact_ok (fills email address phone d).
Proof.
  intros He Ha Hp Hd k Hk v. unfold fills.
  destruct Hk as [<-|[<-|[<-|[]]]].
  - rewrite !fill_other by done. intros [H| ->]%fill_lookup.
    + eapply Hd; [|exact H]. by left.
    + by apply of_opt_ok.
  - rewrite fill_other by done. intros [H| ->]%fill_lookup.
    + rewrite fill_other in H by done. eapply Hd; [|exact H]. right; by left.
    + by apply of_opt_ok.
  - intros [H| ->]%fill_lookup.
    + rewrite !fill_other in H by done. eapply Hd; [|exact H]. right; right; by left.
    + by apply of_opt_ok.
Qed.

Lemma fills_description email address phone d :
  fills email address phone d !! "description" = d !! "description".
Proof. unfold fills. by rewrite !fill_other. Qed.

Lemma contact_ok_insert_description v d :
  contact_ok d → contact_ok (<["description" := v]> d).
Proof.
  intros Hd k Hk x. rewrite lookup_insert_ne; [by apply Hd|].
  destruct Hk as [<-|[<-|[<-|[]]]]; done.
Qed.

(** ** A company page of the simple crawler *)

Lemma update_company_fills soup d :
  ∀ k, k ≠ "description" →
       (SimpleCrawler.update_company soup d).1 !! k
       = fills (SimpleCrawler.extract_email soup) (SimpleCrawler.extract_address soup)
               (SimpleCrawler.extract_phone soup) d !! k.
Proof.
  intros k Hk. unfold SimpleCrawler.update_company. fold (fills (SimpleCrawler.extract_email soup) (SimpleCrawler.extract_address soup)
               (SimpleCrawler.extract_phone soup) d).
  destruct (SimpleCrawler.extract_description soup) as [[[|c ds]|]|]; try done.
  destruct (SimpleCrawler.py_len _); [|done].
  destruct (_ <? _)%nat; [|done]. simpl. by rewrite lookup_insert_ne.
Qed.

Lemma update_company_contact_ok soup d :
  contact_ok d → contact_ok (SimpleCrawler.update_company soup d).1.
Proof.
  intros Hd k Hk v. rewrite update_company_fills.
  - apply fills_contact_ok; try done.
    + apply email_nonempty. + apply address_nonempty. + apply phone_nonempty.
  - destruct Hk as [<-|[<-|[<-|[]]]]; done.
Qed.

Lemma update_company_keeps soup d k s :
  In k contact_keys → d !! k = Some (PStr s) → s ≠ [] →
  (SimpleCrawler.update_company soup d).1 !! k = Some (PStr s).
Proof.
  intros Hk H Hs. rewrite update_company_fills.
  - by apply fills_keeps.
  - destruct Hk as [<-|[<-|[<-|[]]]]; done.
Qed.

(** With the description [None]: it stays [None], and a candidate ends the
    page with the exception of [len]. *)
Lemma update_company_none soup d :
  d !! "description" = Some PNone →
  (SimpleCrawler.update_company soup d).1 !! "description" = Some PNone ∧
  ∀ c ds, SimpleCrawler.extract_description soup = Ok (Some (c :: ds)) →
          (SimpleCrawler.update_company soup d).2 = Some len_of_none.
Proof.
  intros H. unfold SimpleCrawler.update_company.
  fold (fills (SimpleCrawler.extract_email soup) (SimpleCrawler.extract_address soup)
               (SimpleCrawler.extract_phone soup) d).
  assert (get_default (fills (SimpleCrawler.extract_email soup)
            (SimpleCrawler.extract_address soup) (SimpleCrawler.extract_phone soup) d)
            "description" (PStr []) = PNone) as E.
  { unfold get_default. by rewrite fills_description, H. }
  rewrite E. simpl.
  destruct (SimpleCrawler.extract_description soup) as [[[|c ds]|]|]; simpl;
    rewrite fills_description; (split; [done|]); done.
Qed.

Lemma crawl_company_page_data W url self :
  SimpleCrawler.company_data (SimpleCrawler.crawl_company_page W url self)
  = match http_get W (length (SimpleCrawler.requested self)) url with
    | Ok soup => (SimpleCrawler.update_company soup (SimpleCrawler.company_data self)).1
    | Raise _ => SimpleCrawler.company_data self
    end.
Proof.
  unfold SimpleCrawler.crawl_company_page, SimpleCrawler.session_get.
  destruct (http_get W _ url) as [soup|e]; [|done]. simpl.
  by destruct (SimpleCrawler.update_company soup _) as [d [e|]].
Qed.

End CompanyFacts.

Module SessionFacts.
Import Text Regex Dom TextFacts RegexFacts Spec WebProductFacts CrawlFacts.
Import SimpleCrawler.
#[local] Arguments matches : simpl never.
#[local] Arguments search : simpl never.

Lemma session_get_fields W self url :
  same_site (session_get W self url).1 self ∧
  company_data (session_get W self url).1 = company_data self ∧
  products_data (session_get W self url).1 = products_data self ∧
  visited_urls (session_get W self url).1 = visited_urls self ∧
  requested (session_get W self url).1 = requested self ++ [url] ∧
  (session_get W self url).2 = http_get W (length (requested self)) url.
Proof. done. Qed.

Lemma take_NoDup {A} n (l : list A) : NoDup l → NoDup (take n l).
Proof.
  intros H. rewrite <- (take_drop n l) in H. by apply NoDup_app in H as [H _].
Qed.

Lemma Forall_take' {A} (P : A → Prop) n l : Forall P l → Forall P (take n l).
Proof.
  intros H. rewrite <- (take_drop n l) in H. by apply Forall_app in H as [H _].
Qed.

(** The requests of a crawl, from a crawler that has made none: the start
    URL, then at most three company links, then at most twenty product
    links; the links of each kind are distinct, and all are on the site. *)
Lemma crawl_steps_requests W self :
  set_order_ok W →
  ∃ company product,
    requested (crawl_steps W self).1
    = requested self ++ start_url self :: company ++ product ∧
    NoDup company ∧ NoDup product ∧
    length company ≤ 3 ∧ length product ≤ 20 ∧
    (∀ u, In u product → u ∉ visited_urls self) ∧
    ∀ u, In u (company ++ product) → is_same_domain W self u = true.
Proof.
  intros HW. unfold crawl_steps.
  destruct (session_get_fields W self (start_url self)) as (S0 & _ & _ & V0 & R0 & E0).
  destruct (session_get W self (start_url self)) as [self0 response]. simpl in *.
  assert (start_url self0 = start_url self) as Es by apply S0.
  destruct response as [main_soup|e].
  2:{ exists [], []. simpl. rewrite R0. repeat split; try done; try constructor; lia. }
  destruct (extract_company_profile W main_soup (start_url self0) self0) as [self1|e] eqn:E1.
  2:{ exists [], []. simpl. rewrite R0. repeat split; try done; try constructor; lia. }
  destruct (extract_company_profile_fields _ _ _ _ _ E1) as (S1 & _ & V1 & R1).
  set (company := take 3 (find_company_info_links W self1 main_soup)).
  destruct (company_phase W company self1) as (S2 & _ & V2 & R2).
  set (self2 := fold_left _ company self1) in *.
  set (links := take 20 (find_product_links W self2 main_soup)).
  destruct (product_phase W links self2) as (product & R3 & Nd & Hin & _ & Hlen & S3 & _).
  exists company, product. simpl.
  split. { rewrite R3, R2, R1, R0, <- !app_assoc. done. }
  split. { apply take_NoDup, HW. }
  split; [done|].
  split. { unfold company. rewrite length_take. lia. }
  split. { unfold links in Hlen. rewrite length_take in Hlen. lia. }
  split. { intros u Hu. apply Hin in Hu as [_ Hu]. by rewrite V2, V1, V0 in Hu. }
  assert (same_site self1 self) as S10 by (by eapply same_site_trans).
  assert (same_site self2 self) as S20 by (by eapply same_site_trans).
  intros u [Hu|Hu]%in_app_iff.
  - rewrite <- (is_same_domain_ext W self1 self) by done.
    refine (proj1 (List.Forall_forall (fun u => is_same_domain W _ u = true) _) _ u Hu).
    apply Forall_take', list_set_on_site; [done|]. apply selectors_loop_on_site.
  - apply Hin in Hu as [Hu _].
    rewrite <- (is_same_domain_ext W self2 self) by done.
    refine (proj1 (List.Forall_forall (fun u => is_same_domain W _ u = true) _) _ u Hu).
    apply Forall_take', list_set_on_site; [done|]. apply selectors_loop_on_site.
Qed.

(** The records of a crawl can all be stored. *)
Lemma crawl_steps_products W self :
  Forall web_stored (products_data self) →
  Forall web_stored (products_data (crawl_steps W self).1).
Proof.
  intros Hp. unfold crawl_steps.
  destruct (session_get_fields W self (start_url self)) as (_ & _ & P0 & _).
  destruct (session_get W self (start_url self)) as [self0 response]. simpl in *.
  destruct response as [main_soup|e]; [|simpl; by rewrite P0].
  destruct (extract_company_profile W main_soup (start_url self0) self0) as [self1|e] eqn:E1;
    [|simpl; by rewrite P0].
  destruct (extract_company_profile_fields _ _ _ _ _ E1) as (_ & P1 & _).
  set (company := take 3 (find_company_info_links W self1 main_soup)).
  destruct (company_phase W company self1) as (_ & P2 & _).
  set (self2 := fold_left _ company self1) in *.
  set (links := take 20 (find_product_links W self2 main_soup)).
  destruct (product_phase W links self2) as (product & _ & _ & _ & _ & _ & _ & _ & P3).
  simpl. apply P3. by rewrite P2, P1, P0.
Qed.

Lemma init_fields W url self :
  init W url = Ok self →
  start_url self = url ∧ netloc W url = Ok (base_domain self) ∧
  company_data self = ∅ ∧ products_data self = [] ∧
  visited_urls self = ∅ ∧ requested self = [].
Proof.
  unfold init. destruct (netloc W url) as [domain|]; [|done]. by intros [= <-].
Qed.

Lemma crawl_products W self ps :
  (crawl_supplier_catalog W self).1 !! "productsData" = Some (EDicts ps) →
  ps = products_data (crawl_steps W self).1.
Proof.
  unfold crawl_supplier_catalog. destruct (crawl_steps W self) as [final [[]|e]]; simpl.
  - unfold success_envelope. rewrite lookup_insert_ne by done. rewrite lookup_insert_ne by done.
    rewrite lookup_insert_eq. by intros [= <-].
  - by vm_compute.
Qed.

End SessionFacts.

Module EnvelopeFacts.
Import Spec.

Lemma success_one_shape (d : dict) (ps : list dict) (n : Z) :
  one_shape (<["success" := EBool true]> (<["supplierData" := EDict d]>
            (<["productsData" := EDicts ps]> (<["totalProducts" := EInt n]> ∅)))).
Proof.
  left. split.
  - split; [|split; [done|split; [|split]]]; [|by exists d|by exists ps|by exists n].
    rewrite !dom_insert_L, dom_empty_L. apply set_eq. intros k.
    rewrite !elem_of_union, !elem_of_singleton. pose proof (not_elem_of_empty (C:=gset string) k).
    tauto.
  - intros (_ & H & _). done.
Qed.

Lemma failure_is_failure (message : text) :
  failure_shape (<["success" := EBool false]> (<["error" := EStr message]> ∅)).
Proof.
  split; [|split; [done|by exists message]].
  rewrite !dom_insert_L, dom_empty_L. apply set_eq. intros k.
  rewrite !elem_of_union, !elem_of_singleton. pose proof (not_elem_of_empty (C:=gset string) k).
  tauto.
Qed.

Lemma failure_one_shape (message : text) :
  one_shape (<["success" := EBool false]> (<["error" := EStr message]> ∅)).
Proof. right. split; [apply failure_is_failure|]. intros (_ & H & _). done. Qed.

Lemma success_count (d : dict) (ps : list dict) :
  count_is_length (<["success" := EBool true]> (<["supplierData" := EDict d]>
    (<["productsData" := EDicts ps]>
    (<["totalProducts" := EInt (Z.of_nat (length ps))]> ∅)))).
Proof. intros _. by exists ps. Qed.

Lemma failure_count (message : text) :
  count_is_length (<["success" := EBool false]> (<["error" := EStr message]> ∅)).
Proof. intros H. done. Qed.

End EnvelopeFacts.

Module BulkCompanyFacts.
Import Text Regex Dom TextFacts RegexFacts Spec CompanyFacts.
#[local] Arguments matches : simpl never.
#[local] Arguments search : simpl never.

Lemma bulk_email_nonempty soup s : BulkCrawler.extract_email soup = Some s → s ≠ [].
Proof. apply email_nonempty. Qed.

Lemma bulk_phone_nonempty soup s : BulkCrawler.extract_phone soup = Some s → s ≠ [].
Proof. apply phone_nonempty. Qed.

Lemma parse_company_page_fills response self :
  ∀ k, k ≠ "description" →
       BulkCrawler.company_data (BulkCrawler.parse_company_page response self).1 !! k
       = fills (BulkCrawler.extract_email (BulkCrawler.soup response))
               (BulkCrawler.extract_address (BulkCrawler.soup response))
               (BulkCrawler.extract_phone (BulkCrawler.soup response))
               (BulkCrawler.company_data self) !! k.
Proof.
  intros k Hk. unfold BulkCrawler.parse_company_page.
  fold (fills (BulkCrawler.extract_email (BulkCrawler.soup response))
              (BulkCrawler.extract_address (BulkCrawler.soup response))
              (BulkCrawler.extract_phone (BulkCrawler.soup response))
              (BulkCrawler.company_data self)).
  destruct (BulkCrawler.extract_description _) as [[[|c ds]|]|]; try done.
  destruct (SimpleCrawler.py_len _); [|done].
  destruct (_ <? _)%nat; [|done]. simpl. by rewrite lookup_insert_ne.
Qed.

Lemma contact_key_not_description k : In k contact_keys → k ≠ "description".
Proof. intros [<-|[<-|[<-|[]]]]; done. Qed.

Lemma parse_company_page_contact_ok response self :
  contact_ok (BulkCrawler.company_data self) →
  contact_ok (BulkCrawler.company_data (BulkCrawler.parse_company_page response self).1).
Proof.
  intros Hd k Hk v. rewrite parse_company_page_fills by by apply contact_key_not_description.
  apply fills_contact_ok; try done.
  - apply bulk_email_nonempty. - apply bulk_address_nonempty. - apply bulk_phone_nonempty.
Qed.

Lemma parse_company_page_keeps response self k s :
  In k contact_keys → BulkCrawler.company_data self !! k = Some (PStr s) → s ≠ [] →
  BulkCrawler.company_data (BulkCrawler.parse_company_page response self).1 !! k
  = Some (PStr s).
Proof.
  intros Hk H Hs. rewrite parse_company_page_fills by by apply contact_key_not_description.
  by apply fills_keeps.
Qed.

(** The profile taken from the first page leaves the contact fields in
    order, in both crawlers. *)
Lemma profile_contact_ok (name website : text) (email address phone description : option text)
  (old : dict) :
  (∀ s, email = Some s → s ≠ []) → (∀ s, address = Some s → s ≠ []) →
  (∀ s, phone = Some s → s ≠ []) →
  contact_ok (<["companyName" := PStr name]> (<["website" := PStr website]>
    (<["email" := of_opt email]> (<["address" := of_opt address]>
    (<["phone" := of_opt phone]> (<["supplierType" := PStr (txt "Packaging")]>
    (<["description" := of_opt description]> ∅)))))) ∪ old).
Proof.
  intros He Ha Hp k Hk v Hv.
  destruct Hk as [<-|[<-|[<-|[]]]];
    (erewrite lookup_union_Some_l in Hv; [|by simplify_map_eq]);
    injection Hv as <-; by apply of_opt_ok.
Qed.

Lemma simple_profile_contact_ok W soup url self self' :
  SimpleCrawler.extract_company_profile W soup url self = Ok self' →
  contact_ok (SimpleCrawler.company_data self').
Proof.
  unfold SimpleCrawler.extract_company_profile. intros H.
  destruct (SimpleCrawler.extract_company_name W soup url); [cbn [mbind exc_bind] in H|done].
  destruct (SimpleCrawler.extract_description soup); [cbn [mbind exc_bind] in H|done].
  injection H as <-. simpl. apply profile_contact_ok.
  - apply email_nonempty. - apply address_nonempty. - apply phone_nonempty.
Qed.

Lemma bulk_profile_contact_ok W response self self' :
  BulkCrawler.extract_company_profile W response self = Ok self' →
  contact_ok (BulkCrawler.company_data self').
Proof.
  unfold BulkCrawler.extract_company_profile. intros H.
  destruct (BulkCrawler.extract_company_name W _ _); [cbn [mbind exc_bind] in H|done].
  destruct (BulkCrawler.extract_description _); [cbn [mbind exc_bind] in H|done].
  injection H as <-. simpl. apply profile_contact_ok.
  - apply bulk_email_nonempty. - apply bulk_address_nonempty. - apply bulk_phone_nonempty.
Qed.

(** A contact field that is set stays as it is over later company pages. *)
Lemma company_pages_keep W : ∀ urls self k v,
  contact_ok (SimpleCrawler.company_data self) → In k contact_keys → v ≠ PNone →
  SimpleCrawler.company_data self !! k = Some v →
  SimpleCrawler.company_data (company_pages W urls self) !! k = Some v.
Proof.
  induction urls as [|url urls IH]; intros self k v Hok Hk Hv H; [done|].
  unfold company_pages. cbn [fold_left]. apply IH; try done.
  - rewrite crawl_company_page_data. destruct (http_get W _ url); [|done].
    by apply update_company_contact_ok.
  - rewrite crawl_company_page_data. destruct (http_get W _ url) as [soup|]; [|done].
    destruct (Hok k Hk v H) as [->|(s & -> & Hs)]; [done|].
    by apply update_company_keeps.
Qed.

Lemma company_pages_contact_ok W : ∀ urls self,
  contact_ok (SimpleCrawler.company_data self) →
  contact_ok (SimpleCrawler.company_data (company_pages W urls self)).
Proof.
  induction urls as [|url urls IH]; intros self Hok; [done|].
  unfold company_pages. cbn [fold_left]. apply IH.
  rewrite crawl_company_page_data. destruct (http_get W _ url); [|done].
  by apply update_company_contact_ok.
Qed.

Lemma company_callbacks_keep : ∀ responses self k v,
  contact_ok (BulkCrawler.company_data self) → In k contact_keys → v ≠ PNone →
  BulkCrawler.company_data self !! k = Some v →
  BulkCrawler.company_data (company_callbacks responses self) !! k = Some v.
Proof.
  induction responses as [|r responses IH]; intros self k v Hok Hk Hv H; [done|].
  unfold company_callbacks. cbn [fold_left]. apply IH; try done.
  - by apply parse_company_page_contact_ok.
  - destruct (Hok k Hk v H) as [->|(s & -> & Hs)]; [done|].
    by apply parse_company_page_keeps.
Qed.

Lemma company_callbacks_contact_ok : ∀ responses self,
  contact_ok (BulkCrawler.company_data self) →
  contact_ok (BulkCrawler.company_data (company_callbacks responses self)).
Proof.
  induction responses as [|r responses IH]; intros self Hok; [done|].
  unfold company_callbacks. cbn [fold_left]. apply IH.
  by apply parse_company_page_contact_ok.
Qed.

End BulkCompanyFacts.

Module GroupFacts.
Import Text Regex Dom TextFacts RegexFacts ParserFacts FieldFacts Spec.

Lemma lookup_group_In c n g : lookup_group c n = Some g → In (n, g) c.
Proof.
  induction c as [|[k v] c IH]; simpl; [done|].
  destruct (Nat.eqb k n) eqn:E.
  - intros [= <-]. apply Nat.eqb_eq in E as ->. by left.
  - intros H. right. by apply IH.
Qed.

(** A group that a pattern always binds is bound in each of its matches. *)
Lemma always_binds_some ic n : ∀ r prev s m c rest,
  always_binds r n = true → In (m, c, rest) (matches ic r prev s) →
  is_Some (lookup_group c n).
Proof.
  induction r as [|a|p|r1 IH1 r2 IH2|r1 IH1 r2 IH2|r IH|k r IH|];
    intros prev s m c rest Hb H; try done.
  - apply matches_Seq in H as (m1 & c1 & s1 & m2 & c2 & H1 & H2 & -> & ->).
    rewrite lookup_group_app. cbn [always_binds] in Hb. apply orb_true_iff in Hb as [Hb|Hb].
    + destruct (lookup_group c2 n); [done|]. eauto.
    + destruct (IH2 _ _ _ _ _ Hb H2) as [g ->]. done.
  - cbn [always_binds] in Hb. apply andb_true_iff in Hb as [Hb1 Hb2].
    apply matches_Alt in H as [H|H]; eauto.
  - apply matches_Grp in H as (c' & H & ->). cbn [always_binds] in Hb. simpl.
    destruct (Nat.eqb k n) eqn:E; [done|]. simpl in Hb. eauto.
Qed.

Lemma star_loop_groups step (P : nat * text → Prop) :
  (∀ prev s m c rest, In (m, c, rest) (step prev s) → ∀ x, In x c → P x) →
  ∀ fuel prev s m c rest, In (m, c, rest) (star_loop step fuel prev s) →
  ∀ x, In x c → P x.
Proof.
  intros Hstep. induction fuel as [|fuel IH]; intros prev s m c rest H x Hx;
    apply star_loop_inv in H as [(-> & -> & _)|(f' & m1 & c1 & s1 & m2 & c2 & E & H1 & _ & H2 & -> & ->)];
    try done.
  injection E as <-. apply in_app_iff in Hx as [Hx|Hx]; eauto.
Qed.

(** What a group holds is a match of a pattern the group encloses. *)
Lemma group_from ic n g : ∀ r prev s m c rest,
  In (m, c, rest) (matches ic r prev s) → In (n, g) c →
  ∃ r' prev' s' c' rest',
    In r' (groups_of r n) ∧ In (g, c', rest') (matches ic r' prev' s').
Proof.
  induction r as [|a|p|r1 IH1 r2 IH2|r1 IH1 r2 IH2|r IH|k r IH|];
    intros prev s m c rest H Hg.
  - apply matches_Eps in H. by injection H as -> -> ->.
  - apply matches_Chr in H as (x & _ & _ & -> & _). done.
  - apply matches_Cls in H as (x & _ & _ & -> & _). done.
  - apply matches_Seq in H as (m1 & c1 & s1 & m2 & c2 & H1 & H2 & -> & ->).
    cbn [groups_of]. apply in_app_iff in Hg as [Hg|Hg].
    + destruct (IH2 _ _ _ _ _ H2 Hg) as (r' & p' & s' & c' & rest' & Hr & Hm).
      exists r', p', s', c', rest'. split; [apply in_app_iff; by right|done].
    + destruct (IH1 _ _ _ _ _ H1 Hg) as (r' & p' & s' & c' & rest' & Hr & Hm).
      exists r', p', s', c', rest'. split; [apply in_app_iff; by left|done].
  - cbn [groups_of]. apply matches_Alt in H as [H|H].
    + destruct (IH1 _ _ _ _ _ H Hg) as (r' & p' & s' & c' & rest' & Hr & Hm).
      exists r', p', s', c', rest'. split; [apply in_app_iff; by left|done].
    + destruct (IH2 _ _ _ _ _ H Hg) as (r' & p' & s' & c' & rest' & Hr & Hm).
      exists r', p', s', c', rest'. split; [apply in_app_iff; by right|done].
  - cbn [groups_of]. rewrite matches_Star in H.
    refine (star_loop_groups (matches ic r)
              (fun x => x = (n, g) → ∃ r' prev' s' c' rest',
                 In r' (groups_of r n) ∧ In (g, c', rest') (matches ic r' prev' s'))
              _ _ _ _ _ _ _ H (n, g) Hg eq_refl).
    intros prev0 s0 m0 c0 rest0 H0 x Hx ->. eauto.
  - apply matches_Grp in H as (c' & H & ->). cbn [groups_of].
    destruct Hg as [[= -> ->]|Hg].
    + exists r, prev, s, c', rest. rewrite Nat.eqb_refl. split; [by left|done].
    + destruct (IH _ _ _ _ _ H Hg) as (r' & p' & s' & c'' & rest' & Hr & Hm).
      exists r', p', s', c'', rest'. split; [apply in_app_iff; by right|done].
  - apply matches_WordB in H. by injection H as -> -> ->.
Qed.

(** ** On a match object *)

Lemma group_bound ic r s M n :
  search ic r s = Some M → always_binds r n = true → ∃ g, group M n = Some g.
Proof.
  intros H Hb. apply search_In in H as [_ [prev' H]].
  by apply (always_binds_some ic n r _ _ _ _ _ Hb H).
Qed.

Lemma group_is_number ic r s M n g :
  search ic r s = Some M → groups_of r n = [number] → group M n = Some g →
  ∃ q, py_float g = Ok q.
Proof.
  intros H Hg Hn. apply search_In in H as [_ [prev' H]].
  apply lookup_group_In in Hn.
  destruct (group_from ic n g _ _ _ _ _ _ H Hn) as (r' & p' & s' & c' & rest' & Hr & Hm).
  rewrite Hg in Hr. destruct Hr as [<-|[]].
  apply number_float in Hm as (q & Hq & _). eauto.
Qed.

Lemma group_is_digits ic r s M n g :
  search ic r s = Some M → groups_of r n = [Plus digit] → group M n = Some g →
  ∃ z, py_int g = Ok z.
Proof.
  intros H Hg Hn. apply search_In in H as [_ [prev' H]].
  apply lookup_group_In in Hn.
  destruct (group_from ic n g _ _ _ _ _ _ H Hn) as (r' & p' & s' & c' & rest' & Hr & Hm).
  rewrite Hg in Hr. destruct Hr as [<-|[]].
  apply plus_digits_In in Hm as [_ Hd]. apply py_int_digits in Hd as (z & Hz & _). eauto.
Qed.

End GroupFacts.

Module TotalFacts.
Import Text Regex Dom TextFacts RegexFacts ParserFacts FieldFacts Spec GroupFacts.
Import PipelineFacts TextPathFacts DedupFacts.
Import PdfExtractor.
#[local] Arguments matches : simpl never.
#[local] Arguments search : simpl never.

Lemma str_step ic r t M n :
  search ic r t = Some M → always_binds r n = true → ∃ g, str_of (group M n) = Ok g.
Proof. intros H Hb. destruct (group_bound ic r t M n H Hb) as [g ->]. by exists g. Qed.

Lemma float_step ic r t M n :
  search ic r t = Some M → always_binds r n = true → groups_of r n = [number] →
  ∃ q, float_of (group M n) = Ok q.
Proof.
  intros H Hb Hg. destruct (group_bound ic r t M n H Hb) as [g E]. rewrite E.
  by apply (group_is_number ic r t M n g).
Qed.

Lemma int_step ic r t M n :
  search ic r t = Some M → always_binds r n = true → groups_of r n = [Plus digit] →
  ∃ z, int_of (group M n) = Ok z.
Proof.
  intros H Hb Hg. destruct (group_bound ic r t M n H Hb) as [g E]. rewrite E.
  by apply (group_is_digits ic r t M n g).
Qed.

(** [extract_specs_from_text] never raises: the groups it reads are bound,
    and the numbers it converts are numbers. *)
Lemma specs_total t : ∃ specs, extract_specs_from_text t = Ok specs.
Proof.
  unfold extract_specs_from_text.
  destruct (search true material_re t) as [m1|] eqn:E1.
  1: destruct (str_step _ _ _ _ 1 E1 eq_refl) as [g1 ->].
  all: cbn [mbind exc_bind mret exc_ret].
  all: destruct (search true weight_spec_re t) as [m2|] eqn:E2.
  1,3: destruct (float_step _ _ _ _ 1 E2 eq_refl eq_refl) as [w2 ->];
       destruct (str_step _ _ _ _ 2 E2 eq_refl) as [u2 ->].
  all: cbn [mbind exc_bind mret exc_ret].
  all: destruct (search true capacity_spec_re t) as [m3|] eqn:E3.
  1,3,5,7: destruct (float_step _ _ _ _ 1 E3 eq_refl eq_refl) as [w3 ->];
           destruct (str_step _ _ _ _ 2 E3 eq_refl) as [u3 ->].
  all: cbn [mbind exc_bind mret exc_ret].
  all: destruct (search true color_re t) as [m4|] eqn:E4;
       [destruct (str_step _ _ _ _ 1 E4 eq_refl) as [g4 ->]|];
       cbn [mbind exc_bind mret exc_ret].
  all: destruct (search true sku_re t) as [m5|] eqn:E5;
       [destruct (str_step _ _ _ _ 1 E5 eq_refl) as [g5 ->]|];
       cbn [mbind exc_bind mret exc_ret].
  all: destruct (search true recycled_re t) as [m6|] eqn:E6;
       [destruct (int_step _ _ _ _ 1 E6 eq_refl eq_refl) as [z6 ->]|];
       cbn [mbind exc_bind mret exc_ret]; eauto.
Qed.

Lemma text_section_total t : ∃ o, extract_product_from_text_section t = Ok o.
Proof.
  unfold extract_product_from_text_section.
  destruct (specs_total t) as [specs ->]. cbn [mbind exc_bind mret exc_ret]. eauto.
Qed.







Lemma about_loop_total t : ∀ patterns,
  Forall (fun pattern => always_binds pattern 1 = true) patterns →
  ∃ o, about_loop patterns t = Ok o.
Proof.
  induction patterns as [|pattern patterns IH]; intros H; [by eexists|].
  apply Forall_cons in H as [Hb Hps]. cbn [about_loop].
  destruct (search true pattern t) as [m|] eqn:E; [|by apply IH].
  destruct (str_step _ _ _ _ 1 E Hb) as [g ->]. cbn [mbind exc_bind].
  destruct (_ <? _)%nat; [by eexists|by apply IH].
Qed.

Lemma company_description_total t : ∃ o, extract_company_description t = Ok o.
Proof.
  unfold extract_company_description.
  destruct (about_loop_total t about_patterns) as [o ->].
  - repeat constructor.
  - cbn [mbind exc_bind]. destruct o; by eexists.
Qed.





End TotalFacts.

Module PartFacts.
Import Text Regex Dom TextFacts RegexFacts ParserFacts FieldFacts Spec.
#[local] Arguments matches : simpl never.
#[local] Arguments search : simpl never.

Lemma part_refl t : part_of t t.
Proof. exists [], []. by rewrite app_nil_r. Qed.

Lemma part_trans a b c : part_of a b → part_of b c → part_of a c.
Proof.
  intros (x & y & ->) (u & v & ->). exists (u ++ x), (y ++ v).
  by rewrite <- !app_assoc.
Qed.

Lemma part_length d t : part_of d t → length d ≤ length t.
Proof. intros (a & b & ->). rewrite !length_app. lia. Qed.

Lemma part_nil t : part_of [] t.
Proof. by exists [], t. Qed.

Lemma lstrip_part s : part_of (lstrip s) s.
Proof.
  exists (take_while is_space s), []. rewrite app_nil_r. symmetry. apply take_drop_while.
Qed.

Lemma strip_part s : part_of (strip s) s.
Proof.
  eapply part_trans; [|apply lstrip_part]. unfold strip.
  set (u := lstrip s). exists [], (rev (take_while is_space (rev u))). simpl.
  rewrite <- rev_app_distr. unfold lstrip. rewrite take_drop_while. by rewrite rev_involutive.
Qed.

Lemma strip_length s : length (strip s) ≤ length s.
Proof. apply part_length, strip_part. Qed.

Lemma search_from_part ic r prev s m :
  search_from ic r prev s = Some m → part_of (m_text m) s.
Proof. intros [E _]%search_from_In. by exists (m_before m), (m_after m). Qed.

Lemma search_part ic r s m : search ic r s = Some m → part_of (m_text m) s.
Proof. apply search_from_part. Qed.

Lemma split_from_part ic r : ∀ fuel prev s x,
  In x (split_from fuel ic r prev s) → part_of x s.
Proof.
  induction fuel as [|fuel IH]; intros prev s x; cbn [split_from].
  - intros [<-|[]]. apply part_refl.
  - destruct (search_from ic r prev s) as [m|] eqn:E.
    + apply search_from_In in E as [E _]. intros [<-|H].
      * exists [], (m_text m ++ m_after m). by rewrite E.
      * apply IH in H. eapply part_trans; [exact H|].
        exists (m_before m ++ m_text m), []. by rewrite app_nil_r, <- app_assoc.
    + intros [<-|[]]. apply part_refl.
Qed.

Lemma split_part ic r s x : In x (split ic r s) → part_of x s.
Proof. apply split_from_part. Qed.

(** ** Literals and [in] *)

Lemma startswith_app p s : startswith p s = true ↔ ∃ b, s = p ++ b.
Proof.
  revert s. induction p as [|a p IH]; intros s; simpl.
  - split; [by exists s|done].
  - destruct s as [|x s].
    + split; [done|]. by intros [b [=]].
    + rewrite andb_true_iff, IH. split.
      * intros [->%Ascii.eqb_eq [b ->]]. by exists b.
      * intros [b [= -> ->]]. split; [apply Ascii.eqb_refl|by exists b].
Qed.

Lemma endswith_app p s : endswith p s = true ↔ ∃ a, s = a ++ p.
Proof.
  unfold endswith. rewrite startswith_app. split.
  - intros [b E]. exists (rev b). apply (f_equal (@rev ascii)) in E.
    by rewrite rev_involutive, rev_app_distr, rev_involutive in E.
  - intros [a ->]. exists (rev a). by rewrite rev_app_distr.
Qed.

Lemma contains_part sub s : contains sub s = true ↔ part_of sub s.
Proof.
  induction s as [|x s IH]; simpl.
  - rewrite orb_false_r, startswith_app. split.
    + intros [b E]. by exists [], b.
    + intros (a & b & E). destruct a; [by exists b|done].
  - rewrite orb_true_iff, startswith_app, IH. split.
    + intros [[b E]|(a & b & ->)]; [by exists [], b|by exists (x :: a), b].
    + intros (a & b & E). destruct a as [|y a].
      * left. by exists b.
      * right. injection E as -> ->. by exists a, b.
Qed.

Lemma chr_ok_true c x : chr_ok true c x = Ascii.eqb (lower_char x) (lower_char c).
Proof. done. Qed.

(** A literal matches, under [re.IGNORECASE], where the lower-cased text
    starts with the lower-cased literal. *)
Lemma Lit_matches : ∀ u prev s,
  matches true (Lit u) prev s ≠ [] ↔ startswith (lower u) (lower s) = true.
Proof.
  induction u as [|a u IH]; intros prev s.
  - unfold matches. simpl. done.
  - destruct u as [|b u].
    + change (Lit [a]) with (Chr a). destruct s as [|x s]; [done|].
      change (matches true (Chr a) prev (x :: s))
        with (if chr_ok true a x then [([x], [] : captures, s)] else []).
      rewrite chr_ok_true. cbn [lower map startswith]. rewrite Ascii.eqb_sym.
      destruct (Ascii.eqb _ _); [|done]. split; [by destruct (lower s)|done].
    + rewrite Lit_cons. split.
      * intros H. destruct (matches true (Seq (Chr a) (Lit (b :: u))) prev s) as [|[[m c] rest] tl] eqn:E;
          [done|].
        assert (In (m, c, rest) (matches true (Seq (Chr a) (Lit (b :: u))) prev s)) as Hin
          by (rewrite E; by left).
        apply matches_Seq in Hin as (m1 & c1 & s1 & m2 & c2 & H1 & H2 & _ & _).
        apply matches_Chr in H1 as (x & -> & -> & -> & Hx).
        rewrite chr_ok_true in Hx. cbn [lower map startswith].
        rewrite Ascii.eqb_sym, Hx. cbn [andb]. apply (IH (last_char prev [x])).
        intros E2. by rewrite E2 in H2.
      * destruct s as [|x s]; [done|]. cbn [lower map startswith].
        intros [Hx Hs]%andb_true_iff. rewrite Ascii.eqb_sym in Hx.
        apply (IH (last_char prev [x])) in Hs.
        destruct (matches true (Lit (b :: u)) (last_char prev [x]) s) as [|[[m2 c2] rest] tl] eqn:E;
          [done|].
        intros E2.
        assert (In ([x] ++ m2, c2 ++ [], rest) (matches true (Seq (Chr a) (Lit (b :: u))) prev (x :: s))) as Hin.
        { apply matches_Seq. exists [x], [], s, m2, c2. split; [|split; [|done]].
          - apply matches_Chr. by exists x.
          - rewrite E. by left. }
        by rewrite E2 in Hin.
Qed.

(** Two patterns that match at the same places are found in the same
    texts. *)
Lemma found_ext ic r1 r2 :
  (∀ prev s, matches ic r1 prev s = [] ↔ matches ic r2 prev s = []) →
  ∀ s prev, (search_from ic r1 prev s = None ↔ search_from ic r2 prev s = None).
Proof.
  intros H. induction s as [|x s IH]; intros prev;
    rewrite (search_from_eq ic r1 prev), (search_from_eq ic r2 prev).
  - specialize (H prev []). destruct (matches ic r1 prev []) as [|[[] ?] ?],
      (matches ic r2 prev []) as [|[[] ?] ?]; try done.
    + discriminate (proj1 H eq_refl).
    + discriminate (proj2 H eq_refl).
  - specialize (H prev (x :: s)). destruct (matches ic r1 prev (x :: s)) as [|[[] ?] ?],
      (matches ic r2 prev (x :: s)) as [|[[] ?] ?]; try done.
    + specialize (IH (Some x)).
      destruct (search_from ic r1 (Some x) s), (search_from ic r2 (Some x) s); cbn.
      * split; intros [=].
      * discriminate (proj2 IH eq_refl).
      * discriminate (proj1 IH eq_refl).
      * done.
    + discriminate (proj1 H eq_refl).
    + discriminate (proj2 H eq_refl).
Qed.

Lemma found_Lit u : ∀ s prev,
  search_from true (Lit u) prev s = None ↔ contains (lower u) (lower s) = false.
Proof.
  induction s as [|x s IH]; intros prev; rewrite search_from_eq.
  - pose proof (Lit_matches u prev []) as H. cbn [lower map contains] in *.
    rewrite orb_false_r.
    destruct (matches true (Lit u) prev []) as [|[[] ?] ?].
    + split; [|done]. intros _. destruct (startswith (lower u) []); [|done].
      by destruct (proj2 H eq_refl).
    + split; [done|]. intros E. rewrite E in H. by discriminate (proj1 H).
  - pose proof (Lit_matches u prev (x :: s)) as H.
    change (lower (x :: s)) with (lower_char x :: lower s) in *.
    cbn [contains].
    destruct (matches true (Lit u) prev (x :: s)) as [|[[] ?] ?].
    + destruct (startswith (lower u) (lower_char x :: lower s)); [by destruct (proj2 H eq_refl)|].
      cbn [orb]. rewrite <- (IH (Some x)).
      by destruct (search_from true (Lit u) (Some x) s).
    + split; [done|]. rewrite (proj1 H); done.
Qed.

(** [re.search(w, line, re.IGNORECASE)] for a literal [w] is
    [w.lower() in line.lower()]. *)
Lemma found_Str w s :
  PdfExtractor.found true (Str w) s = contains (lower (txt w)) (lower s).
Proof.
  unfold PdfExtractor.found, search, Str.
  pose proof (found_Lit (txt w) s None) as H.
  destruct (search_from true (Lit (txt w)) None s), (contains _ _); try done.
  - discriminate (proj2 H eq_refl).
  - discriminate (proj1 H eq_refl).
Qed.

Lemma matches_Seq_Opt ic r q prev s :
  matches ic (Seq r (Opt q)) prev s = [] ↔ matches ic r prev s = [].
Proof.
  split.
  - intros E. destruct (matches ic r prev s) as [|[[m c] rest] tl] eqn:E1; [done|].
    assert (In (m ++ [], [] ++ c, rest) (matches ic (Seq r (Opt q)) prev s)) as Hin.
    { apply matches_Seq. exists m, c, rest, [], []. split; [rewrite E1; by left|].
      split; [|done]. apply matches_Opt. by right. }
    by rewrite E in Hin.
  - apply seq_nil.
Qed.

Lemma found_Seq_Opt w q s :
  PdfExtractor.found true (Seq (Str w) (Opt q)) s = contains (lower (txt w)) (lower s).
Proof.
  rewrite <- found_Str. unfold PdfExtractor.found, search.
  pose proof (found_ext true _ _ (matches_Seq_Opt true (Str w) q) s None) as H.
  destruct (search_from true (Seq (Str w) (Opt q)) None s), (search_from true (Str w) None s);
    try done.
  - discriminate (proj2 H eq_refl).
  - discriminate (proj1 H eq_refl).
Qed.

(** ** The length of a match *)

Lemma min_len_ok ic : ∀ r prev s m c rest,
  In (m, c, rest) (matches ic r prev s) → min_len r ≤ length m.
Proof.
  induction r as [|a|p|r1 IH1 r2 IH2|r1 IH1 r2 IH2|r IH|n r IH|];
    intros prev s m c rest H; cbn [min_len].
  - by apply matches_Eps in H as [= -> _ _].
  - by apply matches_Chr in H as (x & _ & -> & _).
  - by apply matches_Cls in H as (x & _ & -> & _).
  - apply matches_Seq in H as (m1 & c1 & s1 & m2 & c2 & H1 & H2 & -> & _).
    apply IH1 in H1. apply IH2 in H2. rewrite length_app. lia.
  - apply matches_Alt in H as [H|H]; [apply IH1 in H|apply IH2 in H]; lia.
  - lia.
  - apply matches_Grp in H as (c' & H & _). by eapply IH.
  - lia.
Qed.

Lemma max_len_ok ic : ∀ r n prev s m c rest,
  max_len r = Some n → In (m, c, rest) (matches ic r prev s) → length m ≤ n.
Proof.
  induction r as [|a|p|r1 IH1 r2 IH2|r1 IH1 r2 IH2|r IH|k r IH|];
    intros n prev s m c rest E H; cbn [max_len] in E.
  - injection E as <-. by apply matches_Eps in H as [= -> _ _].
  - injection E as <-. by apply matches_Chr in H as (x & _ & -> & _).
  - injection E as <-. by apply matches_Cls in H as (x & _ & -> & _).
  - destruct (max_len r1) as [a|]; [|done]. destruct (max_len r2) as [b|]; [|done].
    injection E as <-.
    apply matches_Seq in H as (m1 & c1 & s1 & m2 & c2 & H1 & H2 & -> & _).
    apply (IH1 a) in H1; [|done]. apply (IH2 b) in H2; [|done]. rewrite length_app. lia.
  - destruct (max_len r1) as [a|]; [|done]. destruct (max_len r2) as [b|]; [|done].
    injection E as <-.
    apply matches_Alt in H as [H|H]; [apply (IH1 a) in H|apply (IH2 b) in H]; try done; lia.
  - done.
  - apply matches_Grp in H as (c' & H & _). by eapply IH.
  - injection E as <-. by apply matches_WordB in H as [= -> _ _].
Qed.

Lemma search_min_len ic r s M : search ic r s = Some M → min_len r ≤ length (m_text M).
Proof. intros [_ [prev H]]%search_In. by eapply min_len_ok. Qed.

Lemma search_max_len ic r n s M :
  max_len r = Some n → search ic r s = Some M → length (m_text M) ≤ n.
Proof. intros E [_ [prev H]]%search_In. by eapply max_len_ok. Qed.

End PartFacts.

Module CaptureFacts.
Import Text Regex Dom TextFacts RegexFacts ParserFacts FieldFacts Spec.
Import GroupFacts PartFacts.
#[local] Arguments matches : simpl never.
#[local] Arguments search : simpl never.

Lemma part_app_l x a b : part_of x a → part_of x (a ++ b).
Proof. intros (u & v & ->). exists u, (v ++ b). by rewrite <- !app_assoc. Qed.

Lemma part_app_r x a b : part_of x b → part_of x (a ++ b).
Proof. intros (u & v & ->). exists (a ++ u), v. by rewrite <- !app_assoc. Qed.

Lemma star_loop_caps step :
  (∀ prev s m c rest, In (m, c, rest) (step prev s) → ∀ x, In x c → part_of x.2 m) →
  ∀ fuel prev s m c rest, In (m, c, rest) (star_loop step fuel prev s) →
  ∀ x : nat * text, In x c → part_of x.2 m.
Proof.
  intros Hstep. induction fuel as [|fuel IH]; intros prev s m c rest H x Hx;
    apply star_loop_inv in H
      as [(-> & -> & _)|(f' & m1 & c1 & s1 & m2 & c2 & E & H1 & _ & H2 & -> & ->)];
    try done.
  injection E as <-. apply in_app_iff in Hx as [Hx|Hx].
  - apply part_app_r. by eapply IH.
  - apply part_app_l. by eapply Hstep.
Qed.

(** What a group holds is a part of what the pattern matched. *)
Lemma caps_part ic : ∀ r prev s m c rest,
  In (m, c, rest) (matches ic r prev s) → ∀ x, In x c → part_of x.2 m.
Proof.
  induction r as [|a|p|r1 IH1 r2 IH2|r1 IH1 r2 IH2|r IH|k r IH|];
    intros prev s m c rest H x Hx.
  - apply matches_Eps in H. by injection H as -> -> ->.
  - apply matches_Chr in H as (y & _ & _ & -> & _). done.
  - apply matches_Cls in H as (y & _ & _ & -> & _). done.
  - apply matches_Seq in H as (m1 & c1 & s1 & m2 & c2 & H1 & H2 & -> & ->).
    apply in_app_iff in Hx as [Hx|Hx].
    + apply part_app_r. by eapply IH2.
    + apply part_app_l. by eapply IH1.
  - apply matches_Alt in H as [H|H]; [by eapply IH1|by eapply IH2].
  - rewrite matches_Star in H. by eapply (star_loop_caps (matches ic r)).
  - apply matches_Grp in H as (c' & H & ->). destruct Hx as [<-|Hx].
    + apply part_refl.
    + by eapply IH.
  - apply matches_WordB in H. by injection H as -> -> ->.
Qed.

Lemma group_part ic r s M n g :
  search ic r s = Some M → group M n = Some g → part_of g (m_text M) ∧ part_of g s.
Proof.
  intros H Hg. pose proof (search_part _ _ _ _ H) as Hp.
  apply search_In in H as [_ [prev' H]]. apply lookup_group_In in Hg.
  pose proof (caps_part _ _ _ _ _ _ _ H _ Hg) as Hq. simpl in Hq.
  split; [done|]. by eapply part_trans.
Qed.

(** ** Characters every match holds *)

Lemma all_chars_In c : In c all_chars.
Proof.
  unfold all_chars. rewrite <- (ascii_nat_embedding c). apply in_map, in_seq.
  pose proof (nat_ascii_bounded c). lia.
Qed.

Lemma everywhere_ok p : everywhere p = true → ∀ c, p c = true.
Proof.
  unfold everywhere. rewrite forallb_forall. intros H c. apply H, all_chars_In.
Qed.

Lemma filter_length_app (P : ascii → bool) a b :
  length (List.filter P (a ++ b)) = length (List.filter P a) + length (List.filter P b).
Proof. by rewrite List.filter_app, length_app. Qed.

Lemma min_count_ok P : ∀ r prev s m c rest,
  In (m, c, rest) (matches false r prev s) → min_count P r ≤ length (List.filter P m).
Proof.
  induction r as [|a|p|r1 IH1 r2 IH2|r1 IH1 r2 IH2|r IH|n r IH|];
    intros prev s m c rest H; cbn [min_count]; try lia.
  - apply matches_Chr in H as (x & _ & -> & _ & Hx). simpl in Hx.
    apply Ascii.eqb_eq in Hx as ->. simpl. destruct (P a); simpl; lia.
  - apply matches_Cls in H as (x & _ & -> & _ & Hx).
    destruct (everywhere _) eqn:E; [|lia].
    pose proof (everywhere_ok _ E x) as Hi. unfold cls_ok in Hx.
    cbn [andb] in Hx. rewrite orb_false_r in Hx. cbv beta in Hi. rewrite Hx in Hi.
    cbn [implb] in Hi. cbn [List.filter]. rewrite Hi. simpl. lia.
  - apply matches_Seq in H as (m1 & c1 & s1 & m2 & c2 & H1 & H2 & -> & _).
    apply IH1 in H1. apply IH2 in H2. rewrite filter_length_app. lia.
  - apply matches_Alt in H as [H|H]; [apply IH1 in H|apply IH2 in H]; lia.
  - apply matches_Grp in H as (c' & H & _). by eapply IH.
Qed.

Lemma search_min_count P r s M :
  search false r s = Some M → min_count P r ≤ length (List.filter P (m_text M)).
Proof. intros [_ [prev H]]%search_In. by eapply min_count_ok. Qed.

End CaptureFacts.

Module DocumentFacts.
Import Text Regex Dom TextFacts RegexFacts ParserFacts FieldFacts Spec.
Import Spec.
Import GroupFacts PartFacts CaptureFacts CompanyFacts TotalFacts.
Import PdfExtractor.
#[local] Arguments matches : simpl never.
#[local] Arguments search : simpl never.

Lemma drop_last_two {A} : ∀ k (l : list A), length l = S (S k) →
  ∃ x y, drop k l = [x; y] ∧ l !! k = Some x ∧ l !! S k = Some y.
Proof.
  induction k as [|k IH]; intros l E.
  - destruct l as [|x [|y [|z l]]]; try done. by exists x, y.
  - destruct l as [|a l]; [done|]. injection E as E.
    destruct (IH l E) as (x & y & H1 & H2 & H3). by exists x, y.
Qed.

Lemma title_char_length c : 1 ≤ length (title_char c).
Proof. unfold title_char. destruct (_ =? _)%N; simpl; lia. Qed.

(** Title-casing never shortens a text. *)
Lemma title_from_length : ∀ s b, length s ≤ length (title_from b s).
Proof.
  induction s as [|c s IH]; intros b; [done|]. cbn [title_from].
  rewrite length_app. specialize (IH (is_cased c)).
  destruct b; [simpl; lia|]. pose proof (title_char_length c). simpl. lia.
Qed.

Lemma name_rule_bounds line name :
  name_rule line = Some name → 3 ≤ length name.
Proof.
  unfold name_rule. destruct (_ || _) eqn:E; [done|].
  apply orb_false_iff in E as [E1 E2].
  apply Nat.ltb_ge in E1. apply Nat.ltb_ge in E2.
  destruct (any_in _ _); [by intros [= <-]|].
  destruct (_ && _); [|done]. intros [= <-]. unfold title.
  pose proof (title_from_length line false). lia.
Qed.

(** The company name is never empty. *)
Lemma extract_company_name_bounds t :
  3 ≤ length (extract_company_name t).
Proof.
  unfold extract_company_name.
  destruct (first_some name_rule _) as [name|] eqn:E.
  - apply first_some_inv in E as (line & _ & E). by eapply name_rule_bounds.
  - destruct (find substantial _) as [line|] eqn:E2.
    + apply List.find_some in E2 as [_ E2]. unfold substantial in E2.
      apply andb_true_iff in E2 as [E3 E4].
      apply Nat.ltb_lt in E3. apply Nat.ltb_lt in E4. lia.
    + vm_compute. lia.
Qed.

Lemma company_text_loop_texts : ∀ pages company_text,
  Forall (fun page => ∃ t, extract_text page = Ok t) pages →
  ∃ t, company_text_loop pages company_text = Ok t.
Proof.
  induction pages as [|page pages IH]; intros company_text H; [by eexists|].
  apply Forall_cons in H as [[t Et] Hps]. cbn [company_text_loop]. rewrite Et.
  cbn [mbind exc_bind]. by apply IH.
Qed.

Lemma checked_texts pages (indices : list nat) :
  Forall (fun page => ∃ t, extract_text page = Ok t) pages →
  Forall (fun page => ∃ t, extract_text page = Ok t) (omap (fun i => pages !! i) indices).
Proof.
  intros H. apply List.Forall_forall. intros page Hp. apply list_elem_of_In in Hp.
  apply list_elem_of_omap in Hp as (i & _ & Hi).
  apply list_elem_of_lookup_2, list_elem_of_In in Hi.
  by apply (proj1 (List.Forall_forall _ _) H page Hi).
Qed.

(** ** The contact fields *)

Lemma count_In (P : ascii → bool) (s : text) :
  1 ≤ length (List.filter P s) → ∃ x, In x s ∧ P x = true.
Proof.
  destruct (List.filter P s) as [|x l] eqn:E; simpl; [lia|]. intros _.
  exists x. apply List.filter_In. rewrite E. by left.
Qed.

Lemma email_re_shape t M :
  search false email_re t = Some M →
  part_of (m_text M) t ∧ In "@"%char (m_text M) ∧ 6 ≤ length (m_text M).
Proof.
  intros H. split; [by eapply search_part|]. split.
  - pose proof (search_min_count (Ascii.eqb "@") _ _ _ H) as Hc.
    destruct (count_In (Ascii.eqb "@") (m_text M)) as (x & Hx & E); [exact Hc|].
    by apply Ascii.eqb_eq in E as <-.
  - exact (search_min_len _ _ _ _ H).
Qed.

Lemma email_search_shape t e :
  m_text <$> search false email_re t = Some e →
  part_of e t ∧ In "@"%char e ∧ 6 ≤ length e.
Proof.
  destruct (search false email_re t) as [M|] eqn:E; [|done]. intros [= <-].
  by apply email_re_shape.
Qed.

Lemma phone_pattern_shape pattern t M :
  In pattern (SimpleCrawler.phone_re :: phone_patterns) →
  search false pattern t = Some M →
  part_of (m_text M) t ∧ 10 ≤ digits_in (m_text M) ∧ length (m_text M) ≤ 19.
Proof.
  intros Hp H. split; [by eapply search_part|].
  pose proof (search_min_count is_digit _ _ _ H) as Hc. fold (digits_in (m_text M)) in Hc.
  destruct Hp as [<-|[<-|[<-|[]]]].
  - split; [exact Hc|]. eapply search_max_len; [|exact H]. reflexivity.
  - split; [|eapply search_max_len; [|exact H]; reflexivity].
    etransitivity; [|exact Hc]. apply Nat.leb_le. by vm_compute.
  - split; [exact Hc|].
    etransitivity; [eapply (search_max_len _ _ 12); [|exact H]; reflexivity|lia].
Qed.

Lemma address_pattern_shape patterns t a :
  first_some (fun pattern =>
                match search false pattern t with
                | Some m =>
                    let address := strip (m_text m) in
                    if (20 <? length address)%nat then Some address else None
                | None => None
                end) patterns = Some a →
  part_of a t ∧ strip a = a ∧ 20 < length a.
Proof.
  intros (pattern & _ & H)%first_some_inv.
  destruct (search false pattern t) as [M|] eqn:E; [|done]. cbv zeta in H.
  destruct (20 <? length (strip (m_text M)))%nat eqn:El; [|done]. injection H as <-.
  apply Nat.ltb_lt in El. split; [|split; [apply strip_idem|done]].
  eapply part_trans; [apply strip_part|by eapply search_part].
Qed.

End DocumentFacts.

Module DocumentProperties.
Import Text Regex Dom TextFacts RegexFacts ParserFacts FieldFacts Spec.
Import Spec.
Import GroupFacts PartFacts CaptureFacts CompanyFacts TotalFacts DocumentFacts.
Import Demo.
Import PdfExtractor.
#[local] Arguments matches : simpl never.
#[local] Arguments search : simpl never.

(** X1. The pages read for the company profile are the first three pages of
    the document and, after them, those of its last two pages that are not
    among the first three: no page is read twice, and at most five are. *)
Theorem profile_pages (pages : list Page) :
  NoDup (pages_to_check (length pages)) ∧
  omap (fun i => pages !! i) (pages_to_check (length pages))
  = take 3 pages ++ drop (Nat.max 3 (length pages - 2)) pages.
Proof.
  destruct pages as [|a [|b [|c [|d [|e rest]]]]];
    try (split; [by apply (bool_decide_unpack _)|reflexivity]).
  set (l := d :: e :: rest).
  change (length (a :: b :: c :: l)) with (S (S (S (S (S (length rest)))))).
  assert (pages_to_check (S (S (S (S (S (length rest))))))
          = [0; 1; 2; S (S (S (length rest))); S (S (S (S (length rest))))]) as -> by done.
  split.
  - repeat (apply NoDup_cons; split; [set_unfold; lia|]). apply NoDup_nil_2.
  - destruct (drop_last_two (length rest) l eq_refl) as (x & y & H1 & H2 & H3).
    cbn [omap list_omap]. change ((a :: b :: c :: l) !! 0) with (Some a).
    change ((a :: b :: c :: l) !! 1) with (Some b).
    change ((a :: b :: c :: l) !! 2) with (Some c).
    change ((a :: b :: c :: l) !! S (S (S (length rest)))) with (l !! length rest).
    change ((a :: b :: c :: l) !! S (S (S (S (length rest))))) with (l !! S (length rest)).
    rewrite H2, H3. cbn [take app]. do 3 f_equal.
    replace (Nat.max 3 (S (S (S (S (S (length rest))))) - 2)) with (S (S (S (length rest)))) by lia.
    by rewrite <- H1.
Qed.

(** X2. On pages that give their text, [extract_company_profile] replaces
    the company data by a dictionary of exactly seven keys; the company name
    in it is a string of at least 3 characters, the supplier type is
    Packaging, and the products are left as they were. *)
Theorem company_profile_fields (pages : list Page) (self : state) :
  Forall (fun page => ∃ t, extract_text page = Ok t) pages →
  ∃ self', extract_company_profile pages self = Ok self' ∧
    products_data self' = products_data self ∧
    dom (company_data self') = company_keys ∧
    (∃ name, company_data self' !! "companyName" = Some (PStr name)
             ∧ 3 ≤ length name) ∧
    company_data self' !! "supplierType" = Some (PStr (txt "Packaging")).
Proof.
  intros Hp. unfold extract_company_profile.
  destruct (company_text_loop_texts _ [] (checked_texts pages
              (pages_to_check (length pages)) Hp)) as [t ->].
  cbn [mbind exc_bind]. destruct (company_description_total t) as [o ->].
  cbn [mbind exc_bind mret exc_ret]. eexists. split; [reflexivity|].
  cbn [company_data products_data]. split; [done|]. split.
  { rewrite !dom_insert_L, dom_empty_L. unfold company_keys. cbn [list_to_set].
    set_solver. }
  split.
  - exists (extract_company_name t). rewrite lookup_insert_eq.
    split; [done|apply extract_company_name_bounds].
  - by repeat (rewrite lookup_insert_ne by done).
Qed.

Lemma company_profile_fields_witness :
  ∃ self', extract_company_profile jar_catalog init = Ok self' ∧
    products_data self' = products_data init ∧
    dom (company_data self') = company_keys ∧
    (∃ name, company_data self' !! "companyName" = Some (PStr name)
             ∧ 3 ≤ length name) ∧
    company_data self' !! "supplierType" = Some (PStr (txt "Packaging")).
Proof.
  apply (company_profile_fields jar_catalog init).
  repeat constructor; eexists; reflexivity.
Defined.

(** X3. An e-mail address that one of the three services extracts is a part
    of the text it was searched in, holds an at sign, and has at least six
    characters. *)
Theorem email_shape :
  (∀ t e, extract_email t = Some e →
          part_of e t ∧ In "@"%char e ∧ 6 ≤ length e) ∧
  (∀ soup e, SimpleCrawler.extract_email soup = Some e →
             part_of e (get_text soup) ∧ In "@"%char e ∧ 6 ≤ length e) ∧
  (∀ soup e, BulkCrawler.extract_email soup = Some e →
             part_of e (get_text soup) ∧ In "@"%char e ∧ 6 ≤ length e).
Proof.
  split; [|split]; intros t e H; by apply email_search_shape.
Qed.

Lemma email_shape_witness :
  part_of (txt "sales@acme.test") contact_block
  ∧ In "@"%char (txt "sales@acme.test") ∧ 6 ≤ length (txt "sales@acme.test").
Proof. apply (proj1 email_shape contact_block). vm_compute. reflexivity. Defined.

(** X4. A telephone number that one of the three services extracts is a
    part of the text it was searched in, holds at least ten digits, and has
    at most nineteen characters. *)
Theorem phone_shape :
  (∀ t p, extract_phone t = Some p →
          part_of p t ∧ 10 ≤ digits_in p ∧ length p ≤ 19) ∧
  (∀ soup p, SimpleCrawler.extract_phone soup = Some p →
             part_of p (get_text soup) ∧ 10 ≤ digits_in p ∧ length p ≤ 19) ∧
  (∀ soup p, BulkCrawler.extract_phone soup = Some p →
             part_of p (get_text soup) ∧ 10 ≤ digits_in p ∧ length p ≤ 19).
Proof.
  split; [|split].
  - intros t p (pattern & Hp & H)%first_some_inv.
    destruct (search false pattern t) as [M|] eqn:E; [|done]. injection H as <-.
    apply (phone_pattern_shape pattern); [by right|done].
  - intros soup p H. unfold SimpleCrawler.extract_phone in H.
    destruct (search false SimpleCrawler.phone_re _) as [M|] eqn:E; [|done].
    injection H as <-. apply (phone_pattern_shape SimpleCrawler.phone_re); [by left|done].
  - intros soup p H. unfold BulkCrawler.extract_phone in H.
    destruct (search false SimpleCrawler.phone_re _) as [M|] eqn:E; [|done].
    injection H as <-. apply (phone_pattern_shape SimpleCrawler.phone_re); [by left|done].
Qed.

Lemma phone_shape_witness :
  part_of (txt "+1 555-123-4567") contact_block
  ∧ 10 ≤ digits_in (txt "+1 555-123-4567") ∧ length (txt "+1 555-123-4567") ≤ 19.
Proof. apply (proj1 phone_shape contact_block). vm_compute. reflexivity. Defined.

(** X5. A web address that the document extractor returns begins with
    http: it is a part of the text that matched one of the three patterns, as
    it is when that part begins with http in lower case, and with https://
    put before it otherwise, also when the part begins with HTTP. *)
Theorem website_shape (t u : text) :
  extract_website t = Some u →
  startswith (txt "http") u = true ∧
  ∃ m, part_of m t ∧ m ≠ [] ∧
       u = if startswith (txt "http") m then m else txt "https://" ++ m.
Proof.
  intros (pattern & Hp & H)%first_some_inv.
  destruct (search true pattern t) as [M|] eqn:E; [|done]. cbv zeta in H.
  assert (u = if startswith (txt "http") (m_text M) then m_text M
              else txt "https://" ++ m_text M) as -> by congruence.
  clear H. split.
  - destruct (startswith (txt "http") (m_text M)) eqn:Es; [exact Es|reflexivity].
  - exists (m_text M). split; [by eapply search_part|]. split; [|done].
    eapply search_nonempty; [|exact E].
    by destruct Hp as [<-|[<-|[<-|[]]]].
Qed.

Lemma website_shape_witness :
  startswith (txt "http") (txt "https://HTTP://ACME.TEST/x") = true ∧
  ∃ m, part_of m (txt "see HTTP://ACME.TEST/x now") ∧ m ≠ [] ∧
       txt "https://HTTP://ACME.TEST/x"
       = if startswith (txt "http") m then m else txt "https://" ++ m.
Proof.
  apply (website_shape (txt "see HTTP://ACME.TEST/x now")). vm_compute. reflexivity.
Defined.

(** X6. An address that the document extractor or the simple crawler
    returns is a part of the text, has no white space at its ends, and has
    more than twenty characters. *)
Theorem address_shape :
  (∀ t a, extract_address t = Some a →
          part_of a t ∧ strip a = a ∧ 20 < length a) ∧
  (∀ soup a, SimpleCrawler.extract_address soup = Some a →
             part_of a (get_text soup) ∧ strip a = a ∧ 20 < length a).
Proof.
  split.
  - intros t a H. by eapply address_pattern_shape.
  - intros soup a H. by eapply address_pattern_shape.
Qed.

Lemma address_shape_witness :
  part_of (txt "Acme Packaging Ltd, 12 Mill Lane, Springfield 12345") contact_block
  ∧ strip (txt "Acme Packaging Ltd, 12 Mill Lane, Springfield 12345")
    = txt "Acme Packaging Ltd, 12 Mill Lane, Springfield 12345"
  ∧ 20 < length (txt "Acme Packaging Ltd, 12 Mill Lane, Springfield 12345").
Proof. apply (proj1 address_shape contact_block). vm_compute. reflexivity. Defined.

End DocumentProperties.

Module SectionFacts.
Import Text Regex Dom TextFacts RegexFacts ParserFacts FieldFacts PolicyFacts Spec.
Import Spec.
Import GroupFacts PartFacts CaptureFacts CompanyFacts TotalFacts DocumentFacts.
Import PipelineFacts TextPathFacts DedupFacts WebProductFacts.
Import PdfExtractor.
#[local] Arguments matches : simpl never.
#[local] Arguments search : simpl never.

(** ** The company description *)

Lemma about_loop_shape t d : ∀ patterns,
  about_loop patterns t = Ok (Some d) → part_of d t ∧ strip d = d ∧ 50 < length d.
Proof.
  induction patterns as [|pattern patterns IH]; [done|]. cbn [about_loop].
  destruct (search true pattern t) as [m|] eqn:E; [|done].
  destruct (group m 1) as [g|] eqn:Eg; [|done]. cbn [str_of mbind exc_bind].
  destruct (50 <? length (strip g))%nat eqn:El; [|done]. intros [= <-].
  apply Nat.ltb_lt in El. split; [|split; [apply strip_idem|done]].
  eapply part_trans; [apply strip_part|]. by eapply group_part.
Qed.

Lemma paragraph_part t d (test : text → bool) :
  find test (map strip (split false blank_line_re t)) = Some d →
  part_of d t ∧ strip d = d ∧ test d = true.
Proof.
  intros [Hin Ht]%List.find_some. apply in_map_iff in Hin as (piece & <- & Hin).
  split; [|split; [apply strip_idem|done]].
  eapply part_trans; [apply strip_part|by eapply split_part].
Qed.

(** ** The sections *)

Lemma split_all_part sections delimiter x :
  In x (split_all sections delimiter) → ∃ s, In s sections ∧ part_of x s.
Proof.
  unfold split_all. intros (s & Hs & Hx)%in_flat_map. exists s. split; [done|].
  by eapply split_part.
Qed.

Lemma cascade_part : ∀ ds sections x,
  In x (fold_left split_all ds sections) → ∃ s, In s sections ∧ part_of x s.
Proof.
  induction ds as [|d ds IH]; intros sections x H.
  - exists x. split; [done|apply part_refl].
  - apply IH in H as (s & Hs & Hx). apply split_all_part in Hs as (s0 & Hs0 & Hp).
    exists s0. split; [done|]. by eapply part_trans.
Qed.

(** ** The name of a product *)

Lemma skip_patterns_words line :
  existsb (fun r => found true r line) skip_patterns
  = found true page_number_re line || any_in skip_words (lower line).
Proof.
  unfold skip_patterns, any_in, skip_words. cbn [existsb].
  rewrite !found_Seq_Opt, !found_Str. reflexivity.
Qed.

Lemma product_indicators_words line :
  existsb (fun r => found true r line) product_indicators
  = any_in indicator_words (lower line).
Proof.
  unfold product_indicators, any_in, indicator_words. cbn [existsb map].
  rewrite !found_Str. reflexivity.
Qed.


(** ** Units *)








End SectionFacts.

Module SectionProperties.
Import Text Regex Dom TextFacts RegexFacts ParserFacts FieldFacts PolicyFacts Spec.
Import Spec.
Import GroupFacts PartFacts CaptureFacts CompanyFacts TotalFacts DocumentFacts SectionFacts.
Import PipelineFacts TextPathFacts DedupFacts WebProductFacts.
Import Demo.
Import PdfExtractor.
#[local] Arguments matches : simpl never.
#[local] Arguments search : simpl never.

(** X7. [extract_company_description] never raises, and a description it
    returns is a part of the text, has no white space at its ends, and has
    more than fifty characters. *)
Theorem company_description_shape (t : text) :
  ∃ o, extract_company_description t = Ok o ∧
       ∀ d, o = Some d → part_of d t ∧ strip d = d ∧ 50 < length d.
Proof.
  unfold extract_company_description.
  destruct (about_loop_total t about_patterns) as [o E]; [repeat constructor|].
  rewrite E. cbn [mbind exc_bind]. destruct o as [d0|].
  - eexists. split; [reflexivity|]. intros d [= <-]. by eapply about_loop_shape.
  - eexists. split; [reflexivity|]. intros d Hd.
    apply paragraph_part in Hd as (Hp & Hs & Ht).
    apply andb_true_iff in Ht as [[Ht _]%andb_true_iff _]. apply Nat.ltb_lt in Ht.
    repeat split; try done. lia.
Qed.

(** X8. Every section that [split_into_product_sections] returns is a part
    of the text, has no white space at its ends, and has more than fifty
    characters; a text of at most fifty characters has no section. *)
Theorem sections_shape (t : text) :
  Forall (fun s => part_of s t ∧ strip s = s ∧ 50 < length s)
         (split_into_product_sections t)
  ∧ (length t ≤ 50 → split_into_product_sections t = []).
Proof.
  assert (Forall (fun s => part_of s t ∧ strip s = s ∧ 50 < length s)
                 (split_into_product_sections t)) as H.
  { apply List.Forall_forall. intros x Hx. unfold split_into_product_sections in Hx.
    apply in_map_iff in Hx as (y & <- & Hy). apply List.filter_In in Hy as [Hy Hl].
    apply Nat.ltb_lt in Hl. apply cascade_part in Hy as (s & [<-|[]] & Hp).
    split; [|split; [apply strip_idem|done]].
    eapply part_trans; [apply strip_part|done]. }
  split; [done|]. intros Hl.
  destruct (split_into_product_sections t) as [|x l]; [done|].
  apply Forall_cons in H as [(Hp & _ & Hx) _]. apply part_length in Hp. lia.
Qed.

Lemma sections_shape_witness : split_into_product_sections (txt "Glass jar 250 ml") = [].
Proof. apply (proj2 (sections_shape (txt "Glass jar 250 ml"))). vm_compute. lia. Defined.

(** X9. A line of characters up to U+00FF is taken for a product name
    exactly when it has 3 to 100 characters, holds, whatever the case of its
    letters, none of the words to skip and no page number, and holds one of
    the twelve product words. *)
Theorem likely_product_name (line : text) :
  is_likely_product_name line = true ↔
  3 ≤ length line ≤ 100 ∧
  found true page_number_re line = false ∧
  any_in skip_words (lower line) = false ∧
  any_in indicator_words (lower line) = true.
Proof.
  unfold is_likely_product_name.
  rewrite skip_patterns_words, product_indicators_words.
  destruct (length line <? 3)%nat eqn:E1; [apply Nat.ltb_lt in E1|apply Nat.ltb_ge in E1].
  { cbn [orb]. split; [done|lia]. }
  destruct (100 <? length line)%nat eqn:E2; [apply Nat.ltb_lt in E2|apply Nat.ltb_ge in E2].
  { cbn [orb]. split; [done|lia]. }
  cbn [orb]. destruct (found true page_number_re line); cbn [orb].
  { split; [done|by intros (_ & ? & _)]. }
  destruct (any_in skip_words (lower line)).
  { split; [done|by intros (_ & _ & ? & _)]. }
  split; [intros ->; repeat split; done|by intros (_ & _ & _ & ?)].
Qed.



(** X12. A description that [extract_description_from_text] returns is a
    part of the section, has no white space at its ends, has at least fifty
    characters, and holds at most two of the five specification labels. *)
Theorem section_description_shape (t d : text) :
  extract_description_from_text t = Some d →
  part_of d t ∧ strip d = d ∧ 50 ≤ length d ∧ count_indicators d ≤ 2.
Proof.
  intros (Hp & Hs & Ht)%paragraph_part.
  apply andb_true_iff in Ht as [H1 H2].
  apply negb_true_iff, Nat.ltb_ge in H1. apply negb_true_iff, Nat.ltb_ge in H2.
  done.
Qed.

Lemma section_description_witness :
  part_of (txt "A clear glass jar with a wide mouth, made for jams and honey.") jar_section
  ∧ strip (txt "A clear glass jar with a wide mouth, made for jams and honey.")
    = txt "A clear glass jar with a wide mouth, made for jams and honey."
  ∧ 50 ≤ length (txt "A clear glass jar with a wide mouth, made for jams and honey.")
  ∧ count_indicators (txt "A clear glass jar with a wide mouth, made for jams and honey.") ≤ 2.
Proof. apply (section_description_shape jar_section). vm_compute. reflexivity. Defined.

End SectionProperties.

Module ListingFacts.
Import Text Regex Dom TextFacts RegexFacts ParserFacts FieldFacts PolicyFacts Spec.
Import Spec.
Import GroupFacts PartFacts CaptureFacts CompanyFacts TotalFacts DocumentFacts SectionFacts.
Import TableFacts PipelineFacts TextPathFacts DedupFacts.
Import PdfExtractor.
#[local] Arguments matches : simpl never.
#[local] Arguments search : simpl never.

(** ** The records of the text *)

(** The key of the deduplicator and of the text path, for a record that
    has a trimmed name, is the identity of the record. *)
Lemma trimmed_key p : trimmed_name p →
  lower_of (get_default p "productName" (PStr [])) = Ok (identity p) ∧ identity p ≠ [].
Proof.
  intros (n & Hn & Hne & Hst). unfold get_default, identity, name_of. rewrite Hn. simpl.
  rewrite Hst. split; [done|]. by destruct n.
Qed.

Lemma lower_names_spec : ∀ products, Forall trimmed_name products →
  ∃ names, lower_names products = Ok names ∧
           ∀ k, k ∈ names ↔ In k (map identity products).
Proof.
  induction products as [|p products IH]; intros H.
  - exists ∅. split; [done|]. intros k. split; [by intros ?%not_elem_of_empty|done].
  - apply Forall_cons in H as [Hp Hps]. cbn [lower_names].
    destruct (trimmed_key p Hp) as [-> _]. destruct (IH Hps) as (names & -> & Hn).
    cbn [mbind exc_bind mret exc_ret]. eexists. split; [reflexivity|].
    intros k. rewrite elem_of_union, elem_of_singleton, Hn. simpl. split.
    + intros [->|?]; [by left|by right].
    + intros [<-|?]; [by left|by right].
Qed.

Lemma trimmed_name_lower p : trimmed_name p →
  ∃ n, p !! "productName" = Some (PStr n) ∧ lower n = identity p ∧ n ≠ [].
Proof.
  intros (n & Hn & Hne & Hst). exists n. unfold identity, name_of.
  by rewrite Hn, Hst.
Qed.

Lemma add_section_append products section :
  Forall trimmed_name products →
  ∃ new, add_section products section = Ok (products ++ new) ∧
         Forall trimmed_name new ∧ length new ≤ 1 ∧
         ∀ p, In p new → ¬ In (identity p) (map identity products).
Proof.
  intros Hs. unfold add_section.
  destruct (text_section_total section) as [o E]. rewrite E. cbn [mbind exc_bind].
  destruct o as [p|].
  2:{ exists []. rewrite app_nil_r. repeat split; try done. simpl. lia. }
  apply text_section_stored in E as [E _].
  destruct (trimmed_name_lower p E) as (n & Hn & Hid & Hne).
  destruct (negb (bool_decide (p = ∅)) && truthy (get p "productName")).
  2:{ exists []. rewrite app_nil_r. repeat split; try done. simpl. lia. }
  destruct (lower_names_spec products Hs) as (names & -> & Hnames).
  rewrite Hn. cbn [mbind exc_bind lower_of]. rewrite Hid.
  destruct (bool_decide (identity p ∈ names)) eqn:Eb.
  - exists []. rewrite app_nil_r. repeat split; try done. simpl. lia.
  - apply bool_decide_eq_false in Eb. exists [p]. split; [done|].
    split; [by constructor|]. split; [simpl; lia|].
    intros q [<-|[]] Hin. by apply Eb, Hnames.
Qed.

Lemma add_sections_append : ∀ sections products,
  Forall trimmed_name products →
  ∃ new, add_sections sections products = Ok (products ++ new) ∧
         Forall trimmed_name new ∧ length new ≤ length sections ∧
         NoDup (map identity new) ∧
         ∀ p, In p new → ¬ In (identity p) (map identity products).
Proof.
  induction sections as [|s sections IH]; intros products Hs.
  - exists []. rewrite app_nil_r. split; [done|]. split; [done|]. split; [simpl; lia|].
    split; [constructor|done].
  - cbn [add_sections].
    destruct (add_section_append products s Hs) as (new1 & -> & Hs1 & Hl1 & Hn1).
    cbn [mbind exc_bind].
    destruct (IH (products ++ new1)) as (new2 & -> & Hs2 & Hl2 & Hd2 & Hn2).
    { by apply Forall_app. }
    exists (new1 ++ new2). rewrite app_assoc. split; [done|].
    split; [by apply Forall_app|]. split; [rewrite length_app; simpl; lia|].
    split.
    + rewrite map_app. apply NoDup_app. split; [|split; [|done]].
      * destruct new1 as [|a [|b new1]]; [constructor|apply NoDup_singleton|simpl in Hl1; lia].
      * intros k Hk1 Hk2. apply list_elem_of_In, in_map_iff in Hk2 as (q & <- & Hq).
        apply (Hn2 q Hq). rewrite map_app. apply in_or_app. right.
        by apply list_elem_of_In.
    + intros p [Hp|Hp]%in_app_iff; [by apply Hn1|].
      intros Hin. apply (Hn2 p Hp). rewrite map_app. apply in_or_app. by left.
Qed.

(** ** The loop that removes the duplicates *)

Lemma dedup_loop_first : ∀ products seen unique,
  Forall trimmed_name products →
  ∃ kept, dedup_loop products seen unique = Ok (unique ++ kept) ∧
          sublist kept products ∧
          (∀ p, In p products → identity p ∈ seen ∨ In (identity p) (map identity kept)) ∧
          (∀ p, In p kept →
                (identity p ∉ seen) ∧
                ∃ l1 l2, products = l1 ++ p :: l2 ∧ ∀ q, In q l1 → identity q ≠ identity p).
Proof.
  induction products as [|p0 products IH]; intros seen unique H.
  - exists []. rewrite app_nil_r. repeat split; try done.
  - apply Forall_cons in H as [Hp Hps]. cbn [dedup_loop].
    destruct (trimmed_key p0 Hp) as [-> Hk]. cbn [mbind exc_bind].
    assert (match identity p0 with [] => false | _ :: _ => true end = true) as ->
      by (clear -Hk; by destruct (identity p0)).
    cbn [andb]. destruct (bool_decide (identity p0 ∈ seen)) eqn:Eb; cbn [negb].
    + apply bool_decide_eq_true in Eb.
      destruct (IH seen unique Hps) as (kept & -> & Hsub & Hcov & Hfirst).
      exists kept. split; [done|]. split; [by apply sublist_cons|]. split.
      * intros p [<-|Hin]; [by left|by apply Hcov].
      * intros p Hin. destruct (Hfirst p Hin) as (Hns & l1 & l2 & -> & Hl1).
        split; [done|]. exists (p0 :: l1), l2. split; [done|].
        intros q [<-|Hq]; [|by apply Hl1]. intros E. apply Hns. by rewrite <- E.
    + apply bool_decide_eq_false in Eb.
      destruct (IH ({[identity p0]} ∪ seen) (unique ++ [p0]) Hps)
        as (kept & -> & Hsub & Hcov & Hfirst).
      exists (p0 :: kept). rewrite <- app_assoc. split; [done|].
      split; [by apply sublist_skip|]. split.
      * intros p [<-|Hin]; [right; by left|].
        destruct (Hcov p Hin) as [[->%elem_of_singleton|?]%elem_of_union|?].
        -- right. by left.
        -- by left.
        -- right. by right.
      * intros p [<-|Hin].
        -- split; [done|]. by exists [], products.
        -- destruct (Hfirst p Hin) as (Hns & l1 & l2 & -> & Hl1).
           split; [intros ?; apply Hns, elem_of_union; by right|].
           exists (p0 :: l1), l2. split; [done|].
           intros q [<-|Hq]; [|by apply Hl1]. intros E. apply Hns, elem_of_union. left.
           by apply elem_of_singleton.
Qed.

(** ** Pages that cannot be read *)



(** ** The scan of a table *)

Lemma header_of_nonempty row : nonempty_row row = true → header_of row ≠ [].
Proof. by destruct row. Qed.

Lemma scan_rows_data : ∀ rows headers data_rows, headers ≠ [] →
  fold_left scan_row rows (headers, data_rows)
  = (headers, data_rows ++ List.filter nonempty_row rows).
Proof.
  induction rows as [|row rows IH]; intros headers data_rows Hh.
  - by rewrite app_nil_r.
  - cbn [fold_left List.filter]. unfold scan_row at 2.
    destruct (nonempty_row row).
    + destruct headers as [|h hs]; [done|]. rewrite IH by done. by rewrite <- app_assoc.
    + by rewrite IH.
Qed.

Lemma scan_table_header blanks h rest :
  Forall (fun row => nonempty_row row = false) blanks → nonempty_row h = true →
  scan_table (blanks ++ h :: rest) = (header_of h, List.filter nonempty_row rest).
Proof.
  intros Hb Hh. unfold scan_table. rewrite fold_left_app.
  assert (fold_left scan_row blanks ([], []) = ([], [])) as ->.
  { induction Hb as [|row blanks Hrow Hb IH]; [done|]. cbn [fold_left].
    unfold scan_row at 2. by rewrite Hrow. }
  cbn [fold_left]. unfold scan_row at 2. rewrite Hh.
  rewrite scan_rows_data by by apply header_of_nonempty. done.
Qed.

End ListingFacts.

Module ListingProperties.
Import Text Regex Dom TextFacts RegexFacts ParserFacts FieldFacts PolicyFacts Spec.
Import Spec.
Import GroupFacts PartFacts CaptureFacts CompanyFacts TotalFacts DocumentFacts SectionFacts.
Import TableFacts PipelineFacts TextPathFacts DedupFacts ListingFacts.
Import Demo.
Import PdfExtractor.
#[local] Arguments matches : simpl never.
#[local] Arguments search : simpl never.

(** X13. On a text in which no run of digits is longer than 4300 and on
    records that each have a trimmed name, [extract_products_from_text] does
    not raise and only appends: the records it was given stay where they are,
    every record it adds has a trimmed name, and no record it adds has the
    name, in lower case, of a record it was given or of another record it
    adds. *)
Theorem text_records_appended (t : text) (products : list dict) :
  short_digits t = true →
  Forall trimmed_name products →
  ∃ new, extract_products_from_text t products = Ok (products ++ new) ∧
         Forall trimmed_name new ∧ NoDup (map identity new) ∧
         ∀ p, In p new → ¬ In (identity p) (map identity products).
Proof.
  intros _ Hs. unfold extract_products_from_text.
  destruct (add_sections_append (split_into_product_sections t) products Hs)
    as (new & E & H1 & _ & H2 & H3).
  by exists new.
Qed.

Lemma text_records_appended_witness :
  ∃ new, extract_products_from_text jar_section [named_record "Glass jar 250 ML"]
         = Ok ([named_record "Glass jar 250 ML"] ++ new) ∧
         Forall trimmed_name new ∧ NoDup (map identity new) ∧
         ∀ p, In p new → ¬ In (identity p) (map identity [named_record "Glass jar 250 ML"]).
Proof.
  apply (text_records_appended jar_section [named_record "Glass jar 250 ML"]).
  - vm_compute. reflexivity.
  - repeat constructor.
    exists (txt "Glass jar 250 ML"). split; [reflexivity|]. split; [discriminate|].
    vm_compute. reflexivity.
Defined.


(** X15. On records that each have a trimmed name, the loop that removes
    the duplicates does not raise; it keeps the records in their order, keeps
    for every name the first record that has it, in lower case, and drops
    only records whose name an earlier record has. *)
Theorem duplicates_keep_first (products : list dict) :
  Forall trimmed_name products →
  ∃ out, dedup_loop products ∅ [] = Ok out ∧ sublist out products ∧
         (∀ p, In p products → In (identity p) (map identity out)) ∧
         (∀ p, In p out →
               ∃ l1 l2, products = l1 ++ p :: l2 ∧
                        ∀ q, In q l1 → identity q ≠ identity p).
Proof.
  intros Hs. destruct (dedup_loop_first products ∅ [] Hs) as (kept & E & H1 & H2 & H3).
  exists kept. split; [done|]. split; [done|]. split.
  - intros p Hp. by destruct (H2 p Hp) as [?%not_elem_of_empty|?].
  - intros p Hp. by destruct (H3 p Hp) as [_ ?].
Qed.

Lemma duplicates_keep_first_witness :
  ∃ out, dedup_loop [named_record "Glass Jar"; named_record "GLASS JAR"] ∅ [] = Ok out ∧
         sublist out [named_record "Glass Jar"; named_record "GLASS JAR"] ∧
         (∀ p, In p [named_record "Glass Jar"; named_record "GLASS JAR"] →
               In (identity p) (map identity out)) ∧
         (∀ p, In p out →
               ∃ l1 l2, [named_record "Glass Jar"; named_record "GLASS JAR"] = l1 ++ p :: l2 ∧
                        ∀ q, In q l1 → identity q ≠ identity p).
Proof.
  apply (duplicates_keep_first [named_record "Glass Jar"; named_record "GLASS JAR"]).
  repeat constructor.
  - exists (txt "Glass Jar"). split; [reflexivity|]. split; [discriminate|].
    vm_compute. reflexivity.
  - exists (txt "GLASS JAR"). split; [reflexivity|]. split; [discriminate|].
    vm_compute. reflexivity.
Defined.

(** X16. In a table of at least two rows, the first row that has a cell
    with text is the header, in lower case, and exactly the later rows that
    have a cell with text are read as data rows, in their order; a table
    whose rows have no text adds no record. *)
Theorem table_header_scan (blanks : list (list cell)) (h : list cell)
  (rest : list (list cell)) (products : list dict) :
  Forall (fun row => nonempty_row row = false) blanks →
  (nonempty_row h = true → 2 ≤ length (blanks ++ h :: rest) →
   process_product_table (blanks ++ h :: rest) products
   = add_rows (header_of h) (List.filter nonempty_row rest) products)
  ∧ process_product_table blanks products = Ok products.
Proof.
  intros Hb. split.
  - intros Hh Hl. unfold process_product_table.
    apply Nat.ltb_ge in Hl. rewrite Hl. by rewrite scan_table_header.
  - unfold process_product_table. destruct (length blanks <? 2)%nat; [done|].
    assert (scan_table blanks = ([], [])) as ->; [|done].
    unfold scan_table. induction Hb as [|row blanks Hrow Hb IH]; [done|].
    cbn [fold_left]. unfold scan_row at 2. by rewrite Hrow.
Qed.

Lemma table_header_scan_witness :
  process_product_table ([[None]] ++ [some_cell "Name"] :: [[None]; [some_cell "Glass Jar"]]) []
  = add_rows (header_of [some_cell "Name"])
             (List.filter nonempty_row [[None]; [some_cell "Glass Jar"]]) [].
Proof.
  apply (table_header_scan [[None]] [some_cell "Name"] [[None]; [some_cell "Glass Jar"]] []).
  - repeat constructor.
  - reflexivity.
  - simpl. lia.
Defined.

End ListingProperties.

Module PageFacts.
Import Text Regex Dom TextFacts RegexFacts ParserFacts FieldFacts PolicyFacts.
Import Spec.
Import GroupFacts PartFacts CaptureFacts TotalFacts.
Import WebProductFacts CrawlFacts CompanyFacts SessionFacts.
Import SimpleCrawler.
#[local] Arguments matches : simpl never.
#[local] Arguments search : simpl never.

(** ** The specifications never raise *)

Lemma parse_weight_total value specs : ∃ specs', parse_weight value specs = Ok specs'.
Proof.
  rewrite web_parse_weight_eq.
  destruct (field_parser_shape weight_unit_names "weight" "weight_unit" "g" specs value
              plain_weight) as [->|(w & u & -> & _)]; [by left| |]; eauto.
Qed.

Lemma parse_capacity_total value specs : ∃ specs', parse_capacity value specs = Ok specs'.
Proof.
  rewrite web_parse_capacity_eq.
  destruct (field_parser_shape capacity_unit_names "capacity" "capacity_unit" "ml" specs value
              plain_capacity) as [->|(w & u & -> & _)]; [by left| |]; eauto.
Qed.

Lemma parse_spec_value_total key value specs :
  ∃ specs', parse_spec_value key value specs = Ok specs'.
Proof.
  unfold parse_spec_value.
  destruct (contains (txt "material") key); [by eexists|].
  destruct (contains (txt "weight") key); [apply parse_weight_total|].
  destruct (_ || _); [apply parse_capacity_total|].
  destruct (_ || _); [by eexists|].
  destruct (_ || _); [by eexists|].
  destruct (contains (txt "recycle") key); [|by eexists].
  destruct (web_percentage value) as (o & -> & _). by eexists.
Qed.

Lemma rows_loop_total : ∀ rows specs, ∃ specs', rows_loop rows specs = Ok specs'.
Proof.
  induction rows as [|cells rows IH]; intros specs; [by eexists|]. cbn [rows_loop].
  destruct cells as [|k [|v cells]]; cbn [mbind exc_bind mret exc_ret]; try apply IH.
  destruct (parse_spec_value_total (lower (el_text_strip k)) (el_text_strip v) specs)
    as [s1 ->].
  apply IH.
Qed.

Lemma tables_loop_total : ∀ ts specs, ∃ specs', tables_loop ts specs = Ok specs'.
Proof.
  induction ts as [|rows ts IH]; intros specs; [by eexists|]. cbn [tables_loop].
  destruct (rows_loop_total rows specs) as [s1 ->]. apply IH.
Qed.

Lemma terms_loop_total : ∀ terms values specs,
  ∃ specs', terms_loop terms values specs = Ok specs'.
Proof.
  induction terms as [|term terms IH]; intros values specs; [by eexists|].
  destruct values as [|value values]; [by eexists|]. cbn [terms_loop].
  destruct (parse_spec_value_total (lower (el_text_strip term)) (el_text_strip value) specs)
    as [s1 ->].
  apply IH.
Qed.

Lemma dls_loop_total : ∀ ds specs, ∃ specs', dls_loop ds specs = Ok specs'.
Proof.
  induction ds as [|[terms values] ds IH]; intros specs; [by eexists|]. cbn [dls_loop].
  destruct (terms_loop_total terms values specs) as [s1 ->]. apply IH.
Qed.

(** One step of [extract_specs_from_text]: a value and its unit, written
    unless the value is there. *)
Lemma text_step (r : regex) (vkey ukey : string) (t : text) (specs : dict) :
  always_binds r 1 = true → always_binds r 2 = true → groups_of r 1 = [number] →
  vkey ≠ ukey →
  ∃ specs' : dict,
    (match search true r t with
     | Some m =>
         if bool_decide (is_Some (specs !! vkey)) then mret specs
         else
           w ← float_of (group m 1);
           u ← PdfExtractor.str_of (group m 2);
           mret (<[ukey := PStr (lower u)]> (<[vkey := PFloat w]> specs))
     | None => mret specs
     end : exc dict) = Ok specs' ∧
    (is_Some (specs !! vkey) → specs' = specs) ∧
    ∀ k, k ≠ vkey → k ≠ ukey → specs' !! k = specs !! k.
Proof.
  intros B1 B2 G1 Hne. destruct (search true r t) as [m|] eqn:E; [|by exists specs].
  destruct (bool_decide (is_Some (specs !! vkey))) eqn:Eb; [by exists specs|].
  apply bool_decide_eq_false in Eb.
  destruct (float_step _ _ _ _ 1 E B1 G1) as [w ->].
  destruct (str_step _ _ _ _ 2 E B2) as [u ->]. cbn [mbind exc_bind mret exc_ret].
  eexists. split; [reflexivity|]. split; [done|].
  intros k H1 H2. by rewrite !lookup_insert_ne.
Qed.

Lemma specs_from_text_keeps t specs :
  ∃ specs', extract_specs_from_text t specs = Ok specs' ∧
    (is_Some (specs !! "weight") →
     specs' !! "weight" = specs !! "weight"
     ∧ specs' !! "weight_unit" = specs !! "weight_unit") ∧
    (is_Some (specs !! "capacity") →
     specs' !! "capacity" = specs !! "capacity"
     ∧ specs' !! "capacity_unit" = specs !! "capacity_unit") ∧
    ∀ k, ¬ In k text_spec_keys → specs' !! k = specs !! k.
Proof.
  unfold extract_specs_from_text.
  destruct (text_step weight_text_re "weight" "weight_unit" t specs
              eq_refl eq_refl eq_refl) as (s1 & -> & Hk1 & Ho1); [done|].
  cbn [mbind exc_bind].
  destruct (text_step capacity_text_re "capacity" "capacity_unit" t s1
              eq_refl eq_refl eq_refl) as (s2 & -> & Hk2 & Ho2); [done|].
  exists s2. split; [done|]. split; [|split].
  - intros Hw. rewrite !Ho2 by done. by rewrite (Hk1 Hw).
  - intros Hc. rewrite <- (Ho1 "capacity") in Hc by done. rewrite (Hk2 Hc).
    by rewrite !Ho1.
  - intros k Hk. rewrite Ho2, Ho1; [done| | | |];
      intros ->; apply Hk; simpl; tauto.
Qed.

Lemma extract_specifications_total soup : ∃ specs, extract_specifications soup = Ok specs.
Proof.
  unfold extract_specifications.
  destruct (tables_loop_total (tables soup) ∅) as [s1 ->]. cbn [mbind exc_bind].
  destruct (dls_loop_total (dls soup) s1) as [s2 ->]. cbn [mbind exc_bind].
  destruct (specs_from_text_keeps (get_text soup) s2) as (s3 & -> & _). by eexists.
Qed.

End PageFacts.

Module CrawlerFacts.
Import Text Regex Dom TextFacts RegexFacts ParserFacts FieldFacts PolicyFacts.
Import Spec.
Import GroupFacts PartFacts CaptureFacts TotalFacts PageFacts.
Import WebProductFacts CrawlFacts CompanyFacts SessionFacts.
Import SimpleCrawler.
#[local] Arguments matches : simpl never.
#[local] Arguments search : simpl never.

(** ** Images *)

Lemma images_loop_valid W base_url : ∀ imgs acc,
  Forall (fun u => is_valid_image_url u = true) acc →
  Forall (fun u => is_valid_image_url u = true) (images_loop W base_url imgs acc).
Proof.
  induction imgs as [|img imgs IH]; intros acc Hacc; cbn [images_loop]; [done|].
  destruct (match attr img "src" with Some src => Some src | None => attr img "data-src" end)
    as [src|]; [|by apply IH].
  destruct (urljoin W base_url src) as [full|]; [|done].
  apply IH. destruct (is_valid_image_url full) eqn:E; [|done].
  apply Forall_app. split; [done|]. by constructor.
Qed.

Lemma image_selectors_valid W soup base_url selectors : ∀ acc,
  Forall (fun u => is_valid_image_url u = true) acc →
  Forall (fun u => is_valid_image_url u = true)
         (fold_left (fun acc selector =>
                       match select soup selector with
                       | Ok imgs => images_loop W base_url imgs acc
                       | Raise _ => acc
                       end) selectors acc).
Proof.
  induction selectors as [|sel selectors IH]; intros acc Hacc; cbn [fold_left]; [done|].
  apply IH. destruct (select soup sel); [|done]. by apply images_loop_valid.
Qed.

Lemma valid_image_ending u :
  is_valid_image_url u = true ↔
  ∃ ext a, In ext image_extensions ∧ lower u = a ++ txt ext.
Proof.
  unfold is_valid_image_url. rewrite existsb_exists. split.
  - intros (ext & Hin & (a & E)%endswith_app). by exists ext, a.
  - intros (ext & a & Hin & E). exists ext. split; [done|]. apply endswith_app. by exists a.
Qed.

Lemma images_shape W soup base_url :
  set_order_ok W →
  NoDup (extract_product_images W soup base_url) ∧
  length (extract_product_images W soup base_url) ≤ 5 ∧
  Forall (fun u => is_valid_image_url u = true) (extract_product_images W soup base_url).
Proof.
  intros HW. unfold extract_product_images.
  set (l := fold_left _ image_selectors []). destruct (HW l) as [Hnd Hin].
  split; [by apply take_NoDup|]. split; [rewrite length_take; lia|].
  apply List.Forall_forall. intros u Hu. apply TextPathFacts.In_take, Hin in Hu.
  assert (Forall (fun u => is_valid_image_url u = true) l) as Hl
    by (apply image_selectors_valid; constructor).
  by apply (proj1 (List.Forall_forall _ _) Hl).
Qed.

Lemma tail_images (l : list text) :
  length l ≤ 5 → (if (1 <? length l)%nat then take 4 (drop 1 l) else []) = drop 1 l.
Proof.
  intros H. destruct (1 <? length l)%nat eqn:E.
  - apply take_ge. rewrite length_drop. lia.
  - apply Nat.ltb_ge in E. by destruct l as [|a [|b l]]; [| |simpl in E; lia].
Qed.

Lemma images_length W soup base_url : length (extract_product_images W soup base_url) ≤ 5.
Proof. unfold extract_product_images. rewrite length_take. lia. Qed.

(** ** A product page *)

Lemma visit_product_products W self link :
  ∃ new, products_data (visit_product W self link) = products_data self ++ new ∧
         length new ≤ 1 ∧
         (∀ p, In p new → p !! "sourceUrl" = Some (PStr link)
                          ∧ In link (requested (visit_product W self link))) ∧
         ∃ more, requested (visit_product W self link) = requested self ++ more.
Proof.
  unfold visit_product. destruct (bool_decide (link ∈ visited_urls self)).
  { exists []. rewrite !app_nil_r. repeat split; try done; [simpl; lia|].
    exists []. by rewrite app_nil_r. }
  unfold crawl_product_page, session_get. cbn [fst snd].
  destruct (http_get W _ link) as [soup|e].
  2:{ exists []. rewrite !app_nil_r. repeat split; try done; [simpl; lia|]. by exists [link]. }
  destruct (extract_product_data W soup link) as [[p|]|e] eqn:E.
  2,3: exists []; rewrite !app_nil_r; repeat split; try done; [simpl; lia|]; by exists [link].
  destruct (_ && _).
  2:{ exists []. rewrite !app_nil_r. repeat split; try done; [simpl; lia|]. by exists [link]. }
  exists [p]. cbn [products_data add_product requested]. split; [done|]. split; [simpl; lia|].
  split; [|by exists [link]]. intros q [<-|[]]. split.
  - unfold extract_product_data in E.
    destruct (extract_by_selectors soup name_selectors); [|done].
    destruct (extract_specifications soup); [|done].
    cbn [mbind exc_bind mret exc_ret] in E. injection E as <-.
    by do 13 (rewrite lookup_insert_ne by done); rewrite lookup_insert_eq.
  - apply in_or_app. right. by left.
Qed.

Lemma product_phase_products W : ∀ links self,
  ∃ new, products_data (fold_left (visit_product W) links self)
         = products_data self ++ new ∧
         length new ≤ length links ∧
         (∀ p, In p new → ∃ u, p !! "sourceUrl" = Some (PStr u) ∧ In u links
                               ∧ In u (requested (fold_left (visit_product W) links self))) ∧
         ∃ more, requested (fold_left (visit_product W) links self) = requested self ++ more.
Proof.
  induction links as [|link links IH]; intros self; cbn [fold_left].
  - exists []. rewrite app_nil_r. repeat split; try done. exists []. by rewrite app_nil_r.
  - destruct (visit_product_products W self link) as (n1 & E1 & L1 & S1 & m1 & R1).
    destruct (IH (visit_product W self link)) as (n2 & E2 & L2 & S2 & m2 & R2).
    exists (n1 ++ n2). rewrite E2, E1, <- app_assoc. split; [done|].
    split; [rewrite length_app; simpl; lia|]. split.
    + intros p [Hp|Hp]%in_app_iff.
      * destruct (S1 p Hp) as [Hs Hr]. exists link. split; [done|]. split; [by left|].
        rewrite R2. apply in_or_app. by left.
      * destruct (S2 p Hp) as (u & Hs & Hu & Hr). exists u. split; [done|].
        split; [by right|done].
    + exists (m1 ++ m2). by rewrite R2, R1, <- app_assoc.
Qed.

(** ** Links *)

Lemma links_loop_from W self keep : ∀ links acc u,
  In u (links_loop W self keep links acc) →
  In u acc ∨
  ∃ link href, In link links ∧ attr link "href" = Some href ∧ keep href = true
               ∧ urljoin W (start_url self) href = Ok u.
Proof.
  induction links as [|link links IH]; intros acc u H; cbn [links_loop] in H; [by left|].
  destruct (attr link "href") as [href|] eqn:Ea.
  2:{ apply IH in H as [H|(l & h & Hl & H)]; [by left|right]. exists l, h. split; [by right|done]. }
  destruct (keep href) eqn:Ek.
  2:{ apply IH in H as [H|(l & h & Hl & H)]; [by left|right]. exists l, h. split; [by right|done]. }
  destruct (urljoin W (start_url self) href) as [full|] eqn:Eu; [|by left].
  apply IH in H as [H|(l & h & Hl & H)].
  - destruct (is_same_domain W self full); [|by left].
    apply in_app_iff in H as [H|[<-|[]]]; [by left|right].
    exists link, href. split; [by left|done].
  - right. exists l, h. split; [by right|done].
Qed.

Lemma selectors_loop_from W self keep soup : ∀ selectors u,
  In u (selectors_loop W self keep soup selectors) →
  ∃ selector links link href,
    In selector selectors ∧ select soup selector = Ok links ∧ In link links ∧
    attr link "href" = Some href ∧ keep href = true ∧
    urljoin W (start_url self) href = Ok u.
Proof.
  unfold selectors_loop. intros selectors u.
  assert (∀ acc, In u (fold_left (fun acc selector =>
                         match select soup selector with
                         | Ok links => links_loop W self keep links acc
                         | Raise _ => acc
                         end) selectors acc) →
          In u acc ∨ ∃ selector links link href,
            In selector selectors ∧ select soup selector = Ok links ∧ In link links ∧
            attr link "href" = Some href ∧ keep href = true ∧
            urljoin W (start_url self) href = Ok u) as H.
  { induction selectors as [|sel selectors IH]; intros acc H; cbn [fold_left] in H; [by left|].
    apply IH in H as [H|(s & ls & l & h & Hs & H)].
    - destruct (select soup sel) as [links|] eqn:Es; [|by left].
      apply links_loop_from in H as [H|(l & h & Hl & H)]; [by left|right].
      exists sel, links, l, h. split; [by left|done].
    - right. exists s, ls, l, h. split; [by right|done]. }
  intros Hu. by apply H in Hu as [[]|Hu].
Qed.

Lemma remove_dups_set_order W : list_set W = remove_dups → set_order_ok W.
Proof.
  intros E l. rewrite E. split; [apply NoDup_remove_dups|].
  intros x. rewrite <- !list_elem_of_In. apply elem_of_remove_dups.
Qed.

(** ** A company page *)

Lemma fills_other email address phone d k :
  ¬ In k page_keys → fills email address phone d !! k = d !! k.
Proof.
  intros Hk. unfold fills. rewrite !fill_other; [done| | |]; intros ->; apply Hk; simpl; tauto.
Qed.

Lemma update_company_description soup d s :
  d !! "description" = Some (PStr s) →
  ∃ s', (update_company soup d).1 !! "description" = Some (PStr s')
        ∧ (s' = s ∨ length s < length s').
Proof.
  intros Hd. unfold update_company.
  fold (fills (extract_email soup) (extract_address soup) (extract_phone soup) d).
  pose proof (fills_description (extract_email soup) (extract_address soup)
                (extract_phone soup) d) as Hf. rewrite Hd in Hf.
  destruct (extract_description soup) as [[[|c ds]|]|];
    try (exists s; split; [exact Hf|by left]).
  unfold get_default. rewrite Hf. cbn [py_len].
  destruct (length s <? length (c :: ds))%nat eqn:El.
  - apply Nat.ltb_lt in El. exists (c :: ds). cbn [fst]. rewrite lookup_insert_eq.
    split; [done|by right].
  - exists s. split; [exact Hf|by left].
Qed.

Lemma product_data_shape (W : World) (soup : Soup) (url : text) :
  ∃ o, extract_product_data W soup url = Ok o ∧
       match extract_by_selectors soup name_selectors with
       | None => o = None
       | Some name =>
           2 < length name ∧
           ∃ p, o = Some p ∧ dom p = product_keys ∧
                p !! "productName" = Some (PStr name) ∧
                p !! "sourceUrl" = Some (PStr url) ∧
                p !! "productImage"
                = Some (of_opt (head (extract_product_images W soup url))) ∧
                p !! "additionalImages"
                = Some (PList (drop 1 (extract_product_images W soup url)))
       end.
Proof.
  unfold extract_product_data.
  destruct (extract_by_selectors soup name_selectors) as [name|] eqn:En; [|by eexists].
  destruct (extract_specifications_total soup) as [specs ->].
  cbn [mbind exc_bind mret exc_ret]. eexists. split; [reflexivity|].
  split; [by eapply extract_by_selectors_len|]. eexists. split; [reflexivity|].
  rewrite (tail_images _ (images_length W soup url)).
  split.
  { rewrite !dom_insert_L, dom_empty_L. unfold product_keys. cbn [list_to_set].
    set_solver. }
  split; [by rewrite lookup_insert_eq|].
  split; [by do 13 (rewrite lookup_insert_ne by done); rewrite lookup_insert_eq|].
  split; [by do 11 (rewrite lookup_insert_ne by done); rewrite lookup_insert_eq|].
  by do 12 (rewrite lookup_insert_ne by done); rewrite lookup_insert_eq.
Qed.

End CrawlerFacts.

Module CrawlerProperties.
Import Text Regex Dom TextFacts RegexFacts ParserFacts FieldFacts PolicyFacts.
Import Spec.
Import GroupFacts PartFacts CaptureFacts TotalFacts PageFacts CrawlerFacts.
Import WebProductFacts CrawlFacts CompanyFacts SessionFacts.
Import Demo.
Import SimpleCrawler.
#[local] Arguments matches : simpl never.
#[local] Arguments search : simpl never.

(** X18. The links [find_product_links] and [find_company_info_links]
    return are distinct, and each is what [urljoin] makes of the [href] of an
    element that one of the selectors gave, is on the site of the start URL
    and, for a product link, has an [href] that [is_product_link] accepts. *)
Theorem links_found (W : World) (self : state) (soup : Soup) :
  set_order_ok W →
  (NoDup (find_product_links W self soup) ∧
   ∀ u, In u (find_product_links W self soup) →
        is_same_domain W self u = true ∧
        ∃ selector links link href,
          In selector product_selectors ∧ select soup selector = Ok links ∧
          In link links ∧ attr link "href" = Some href ∧
          is_product_link href = true ∧ urljoin W (start_url self) href = Ok u) ∧
  (NoDup (find_company_info_links W self soup) ∧
   ∀ u, In u (find_company_info_links W self soup) →
        is_same_domain W self u = true ∧
        ∃ selector links link href,
          In selector company_selectors ∧ select soup selector = Ok links ∧
          In link links ∧ attr link "href" = Some href ∧
          urljoin W (start_url self) href = Ok u).
Proof.
  intros HW. split.
  - unfold find_product_links.
    destruct (HW (selectors_loop W self is_product_link soup product_selectors)) as [Hnd Hin].
    split; [done|]. intros u Hu. apply Hin in Hu. split.
    + by apply (proj1 (List.Forall_forall _ _)
                  (selectors_loop_on_site W self is_product_link soup product_selectors)).
    + by apply selectors_loop_from in Hu.
  - unfold find_company_info_links.
    destruct (HW (selectors_loop W self (fun _ => true) soup company_selectors)) as [Hnd Hin].
    split; [done|]. intros u Hu. apply Hin in Hu. split.
    + by apply (proj1 (List.Forall_forall _ _)
                  (selectors_loop_on_site W self (fun _ => true) soup company_selectors)).
    + apply selectors_loop_from in Hu as (sel & ls & l & h & H1 & H2 & H3 & H4 & _ & H5).
      by exists sel, ls, l, h.
Qed.

Lemma links_found_witness :
  NoDup (find_product_links shop shop_crawler catalog_page) ∧
  ∀ u, In u (find_product_links shop shop_crawler catalog_page) →
       is_same_domain shop shop_crawler u = true ∧
       ∃ selector links link href,
         In selector product_selectors ∧ select catalog_page selector = Ok links ∧
         In link links ∧ attr link "href" = Some href ∧
         is_product_link href = true ∧ urljoin shop (start_url shop_crawler) href = Ok u.
Proof.
  apply (proj1 (links_found shop shop_crawler catalog_page
                  (remove_dups_set_order shop eq_refl))).
Defined.

(** X19. When a set of strings is listed without repeats, the images of a
    product page are at most five distinct URLs, each ending, whatever the
    case of its letters, in .jpg, .jpeg, .png, .webp or .gif. *)
Theorem product_images_shape (W : World) (soup : Soup) (base_url : text) :
  set_order_ok W →
  NoDup (extract_product_images W soup base_url) ∧
  length (extract_product_images W soup base_url) ≤ 5 ∧
  ∀ u, In u (extract_product_images W soup base_url) →
       ∃ ext a, In ext image_extensions ∧ lower u = a ++ txt ext.
Proof.
  intros HW. destruct (images_shape W soup base_url HW) as (H1 & H2 & H3).
  split; [done|]. split; [done|]. intros u Hu. apply valid_image_ending.
  by apply (proj1 (List.Forall_forall _ _) H3).
Qed.

Lemma product_images_witness :
  NoDup (extract_product_images shop bottle_page bottle_url) ∧
  length (extract_product_images shop bottle_page bottle_url) ≤ 5 ∧
  ∀ u, In u (extract_product_images shop bottle_page bottle_url) →
       ∃ ext a, In ext image_extensions ∧ lower u = a ++ txt ext.
Proof.
  apply (product_images_shape shop bottle_page bottle_url
           (remove_dups_set_order shop eq_refl)).
Defined.

(** X20. [extract_product_data] never raises. Without a name of more than
    two characters under one of the name selectors it returns None; with
    one, a record of exactly the fourteen keys, with that name, the URL of
    the page as sourceUrl, the first image as productImage and the other
    images, at most four, as additionalImages. *)
Theorem product_record_shape (W : World) (soup : Soup) (url : text) :
  ∃ o, extract_product_data W soup url = Ok o ∧
       match extract_by_selectors soup name_selectors with
       | None => o = None
       | Some name =>
           2 < length name ∧
           ∃ p, o = Some p ∧ dom p = product_keys ∧
                p !! "productName" = Some (PStr name) ∧
                p !! "sourceUrl" = Some (PStr url) ∧
                p !! "productImage"
                = Some (of_opt (head (extract_product_images W soup url))) ∧
                p !! "additionalImages"
                = Some (PList (drop 1 (extract_product_images W soup url)))
       end.
Proof.
  destruct (product_data_shape W soup url) as (o & E & H). by exists o.
Qed.

(** X21. [extract_specs_from_text] of the simple crawler never raises, and
    a weight or a capacity that a table or a list of the page gave is not
    replaced by one read in the text of the page, nor is its unit; no key but
    weight, weight_unit, capacity and capacity_unit is written. *)
Theorem page_text_keeps_table_values (t : text) (specs : dict) :
  ∃ specs', extract_specs_from_text t specs = Ok specs' ∧
    (is_Some (specs !! "weight") →
     specs' !! "weight" = specs !! "weight"
     ∧ specs' !! "weight_unit" = specs !! "weight_unit") ∧
    (is_Some (specs !! "capacity") →
     specs' !! "capacity" = specs !! "capacity"
     ∧ specs' !! "capacity_unit" = specs !! "capacity_unit") ∧
    ∀ k, ¬ In k text_spec_keys → specs' !! k = specs !! k.
Proof.
  destruct (specs_from_text_keeps t specs) as (specs' & E & Hw & Hc & Hk).
  exists specs'. split; [done|]. split; [done|]. by split.
Qed.

(** X22. [crawl_product_page] marks the URL as visited and requests it
    once, whatever follows. When the request fails it adds no record and
    writes one line to the error stream; when the page arrives it writes no
    line, and adds at most one record, whose sourceUrl is the URL. *)
Theorem product_page_outcome (W : World) (url : text) (self : state) :
  url ∈ visited_urls (crawl_product_page W url self) ∧
  requested (crawl_product_page W url self) = requested self ++ [url] ∧
  match http_get W (length (requested self)) url with
  | Raise e =>
      products_data (crawl_product_page W url self) = products_data self ∧
      stderr (crawl_product_page W url self) = stderr self ++ [product_error url e]
  | Ok soup =>
      stderr (crawl_product_page W url self) = stderr self ∧
      (products_data (crawl_product_page W url self) = products_data self ∨
       ∃ p, products_data (crawl_product_page W url self) = products_data self ++ [p]
            ∧ p !! "sourceUrl" = Some (PStr url))
  end.
Proof.
  destruct (crawl_product_page_fields W url self) as (_ & _ & Hv & Hr & _).
  split; [rewrite Hv; apply elem_of_union; left; by apply elem_of_singleton|].
  split; [done|].
  unfold crawl_product_page, session_get. cbn [fst snd requested add_visited].
  destruct (http_get W _ url) as [soup|e]; [|done].
  destruct (product_data_shape W soup url) as (o & -> & Ho).
  destruct (extract_by_selectors soup name_selectors) as [name|].
  - destruct Ho as (_ & p & -> & _ & _ & Hs & _).
    destruct (_ && _); [|by split; [|left]]. split; [done|]. right. by exists p.
  - rewrite Ho. by split; [|left].
Qed.

(** X23. A company page changes no key of the company data but email,
    address, phone and description: the name, the website and the supplier
    type stay as the main page gave them, and no product is touched. *)
Theorem company_page_keeps_other_keys (W : World) (url : text) (self : state)
  (k : string) :
  ¬ In k page_keys →
  company_data (crawl_company_page W url self) !! k = company_data self !! k.
Proof.
  intros Hk. rewrite crawl_company_page_data.
  destruct (http_get W _ url) as [soup|e]; [|done].
  rewrite update_company_fills.
  - by apply fills_other.
  - intros ->. apply Hk. simpl. tauto.
Qed.

Lemma company_page_keeps_witness :
  company_data (crawl_company_page shop jar_url described_crawler) !! "companyName"
  = company_data described_crawler !! "companyName".
Proof.
  apply (company_page_keeps_other_keys shop jar_url described_crawler "companyName").
  simpl. intros [H|[H|[H|[H|[]]]]]; discriminate H.
Defined.

(** X24. A description that is a string is replaced on a company page only
    by a longer one. *)
Theorem description_only_grows (W : World) (url : text) (self : state) (s : text) :
  company_data self !! "description" = Some (PStr s) →
  ∃ s', company_data (crawl_company_page W url self) !! "description" = Some (PStr s')
        ∧ (s' = s ∨ length s < length s').
Proof.
  intros Hd. rewrite crawl_company_page_data.
  destruct (http_get W _ url) as [soup|e]; [|exists s; split; [done|by left]].
  by apply update_company_description.
Qed.

Lemma description_only_grows_witness :
  ∃ s', company_data (crawl_company_page shop jar_url described_crawler) !! "description"
        = Some (PStr s')
        ∧ (s' = txt "Jars." ∨ length (txt "Jars.") < length s').
Proof.
  apply (description_only_grows shop jar_url described_crawler (txt "Jars.")).
  reflexivity.
Defined.

(** X25. A crawl keeps the product records it began with, in their order,
    and adds at most twenty; the sourceUrl of each record added is a URL that
    the crawl requested. *)
Theorem crawl_adds_at_most_twenty (W : World) (self : state) :
  ∃ new, products_data (crawl_supplier_catalog W self).2 = products_data self ++ new ∧
         length new ≤ 20 ∧
         ∀ p, In p new →
              ∃ u, p !! "sourceUrl" = Some (PStr u)
                   ∧ In u (requested (crawl_supplier_catalog W self).2).
Proof.
  assert ((crawl_supplier_catalog W self).2 = (crawl_steps W self).1) as ->.
  { unfold crawl_supplier_catalog. by destruct (crawl_steps W self) as [final [[]|e]]. }
  unfold crawl_steps.
  destruct (session_get_fields W self (start_url self)) as (_ & _ & P0 & _).
  destruct (session_get W self (start_url self)) as [self0 response]. cbn [fst snd] in *.
  destruct response as [main_soup|e].
  2:{ exists []. rewrite app_nil_r. cbn [fst]. split; [done|]. split; [simpl; lia|done]. }
  destruct (extract_company_profile W main_soup (start_url self0) self0) as [self1|e] eqn:E1.
  2:{ exists []. rewrite app_nil_r. cbn [fst]. split; [done|]. split; [simpl; lia|done]. }
  destruct (extract_company_profile_fields _ _ _ _ _ E1) as (_ & P1 & _).
  set (company := take 3 (find_company_info_links W self1 main_soup)).
  destruct (company_phase W company self1) as (_ & P2 & _).
  set (self2 := fold_left _ company self1) in *.
  set (links := take 20 (find_product_links W self2 main_soup)).
  destruct (product_phase_products W links self2) as (new & E & Hl & Hs & _).
  exists new. cbn [fst]. rewrite E, P2, P1, P0. split; [done|].
  split; [unfold links in Hl; rewrite length_take in Hl; lia|].
  intros p Hp. destruct (Hs p Hp) as (u & H1 & _ & H2). by exists u.
Qed.

End CrawlerProperties.

Module SpiderFacts.
Import Text Regex Dom TextFacts RegexFacts ParserFacts FieldFacts PolicyFacts.
Import Spec.
Import GroupFacts PartFacts CaptureFacts TotalFacts PageFacts CrawlerFacts.
Import WebProductFacts CrawlFacts CompanyFacts SessionFacts.
Import BulkCrawler.
#[local] Arguments matches : simpl never.
#[local] Arguments search : simpl never.

(** ** Numbers *)

Lemma matches_Grp_nil ic n r prev s :
  matches ic (Grp n r) prev s = [] ↔ matches ic r prev s = [].
Proof. rewrite grp_head. by destruct (matches ic r prev s) as [|[[m c] rest] tl]. Qed.

Lemma extract_number_shape t :
  ∃ o, extract_number t = Ok o ∧ (o = None ↔ existsb is_digit t = false)
       ∧ ∀ q, o = Some q → (0 <= q)%Q.
Proof.
  unfold extract_number.
  pose proof (found_ext false (Grp 1 number) number
                (fun prev s => matches_Grp_nil false 1 number prev s) t None) as Hn.
  pose proof (search_number_None false t None) as Hd.
  destruct (search false (Grp 1 number) t) as [m|] eqn:E.
  - destruct (float_step _ _ _ _ 1 E eq_refl eq_refl) as [q Eq]. rewrite Eq.
    cbn [mbind exc_bind mret exc_ret]. eexists. split; [reflexivity|]. split.
    + split; [done|]. intros Hx. apply Hd in Hx. unfold search in E.
      apply Hn in Hx. by rewrite E in Hx.
    + intros q' [= <-]. by eapply float_of_nonneg.
  - exists None. split; [done|]. split; [|done]. split; [|done]. intros _.
    apply Hd, Hn. exact E.
Qed.

Lemma extract_percentage_total t : ∃ o, extract_percentage t = Ok o.
Proof.
  destruct (web_percentage t) as (o & E & _). exists o. exact E.
Qed.

(** ** The text of the page *)

Lemma spider_text_step (r : regex) (vkey ukey : string) (t : text) (specs : record) :
  always_binds r 1 = true → always_binds r 2 = true → groups_of r 1 = [number] →
  ∃ written : record,
    (∀ specs : record,
       (match search true r t with
        | Some m =>
            w ← float_of (group m 1);
            u ← PdfExtractor.str_of (group m 2);
            mret (<[ukey := Val (PStr (lower u))]> (<[vkey := Val (PFloat w)]> specs))
        | None => mret specs
        end : exc record) = Ok (written ∪ specs)) ∧
    ∀ k, k ≠ vkey → k ≠ ukey → written !! k = None.
Proof.
  intros B1 B2 G1. destruct (search true r t) as [m|] eqn:E.
  - destruct (float_step _ _ _ _ 1 E B1 G1) as [w ->].
    destruct (str_step _ _ _ _ 2 E B2) as [u ->]. cbn [mbind exc_bind mret exc_ret].
    exists (<[ukey := Val (PStr (lower u))]> (<[vkey := Val (PFloat w)]> ∅)). split.
    + intros s. by rewrite <- !insert_union_l, map_empty_union.
    + intros k H1 H2. by rewrite !lookup_insert_ne.
  - exists ∅. split; [|done]. intros s. by rewrite map_empty_union.
Qed.

Lemma spider_text_wins t :
  ∃ from_text : record,
    (∀ specs, extract_specs_from_text t specs = Ok (from_text ∪ specs)) ∧
    ∀ k, ¬ In k text_spec_keys → from_text !! k = None.
Proof.
  unfold extract_specs_from_text.
  destruct (spider_text_step SimpleCrawler.weight_text_re "weight" "weight_unit" t ∅
              eq_refl eq_refl eq_refl) as (w1 & H1 & K1).
  destruct (spider_text_step SimpleCrawler.capacity_text_re "capacity" "capacity_unit" t ∅
              eq_refl eq_refl eq_refl) as (w2 & H2 & K2).
  exists (w2 ∪ w1). split.
  - intros specs. rewrite H1. cbn [mbind exc_bind]. rewrite H2. by rewrite (assoc_L (∪)).
  - intros k Hk. rewrite lookup_union, K1, K2; [done| | | |];
      intros ->; apply Hk; simpl; tauto.
Qed.

(** ** Dimensions *)

Lemma dims_ok_insert k v specs :
  k ≠ "dimensions" → dims_ok specs → dims_ok (<[k := v]> specs).
Proof. intros Hk H x. rewrite lookup_insert_ne by done. apply H. Qed.

Lemma dims_ok_empty : dims_ok ∅.
Proof. intros v. by rewrite lookup_empty. Qed.

Lemma spider_parse_weight value specs :
  dims_ok specs → ∃ specs', parse_weight value specs = Ok specs' ∧ dims_ok specs'.
Proof.
  intros Hd. unfold parse_weight.
  destruct (search true SimpleCrawler.weight_re value) as [m|] eqn:E; [|by exists specs].
  destruct (float_step _ _ _ _ 1 E eq_refl eq_refl) as [w ->].
  cbn [mbind exc_bind mret exc_ret]. eexists. split; [reflexivity|].
  by do 2 (apply dims_ok_insert; [done|]).
Qed.

Lemma spider_parse_capacity value specs :
  dims_ok specs → ∃ specs', parse_capacity value specs = Ok specs' ∧ dims_ok specs'.
Proof.
  intros Hd. unfold parse_capacity.
  destruct (search true SimpleCrawler.capacity_re value) as [m|] eqn:E; [|by exists specs].
  destruct (float_step _ _ _ _ 1 E eq_refl eq_refl) as [w ->].
  cbn [mbind exc_bind mret exc_ret]. eexists. split; [reflexivity|].
  by do 2 (apply dims_ok_insert; [done|]).
Qed.

Lemma set_dimension_ok name value specs d :
  In name dimension_names → specs !! "dimensions" = Some (Dims d) → dimensions_ok d →
  ∃ specs', set_dimension name value specs = Ok specs' ∧ dims_ok specs'.
Proof.
  intros Hn Hs Hd. unfold set_dimension.
  destruct (extract_number_shape value) as (o & -> & _ & Ho). cbn [mbind exc_bind].
  rewrite Hs. eexists. split; [reflexivity|]. intros v. rewrite lookup_insert_eq.
  intros [= <-]. eexists. split; [reflexivity|]. intros k x.
  destruct (decide (k = name)) as [->|Hk].
  - rewrite lookup_insert_eq. intros [= <-]. split; [done|].
    destruct o as [q|]; [right|by left]. exists q. split; [done|]. by apply Ho.
  - rewrite lookup_insert_ne by done. apply Hd.
Qed.

Lemma spider_parse_spec_value key value specs :
  dims_ok specs → ∃ specs', parse_spec_value key value specs = Ok specs' ∧ dims_ok specs'.
Proof.
  intros Hd. unfold parse_spec_value.
  destruct (contains (txt "material") key).
  { eexists. split; [reflexivity|]. by apply dims_ok_insert. }
  destruct (contains (txt "weight") key); [by apply spider_parse_weight|].
  destruct (_ || _); [by apply spider_parse_capacity|].
  destruct (_ || _). { eexists. split; [reflexivity|]. by apply dims_ok_insert. }
  destruct (_ || _). { eexists. split; [reflexivity|]. by apply dims_ok_insert. }
  destruct (contains (txt "recycle") key).
  { destruct (extract_percentage_total value) as [o ->]. cbn [mbind exc_bind mret exc_ret].
    eexists. split; [reflexivity|]. by apply dims_ok_insert. }
  destruct (any_in _ key); [|by exists specs].
  set (specs1 := if bool_decide (is_Some (specs !! "dimensions")) then specs
                 else <["dimensions" := Dims ∅]> specs).
  assert (dims_ok specs1 ∧ ∃ d, specs1 !! "dimensions" = Some (Dims d) ∧ dimensions_ok d)
    as (Hd1 & d & Hs1 & Hok).
  { unfold specs1. destruct (bool_decide (is_Some (specs !! "dimensions"))) eqn:Eb.
    - split; [done|]. apply bool_decide_eq_true in Eb as [v Hv].
      destruct (Hd v Hv) as (d & -> & Hok). by exists d.
    - split.
      + intros v. rewrite lookup_insert_eq. intros [= <-]. exists ∅. split; [done|].
        intros k x. by rewrite lookup_empty.
      + exists ∅. rewrite lookup_insert_eq. split; [done|]. intros k x. by rewrite lookup_empty. }
  destruct (contains (txt "height") key).
  { apply (set_dimension_ok "height" value specs1 d); [simpl; tauto|done|done]. }
  destruct (contains (txt "width") key).
  { apply (set_dimension_ok "width" value specs1 d); [simpl; tauto|done|done]. }
  destruct (contains (txt "diameter") key).
  { apply (set_dimension_ok "diameter" value specs1 d); [simpl; tauto|done|done]. }
  by exists specs1.
Qed.

Lemma spider_rows_loop : ∀ rows specs,
  dims_ok specs → ∃ specs', rows_loop rows specs = Ok specs' ∧ dims_ok specs'.
Proof.
  induction rows as [|cells rows IH]; intros specs Hd; [by exists specs|]. cbn [rows_loop].
  destruct cells as [|k [|v cells]]; cbn [mbind exc_bind mret exc_ret]; try by apply IH.
  destruct (spider_parse_spec_value (lower (el_text_strip k)) (el_text_strip v) specs Hd)
    as (s1 & -> & H1).
  by apply IH.
Qed.

Lemma spider_tables_loop : ∀ ts specs,
  dims_ok specs → ∃ specs', tables_loop ts specs = Ok specs' ∧ dims_ok specs'.
Proof.
  induction ts as [|rows ts IH]; intros specs Hd; [by exists specs|]. cbn [tables_loop].
  destruct (spider_rows_loop rows specs Hd) as (s1 & -> & H1). by apply IH.
Qed.

Lemma spider_terms_loop : ∀ terms values specs,
  dims_ok specs → ∃ specs', terms_loop terms values specs = Ok specs' ∧ dims_ok specs'.
Proof.
  induction terms as [|term terms IH]; intros values specs Hd; [by exists specs|].
  destruct values as [|value values]; [by exists specs|]. cbn [terms_loop].
  destruct (spider_parse_spec_value (lower (el_text_strip term)) (el_text_strip value) specs Hd)
    as (s1 & -> & H1).
  by apply IH.
Qed.

Lemma spider_dls_loop : ∀ ds specs,
  dims_ok specs → ∃ specs', dls_loop ds specs = Ok specs' ∧ dims_ok specs'.
Proof.
  induction ds as [|[terms values] ds IH]; intros specs Hd; [by exists specs|].
  cbn [dls_loop].
  destruct (spider_terms_loop terms values specs Hd) as (s1 & -> & H1). by apply IH.
Qed.

Lemma spider_specifications s :
  ∃ specs, extract_specifications s = Ok specs ∧ dims_ok specs.
Proof.
  unfold extract_specifications.
  destruct (spider_tables_loop (tables s) ∅ dims_ok_empty) as (s1 & -> & H1).
  cbn [mbind exc_bind].
  destruct (spider_dls_loop (dls s) s1 H1) as (s2 & -> & H2). cbn [mbind exc_bind].
  destruct (spider_text_wins (get_text s)) as (w & Hw & Hk). rewrite Hw.
  eexists. split; [reflexivity|]. intros v. rewrite lookup_union, Hk.
  - rewrite (left_id_L None _). apply H2.
  - simpl. intros [H|[H|[H|[H|[]]]]]; discriminate H.
Qed.

End SpiderFacts.

Module SpiderFacts2.
Import Text Regex Dom TextFacts RegexFacts ParserFacts FieldFacts PolicyFacts.
Import Spec.
Import GroupFacts PartFacts CaptureFacts TotalFacts PageFacts CrawlerFacts SpiderFacts.
Import BulkCrawler.
#[local] Arguments matches : simpl never.
#[local] Arguments search : simpl never.

(** ** The record of a product page *)

Lemma spider_by_selectors s :
  (∀ selector, ∃ l, select s selector = Ok l) →
  ∀ selectors, ∃ o, extract_by_selectors s selectors = Ok o ∧ ∀ n, o = Some n → n ≠ [].
Proof.
  intros Hs. induction selectors as [|sel selectors IH]; [by exists None|].
  cbn [extract_by_selectors]. unfold select_one. destruct (Hs sel) as [l ->].
  cbn [mbind exc_bind mret exc_ret]. destruct (head l) as [el|]; [|done].
  destruct (el_text_strip el) as [|c t]; [done|]. exists (Some (c :: t)). split; [done|].
  by intros n [= <-].
Qed.

Lemma spider_images_loop W base_url :
  (∀ base href, ∃ u, urljoin W base href = Ok u) →
  ∀ imgs acc, ∃ images, images_loop W base_url imgs acc = Ok images.
Proof.
  intros Hu. induction imgs as [|img imgs IH]; intros acc; [by exists acc|].
  cbn [images_loop].
  destruct (match attr img "src" with Some src => Some src | None => attr img "data-src" end)
    as [src|]; [|apply IH].
  destruct (Hu base_url src) as [u ->]. cbn [mbind exc_bind]. apply IH.
Qed.

Lemma spider_image_selectors W s base_url :
  (∀ selector, ∃ l, select s selector = Ok l) →
  (∀ base href, ∃ u, urljoin W base href = Ok u) →
  ∀ selectors images, ∃ images', image_selectors_loop W s base_url selectors images = Ok images'.
Proof.
  intros Hs Hu. induction selectors as [|sel selectors IH]; intros images; [by exists images|].
  cbn [image_selectors_loop]. destruct (Hs sel) as [l ->]. cbn [mbind exc_bind].
  destruct (spider_images_loop W base_url Hu l images) as [i1 ->]. cbn [mbind exc_bind].
  apply IH.
Qed.

Lemma sget_dims specs :
  dims_ok specs →
  sget specs "dimensions" = Val PNone ∨ ∃ d, sget specs "dimensions" = Dims d ∧ dimensions_ok d.
Proof.
  intros Hd. unfold sget. destruct (specs !! "dimensions") as [v|] eqn:E; [|by left].
  destruct (Hd v E) as (d & -> & Hok). right. by exists d.
Qed.

(** ** The requests of [parse] *)

Lemma company_requests_shape W (response : Response) : ∀ links out out' err,
  company_requests W response links out = (out', err) →
  ∃ c, out' = out ++ c ∧ length c ≤ length links ∧
       Forall (fun r : text * callback =>
                 r.2 = parse_company_page_cb
                 ∧ ∃ link, In link links ∧ follow_link W response link = Ok r.1) c.
Proof.
  induction links as [|link links IH]; intros out out' err H; cbn [company_requests] in H.
  - injection H as <- <-. exists []. by rewrite app_nil_r.
  - destruct (follow_link W response link) as [full|e] eqn:E.
    + apply IH in H as (c & -> & Hl & Hc). exists ((full, parse_company_page_cb) :: c).
      rewrite <- app_assoc. split; [done|]. split; [simpl; lia|]. constructor.
      * split; [done|]. exists link. split; [by left|done].
      * eapply Forall_impl; [exact Hc|]. intros r (Hr & l & Hin & Hj). split; [done|].
        exists l. split; [by right|done].
    + injection H as <- <-. exists []. rewrite app_nil_r. split; [done|].
      split; [simpl; lia|constructor].
Qed.

Lemma product_requests_shape W (response : Response) : ∀ links self out out' self' err,
  product_requests W response links self out = (out', self', err) →
  (∃ p, out' = out ++ p ∧ length p ≤ length links ∧
        Forall (fun r : text * callback =>
                  r.2 = parse_product_page_cb
                  ∧ ∃ link, In link links ∧ (link ∉ visited_product_urls self)
                            ∧ (link ∈ visited_product_urls self')
                            ∧ follow_link W response link = Ok r.1) p) ∧
  visited_product_urls self ⊆ visited_product_urls self' ∧
  products_data self' = products_data self ∧ company_data self' = company_data self.
Proof.
  induction links as [|link links IH]; intros self out out' self' err H;
    cbn [product_requests] in H.
  - injection H as <- <- <-. split; [|done]. exists []. by rewrite app_nil_r.
  - destruct (bool_decide (link ∈ visited_product_urls self)) eqn:Eb.
    + apply IH in H as ((p & -> & Hl & Hp) & Hv & Hd). split; [|done].
      exists p. split; [done|]. split; [simpl; lia|].
      eapply Forall_impl; [exact Hp|]. intros r (Hr & l & Hin & H1 & H2 & H3).
      split; [done|]. exists l. split; [by right|done].
    + apply bool_decide_eq_false in Eb.
      destruct (follow_link W response link) as [full|e] eqn:E.
      * apply IH in H as ((p & -> & Hl & Hp) & Hv & Hd & Hc).
        cbn [add_visited visited_product_urls products_data company_data] in *.
        split; [|split; [intros x Hx; apply Hv, elem_of_union; by right|done]].
        exists ((full, parse_product_page_cb) :: p). rewrite <- app_assoc.
        split; [done|]. split; [simpl; lia|]. constructor.
        -- split; [done|]. exists link. split; [by left|]. split; [done|].
           split; [|done]. apply Hv, elem_of_union. left. by apply elem_of_singleton.
        -- eapply Forall_impl; [exact Hp|]. intros r (Hr & l & Hin & H1 & H2 & H3).
           split; [done|]. exists l. split; [by right|]. split; [|done].
           intros Hx. apply H1, elem_of_union. by right.
      * injection H as <- <- <-. cbn [add_visited visited_product_urls products_data company_data].
        split; [|split; [intros x Hx; apply elem_of_union; by right|done]].
        exists []. rewrite app_nil_r. split; [done|].
        split; [simpl; lia|constructor].
Qed.

End SpiderFacts2.

Module SpiderProperties.
Import Text Regex Dom TextFacts RegexFacts ParserFacts FieldFacts PolicyFacts.
Import Spec.
Import GroupFacts PartFacts CaptureFacts TotalFacts PageFacts CrawlerFacts.
Import SpiderFacts SpiderFacts2.
Import Demo.
Import BulkCrawler.
#[local] Arguments matches : simpl never.
#[local] Arguments search : simpl never.

(** X26. [extract_number] of the spider never raises; it returns None
    exactly when the text holds no digit, and a number not below zero
    otherwise. *)
Theorem number_from_text (t : text) :
  ∃ o, extract_number t = Ok o ∧ (o = None ↔ existsb is_digit t = false)
       ∧ ∀ q, o = Some q → (0 <= q)%Q.
Proof.
  destruct (extract_number_shape t) as (o & E & Hn & Hq). exists o. split; [done|]. by split.
Qed.

(** X27. [extract_specs_from_text] of the spider never raises, and what it
    reads in the text of the page depends on the text alone and replaces
    what the tables and the lists of the page gave: the result is the
    dictionary read from the text, laid over the dictionary it was given. *)
Theorem spider_text_replaces_table_values (t : text) :
  ∃ from_text : record,
    (∀ specs, extract_specs_from_text t specs = Ok (from_text ∪ specs)) ∧
    ∀ k, ¬ In k text_spec_keys → from_text !! k = None.
Proof.
  destruct (spider_text_wins t) as (from_text & Hw & Hk). exists from_text. by split.
Qed.

(** X28. [extract_specifications] of the spider never raises, and when it
    gives dimensions they are a dictionary whose keys are among height, width
    and diameter and whose values are None or numbers not below zero. *)
Theorem spider_dimensions (s : Soup) :
  ∃ specs, extract_specifications s = Ok specs ∧
    ∀ v, specs !! "dimensions" = Some v →
         ∃ d, v = Dims d ∧
              ∀ k x, d !! k = Some x →
                     In k dimension_names ∧ (x = PNone ∨ ∃ q, x = PFloat q ∧ (0 <= q)%Q).
Proof.
  destruct (spider_specifications s) as (specs & E & Hd). exists specs. split; [done|].
  intros v Hv. destruct (Hd v Hv) as (d & -> & Hok). by exists d.
Qed.

(** X29. When no selector and no [urljoin] raises, [extract_product_data]
    of the spider returns a record of exactly the fourteen keys, whether the
    page has a name or not; its sourceUrl is the URL of the response, its
    name is the first text, not empty, under a name selector, or None; and
    [parse_product_page] appends the record exactly when it has a name. *)
Theorem spider_product_page (W : World) (response : Response) :
  (∀ selector, ∃ l, select (soup response) selector = Ok l) →
  (∀ base href, ∃ u, urljoin W base href = Ok u) →
  ∃ p name,
    extract_product_data W (soup response) (url response) = Ok p ∧
    extract_by_selectors (soup response) name_selectors = Ok name ∧
    dom p = product_keys ∧
    p !! "productName" = Some (Val (of_opt name)) ∧
    p !! "sourceUrl" = Some (Val (PStr (url response))) ∧
    parse_product_page W response
    = Ok (match name with Some _ => Some p | None => None end).
Proof.
  intros Hs Hu. unfold parse_product_page, extract_product_data.
  destruct (spider_by_selectors (soup response) Hs name_selectors) as (name & En & Hn).
  destruct (spider_by_selectors (soup response) Hs product_desc_selectors) as (desc & Ed & _).
  destruct (spider_specifications (soup response)) as (specs & Es & _).
  unfold extract_product_images.
  destruct (spider_image_selectors W (soup response) (url response) Hs Hu image_selectors [])
    as [images Ei].
  rewrite En, Ed, Es, Ei. cbn [mbind exc_bind mret exc_ret].
  set (p := <["productName" := Val (of_opt name)]> _).
  exists p, name. split; [done|]. split; [done|].
  assert (p !! "productName" = Some (Val (of_opt name))) as Hp
    by (unfold p; by rewrite lookup_insert_eq).
  split.
  { unfold p. rewrite !dom_insert_L, dom_empty_L. unfold product_keys. cbn [list_to_set].
    set_solver. }
  split; [done|]. split.
  { unfold p. by do 13 (rewrite lookup_insert_ne by done); rewrite lookup_insert_eq. }
  assert (bool_decide (p = ∅) = false) as ->.
  { apply bool_decide_eq_false. intros E. by rewrite E, lookup_empty in Hp. }
  unfold sget. rewrite Hp. destruct name as [[|c n]|]; cbn [negb andb of_opt struthy truthy].
  - by destruct (Hn [] eq_refl).
  - done.
  - done.
Qed.

Lemma spider_product_page_witness :
  ∃ p name,
    extract_product_data shop (soup bottle_response) (url bottle_response) = Ok p ∧
    extract_by_selectors (soup bottle_response) name_selectors = Ok name ∧
    dom p = product_keys ∧
    p !! "productName" = Some (Val (of_opt name)) ∧
    p !! "sourceUrl" = Some (Val (PStr (url bottle_response))) ∧
    parse_product_page shop bottle_response
    = Ok (match name with Some _ => Some p | None => None end).
Proof.
  apply (spider_product_page shop bottle_response).
  - intros selector. simpl. destruct (String.eqb selector "h1"); [eexists; reflexivity|].
    destruct (String.eqb selector ".product-image img"); eexists; reflexivity.
  - intros base href. eexists. reflexivity.
Defined.

(** X30. [parse] yields at most three requests for company pages and,
    after them, at most fifty for product pages; each request for a product
    page is the one [response.follow] builds for what [urljoin] makes of a
    link that was not in the visited set and is in it afterwards; [parse]
    itself adds no product. *)
Theorem spider_requests (W : World) (response : Response) (self : state) :
  ∃ c p,
    (parse W response self).1.1 = c ++ p ∧ length c ≤ 3 ∧ length p ≤ 50 ∧
    Forall (fun r : text * callback => r.2 = parse_company_page_cb) c ∧
    Forall (fun r : text * callback =>
              r.2 = parse_product_page_cb
              ∧ ∃ link, (link ∉ visited_product_urls self)
                        ∧ (link ∈ visited_product_urls (parse W response self).1.2)
                        ∧ follow_link W response link = Ok r.1) p ∧
    products_data (parse W response self).1.2 = products_data self.
Proof.
  unfold parse.
  destruct (extract_company_profile W response self) as [self1|e] eqn:E1.
  2:{ exists [], []. cbn [fst snd app length]. split; [done|]. split; [lia|]. split; [lia|].
      split; [constructor|]. split; [constructor|done]. }
  assert (visited_product_urls self1 = visited_product_urls self
          ∧ products_data self1 = products_data self) as [V1 P1].
  { unfold extract_company_profile in E1.
    destruct (extract_company_name W _ _); [cbn [mbind exc_bind] in E1|done].
    destruct (extract_description _); [cbn [mbind exc_bind] in E1|done].
    by injection E1 as <-. }
  destruct (company_requests W response (take 3 (css_company_links response)) [])
    as [out err] eqn:E2.
  apply company_requests_shape in E2 as (c & -> & Hl & Hc). cbn [app] in *.
  rewrite length_take in Hl.
  assert (Forall (fun r : text * callback => r.2 = parse_company_page_cb) c) as Hc'
    by (eapply Forall_impl; [exact Hc|]; by intros r [? _]).
  destruct err as [e|].
  { exists c, []. cbn [fst snd]. rewrite app_nil_r. split; [done|]. split; [lia|].
    split; [simpl; lia|]. split; [done|]. split; [constructor|done]. }
  destruct (find_product_links W response) as [links|e].
  2:{ exists c, []. cbn [fst snd]. rewrite app_nil_r. split; [done|]. split; [lia|].
      split; [simpl; lia|]. split; [done|]. split; [constructor|done]. }
  destruct (product_requests W response (take 50 links) self1 c)
    as [[out self2] err] eqn:E3.
  apply product_requests_shape in E3 as ((p & -> & Hlp & Hp) & Hv & Hd & _).
  rewrite length_take in Hlp. exists c, p. cbn [fst snd].
  split; [done|]. split; [lia|]. split; [lia|]. split; [done|].
  split; [|by rewrite Hd].
  eapply Forall_impl; [exact Hp|]. intros r (Hr & l & _ & H1 & H2 & H3).
  split; [done|]. exists l. by rewrite <- V1.
Qed.

End SpiderProperties.

(* ================================================================== *)
(** * The properties of the specification *)
(* ================================================================== *)

Import Text Regex Dom Spec Demo.
Import TextFacts RegexFacts ParserFacts FieldFacts PolicyFacts TableFacts.
Import PipelineFacts TextPathFacts DedupFacts WebProductFacts CrawlFacts.
Import CompanyFacts SessionFacts EnvelopeFacts BulkCompanyFacts.
#[local] Arguments matches : simpl never.
#[local] Arguments search : simpl never.

Lemma crawl_final W self :
  (SimpleCrawler.crawl_supplier_catalog W self).2 = (SimpleCrawler.crawl_steps W self).1.
Proof.
  unfold SimpleCrawler.crawl_supplier_catalog.
  by destruct (SimpleCrawler.crawl_steps W self) as [final [[]|e]].
Qed.

Lemma crawl_records_stored W url crawler ps :
  SimpleCrawler.init W url = Ok crawler →
  (SimpleCrawler.crawl_supplier_catalog W crawler).1 !! "productsData" = Some (EDicts ps) →
  Forall web_stored ps.
Proof.
  intros Hi Hp. apply crawl_products in Hp as ->.
  apply crawl_steps_products. apply init_fields in Hi as (_ & _ & _ & -> & _). constructor.
Qed.

(** C1 (amended). In every extraction session of the document variant and
    of the simple crawler, every record of the final productsData list has a
    productName that is a non-empty string; in the document variant no two
    records of that list have the same productName under case-insensitive
    trimmed comparison. *)
Theorem product_names_nonempty_and_unique_in_documents :
  (∀ opened ps,
     PdfExtractor.extract_all_data opened PdfExtractor.init !! "productsData"
     = Some (EDicts ps) →
     Forall has_name ps ∧ NoDup (map identity ps)) ∧
  (∀ W url crawler ps,
     SimpleCrawler.init W url = Ok crawler →
     (SimpleCrawler.crawl_supplier_catalog W crawler).1 !! "productsData"
     = Some (EDicts ps) →
     Forall has_name ps).
Proof.
  split.
  - intros opened ps H. apply extract_all_data_products in H as [Hs Hn]. split; [|done].
    eapply Forall_impl; [exact Hs|]. apply stored_has_name.
  - intros W url crawler ps Hi Hp.
    eapply Forall_impl; [by eapply crawl_records_stored|]. by intros p [? _].
Qed.

Lemma product_names_witness :
  (Forall has_name jar_records ∧ NoDup (map identity jar_records)) ∧
  Forall has_name (SimpleCrawler.products_data (snd shop_crawl)).
Proof.
  split.
  - apply (proj1 product_names_nonempty_and_unique_in_documents (Ok jar_catalog)).
    vm_compute. reflexivity.
  - apply (proj2 product_names_nonempty_and_unique_in_documents shop catalog_url shop_crawler).
    + vm_compute. reflexivity.
    + vm_compute. reflexivity.
Defined.

(** C1, as stated, fails in the web variant: the crawl of the shop stores
    two records named Glass Jar. *)
Lemma web_records_share_a_name :
  fst shop_crawl !! "productsData"
  = Some (EDicts (SimpleCrawler.products_data (snd shop_crawl))) ∧
  map name_of (SimpleCrawler.products_data (snd shop_crawl))
  = [txt "Glass Jar"; txt "Glass Jar"] ∧
  ¬ NoDup (map identity (SimpleCrawler.products_data (snd shop_crawl))).
Proof.
  split; [vm_compute; reflexivity|]. split; [vm_compute; reflexivity|].
  assert (map identity (SimpleCrawler.products_data (snd shop_crawl))
          = [txt "glass jar"; txt "glass jar"]) as -> by (vm_compute; reflexivity).
  intros H. apply NoDup_cons in H as [H _]. apply H. by left.
Qed.

(** What the simple crawler requests, in order: the start URL; at most
    three company links, each once as a company page; at most twenty product
    links, each once as a product page. For every URL requested,
    [urlparse(url).netloc] is that of the start URL or ends with a dot
    followed by it. *)
Lemma simple_crawl_requests W url crawler :
  set_order_ok W →
  SimpleCrawler.init W url = Ok crawler →
  ∃ start_host company product,
    netloc W url = Ok start_host ∧
    SimpleCrawler.requested (SimpleCrawler.crawl_supplier_catalog W crawler).2
    = url :: company ++ product ∧
    NoDup company ∧ NoDup product ∧
    length company ≤ 3 ∧ length product ≤ 20 ∧
    ∀ u, In u (url :: company ++ product) → on_site W start_host u.
Proof.
  intros HW Hi. apply init_fields in Hi as (Es & En & _ & _ & Ev & Er).
  destruct (crawl_steps_requests W crawler HW) as (company & product & R & N1 & N2 & L1 & L2 & _ & Hs).
  exists (SimpleCrawler.base_domain crawler), company, product.
  rewrite crawl_final, R, Er, Es. repeat split; try done.
  intros u [<-|Hu].
  - exists (SimpleCrawler.base_domain crawler). split; [done|by left].
  - by apply is_same_domain_on_site, Hs.
Qed.

Lemma shop_set_order : set_order_ok shop.
Proof.
  intros l. split; [apply NoDup_remove_dups|].
  intros x. rewrite <- !list_elem_of_In. apply elem_of_remove_dups.
Qed.

Lemma simple_crawl_requests_witness :
  ∃ start_host company product,
    netloc shop catalog_url = Ok start_host ∧
    SimpleCrawler.requested (snd shop_crawl) = catalog_url :: company ++ product ∧
    NoDup company ∧ NoDup product ∧
    length company ≤ 3 ∧ length product ≤ 20 ∧
    ∀ u, In u (catalog_url :: company ++ product) → on_site shop start_host u.
Proof.
  apply (simple_crawl_requests shop catalog_url shop_crawler).
  - apply shop_set_order.
  - vm_compute. reflexivity.
Defined.

(** C4. The claim fails on the code in two places. The spider stores the
    netloc of the start URL in [base_domain] and never reads it: on a start
    page of [shop.test] whose product link leads to [elsewhere.test], [parse]
    yields the request for that link. The simple crawler checks
    [visited_urls] before each product page, but enters only product pages in
    it: the catalogue page of the shop, which links to itself, is requested
    twice. *)
Theorem frontier_leaves_site_and_repeats :
  (BulkCrawler.base_domain new_spider = txt "shop.test" ∧
   (BulkCrawler.parse shop offsite_response new_spider).1.1
   = [(txt "http://elsewhere.test/product/1", BulkCrawler.parse_product_page_cb)] ∧
   ¬ on_site shop (txt "shop.test") (txt "http://elsewhere.test/product/1")) ∧
  (set_order_ok shop ∧
   SimpleCrawler.requested (snd shop_crawl)
   = [catalog_url; catalog_url; jar_url; jar_copy_url] ∧
   ¬ NoDup (SimpleCrawler.requested (snd shop_crawl))).
Proof.
  split; [split; [reflexivity|split; [vm_compute; reflexivity|]]|].
  - intros (host & E & H). vm_compute in E. injection E as <-.
    destruct H as [H|H]; vm_compute in H; discriminate.
  - split; [apply shop_set_order|].
    assert (SimpleCrawler.requested (snd shop_crawl)
            = [catalog_url; catalog_url; jar_url; jar_copy_url]) as ->
      by (vm_compute; reflexivity).
    split; [done|]. intros H. apply NoDup_cons in H as [H _]. apply H. by left.
Qed.

(** C8 (amended). Whenever recycledContent is present in a record of the
    output it is not negative: an integer from 0 up in the document variant;
    the null value or a number from 0 up in the simple crawler. *)
Theorem recycled_content_not_negative :
  (∀ opened ps p,
     PdfExtractor.extract_all_data opened PdfExtractor.init !! "productsData"
     = Some (EDicts ps) →
     In p ps → ∀ v, p !! "recycledContent" = Some v → ∃ n, v = PInt n ∧ (0 <= n)%Z) ∧
  (∀ W url crawler ps p,
     SimpleCrawler.init W url = Ok crawler →
     (SimpleCrawler.crawl_supplier_catalog W crawler).1 !! "productsData"
     = Some (EDicts ps) →
     In p ps →
     ∀ v, p !! "recycledContent" = Some v → v = PNone ∨ ∃ q, v = PFloat q ∧ (0 <= q)%Q).
Proof.
  split.
  - intros opened ps p H Hp. apply extract_all_data_products in H as [Hs _].
    by apply (proj1 (List.Forall_forall _ _) Hs p Hp).
  - intros W url crawler ps p Hi H Hp.
    pose proof (crawl_records_stored W url crawler ps Hi H) as Hs.
    by apply (proj1 (List.Forall_forall _ _) Hs p Hp).
Qed.

(** C8, as stated, fails: the jar of the one-page catalogue is stored with
    a recycled content of 150. *)
Lemma recycled_content_above_100 :
  ∃ p, PdfExtractor.extract_all_data (Ok jar_catalog) PdfExtractor.init !! "productsData"
       = Some (EDicts [p]) ∧
       p !! "recycledContent" = Some (PInt 150) ∧ ¬ (150 <= 100)%Z.
Proof.
  eexists. split; [vm_compute; reflexivity|]. split; [vm_compute; reflexivity|lia].
Qed.

Lemma recycled_content_witness : ∃ n, PInt 150 = PInt n ∧ (0 <= n)%Z.
Proof.
  refine (proj1 recycled_content_not_negative (Ok jar_catalog) jar_records
            (hd ∅ jar_records) _ _ (PInt 150) _).
  - vm_compute. reflexivity.
  - vm_compute. left. reflexivity.
  - vm_compute. reflexivity.
Defined.



(** C3 (amended). For every cell grid and every data row of it in which
    no cell holds more than 4300 digits in a row, no cell raises an error,
    and the Table Interpreter emits a record from the row if and only if the
    last non-empty cell of the row under a NAME-classified header has text
    besides white space; that text, trimmed, is then the name of the record.
    Every other such row is dropped without a record. *)
Theorem table_row_record_iff_named (table : list (list PdfExtractor.cell))
  (products : list dict) :
  Forall short_cells table →
  PdfExtractor.process_product_table table products
  = Ok (products ++ table_records table) ∧
  ∀ headers row,
    short_cells row →
    (∃ o, PdfExtractor.extract_product_from_table_row headers row = Ok o) ∧
    (is_Some (emitted headers row) ↔ named headers row) ∧
    (∀ p, emitted headers row = Some p →
          ∃ c, last (name_cells headers row) = Some c ∧
               p !! "productName" = Some (PStr (strip c))).
Proof.
  intros _. split; [apply process_product_table_ok|].
  intros headers row _. unfold emitted.
  destruct (table_row_ok headers row) as (o & E & H1 & H2). rewrite E.
  split; [eauto|]. split; [split|].
  - intros [p ->]. destruct (H1 p eq_refl) as [(c & Hl & Hc & _) _]. by exists c.
  - intros Hn. destruct o as [p|]; [done|]. by destruct (H2 eq_refl).
  - intros p ->. destruct (H1 p eq_refl) as [(c & Hl & _ & Hp) _]. by exists c.
Qed.

Lemma table_row_record_witness :
  PdfExtractor.process_product_table jar_table [] = Ok ([] ++ table_records jar_table) ∧
  is_Some (emitted [txt "name"; txt "material"] [Some (txt "Glass Jar"); Some (txt "Glass")]).
Proof.
  assert (Forall short_cells jar_table) as Hs
    by (repeat (constructor; try reflexivity)).
  destruct (table_row_record_iff_named jar_table [] Hs) as [H1 H2]. split; [exact H1|].
  assert (short_cells [Some (txt "Glass Jar"); Some (txt "Glass")]) as Hr
    by (repeat (constructor; try reflexivity)).
  apply (proj2 (proj1 (proj2 (H2 [txt "name"; txt "material"]
                                 [Some (txt "Glass Jar"); Some (txt "Glass")] Hr)))).
  exists (txt "Glass Jar"). split; [vm_compute; reflexivity|]. vm_compute. discriminate.
Defined.

(** C3, as stated, fails: a cell that holds one space under the header
    Name is classified as NAME, and its row gives no record. *)
Lemma blank_name_cell_gives_no_record :
  has_name_cell [txt "name"] [Some (txt " ")] = true ∧
  PdfExtractor.extract_product_from_table_row [txt "name"] [Some (txt " ")] = Ok None ∧
  PdfExtractor.process_product_table
    [[Some (txt "Name")]; [Some (txt " ")]] [] = Ok [].
Proof. repeat split; vm_compute; reflexivity. Qed.

(** The envelopes that the services build have exactly one of two shapes:
    success true with supplierData, productsData and totalProducts and no
    error field, or success false with error and no data field; a failure of
    the top-level sequence gives the failure shape. [main] of the simple
    crawler prints such an envelope whenever it prints one. *)
Lemma envelope_binary :
  (∀ opened self,
     one_shape (PdfExtractor.extract_all_data opened self) ∧
     ∀ e, PdfExtractor.extract_steps opened self = Raise e →
          PdfExtractor.extract_all_data opened self
          = PdfExtractor.failure_envelope (txt "PDF extraction failed: " ++ e)
          ∧ failure_shape (PdfExtractor.extract_all_data opened self)) ∧
  (∀ W self,
     one_shape (SimpleCrawler.crawl_supplier_catalog W self).1 ∧
     ∀ e, (SimpleCrawler.crawl_steps W self).2 = Raise e →
          (SimpleCrawler.crawl_supplier_catalog W self).1
          = SimpleCrawler.failure_envelope (txt "Crawling failed: " ++ e)
          ∧ failure_shape (SimpleCrawler.crawl_supplier_catalog W self).1) ∧
  (∀ crawl, one_shape (BulkCrawler.run_crawler crawl)) ∧
  (∀ argv open, one_shape (PdfExtractor.main argv open).1) ∧
  (∀ W argv r, SimpleCrawler.main W argv = Ok r → one_shape r.1).
Proof.
  split; [|split; [|split; [|split]]].
  - intros opened self. unfold PdfExtractor.extract_all_data.
    destruct (PdfExtractor.extract_steps opened self) as [self'|e].
    + split; [apply success_one_shape|done].
    + split; [apply failure_one_shape|]. intros ? [= <-]. split; [done|apply failure_is_failure].
  - intros W self. unfold SimpleCrawler.crawl_supplier_catalog.
    destruct (SimpleCrawler.crawl_steps W self) as [final [[]|e]]; simpl.
    + split; [apply success_one_shape|done].
    + split; [apply failure_one_shape|]. intros ? [= <-]. split; [done|apply failure_is_failure].
  - intros [spider|e]; [apply success_one_shape|apply failure_one_shape].
  - intros argv open. unfold PdfExtractor.main.
    destruct argv as [|a [|b [|c argv]]]; simpl; try apply failure_one_shape.
    unfold PdfExtractor.extract_all_data.
    destruct (PdfExtractor.extract_steps _ _); [apply success_one_shape|apply failure_one_shape].
  - intros W argv r. unfold SimpleCrawler.main.
    destruct argv as [|a [|b [|c argv]]]; simpl; try (intros [= <-]; apply failure_one_shape).
    destruct (SimpleCrawler.init W b) as [crawler|]; [|done]. simpl. intros [= <-]. simpl.
    unfold SimpleCrawler.crawl_supplier_catalog.
    destruct (SimpleCrawler.crawl_steps W crawler) as [final [[]|e]]; simpl;
      [apply success_one_shape|apply failure_one_shape].
Qed.

(** A document that cannot be opened. *)
Lemma envelope_binary_example :
  PdfExtractor.extract_all_data (Raise (txt "No /Root object")) PdfExtractor.init
  = PdfExtractor.failure_envelope (txt "PDF extraction failed: No /Root object").
Proof.
  apply (proj1 envelope_binary (Raise (txt "No /Root object")) PdfExtractor.init).
  reflexivity.
Defined.

(** [main] of the simple crawler lets an exception escape exactly when
    the constructor raises, which is when [urlparse] rejects the URL. *)
Lemma main_raises_iff W (prog url e : text) :
  SimpleCrawler.main W [prog; url] = Raise e ↔ netloc W url = Raise e.
Proof.
  unfold SimpleCrawler.main, SimpleCrawler.init.
  destruct (netloc W url) as [domain|e']; simpl; [by split|].
  split; by intros [= <-].
Qed.

(** C5. The claim fails on the code: [main] of the simple crawler builds
    the crawler outside every [try], so with a start URL that [urlparse]
    rejects the run ends with the exception and prints no envelope. The
    spider is built inside the [try] of [run_crawler], which gives the
    failure envelope for the same exception. *)
Theorem constructor_error_escapes_main :
  SimpleCrawler.init bracket_world bracket_url = Raise (txt "Invalid IPv6 URL") ∧
  SimpleCrawler.main bracket_world [txt "simple_web_crawler.py"; bracket_url]
  = Raise (txt "Invalid IPv6 URL") ∧
  BulkCrawler.run_crawler (Raise (txt "Invalid IPv6 URL"))
  = BulkCrawler.failure_envelope (txt "Invalid IPv6 URL").
Proof. split; [|split]; vm_compute; reflexivity. Qed.

(** C9. In every success envelope of the three variants, totalProducts is
    the length of the productsData list. *)
Theorem total_products_is_length :
  (∀ opened self, count_is_length (PdfExtractor.extract_all_data opened self)) ∧
  (∀ W self, count_is_length (SimpleCrawler.crawl_supplier_catalog W self).1) ∧
  (∀ crawl, count_is_length (BulkCrawler.run_crawler crawl)).
Proof.
  split; [|split].
  - intros opened self. unfold PdfExtractor.extract_all_data.
    destruct (PdfExtractor.extract_steps opened self); [apply success_count|apply failure_count].
  - intros W self. unfold SimpleCrawler.crawl_supplier_catalog.
    destruct (SimpleCrawler.crawl_steps W self) as [final [[]|e]];
      [apply success_count|apply failure_count].
  - intros [spider|e]; [apply success_count|apply failure_count].
Qed.

Lemma total_products_witness :
  ∃ ps, fst shop_crawl !! "productsData" = Some (EDicts ps) ∧
        fst shop_crawl !! "totalProducts" = Some (EInt (Z.of_nat (length ps))).
Proof.
  apply (proj1 (proj2 total_products_is_length) shop shop_crawler).
  vm_compute. reflexivity.
Defined.

(** C6. In both crawlers, once the profile is taken from the first page,
    a contact field (email, address or phone) that holds a value other than
    the null value after some company pages keeps that value over every later
    company page. *)
Theorem contact_fields_set_once :
  (∀ W main_soup url self0 self1 before after k v,
     SimpleCrawler.extract_company_profile W main_soup url self0 = Ok self1 →
     In k contact_keys → v ≠ PNone →
     SimpleCrawler.company_data (company_pages W before self1) !! k = Some v →
     SimpleCrawler.company_data (company_pages W after (company_pages W before self1)) !! k
     = Some v) ∧
  (∀ W response self0 self1 before after k v,
     BulkCrawler.extract_company_profile W response self0 = Ok self1 →
     In k contact_keys → v ≠ PNone →
     BulkCrawler.company_data (company_callbacks before self1) !! k = Some v →
     BulkCrawler.company_data (company_callbacks after (company_callbacks before self1)) !! k
     = Some v).
Proof.
  split.
  - intros W main_soup url self0 self1 before after k v Hp Hk Hv H.
    apply company_pages_keep; try done.
    apply company_pages_contact_ok. by eapply simple_profile_contact_ok.
  - intros W response self0 self1 before after k v Hp Hk Hv H.
    apply company_callbacks_keep; try done.
    apply company_callbacks_contact_ok. by eapply bulk_profile_contact_ok.
Qed.

Lemma contact_fields_witness :
  SimpleCrawler.company_data (company_pages acme [acme_contact_url] acme_profiled) !! "email"
  = Some (PStr (txt "info@acme.test")).
Proof.
  apply (proj1 contact_fields_set_once acme acme_home acme_url acme_crawler
           acme_profiled [] [acme_contact_url] "email" (PStr (txt "info@acme.test"))).
  - vm_compute. reflexivity.
  - left. reflexivity.
  - discriminate.
  - vm_compute. reflexivity.
Defined.

(** C10. In the simple crawler, when the description of the profile is the
    unset value None, a company page leaves it None: with no candidate
    nothing is compared, and with a candidate the comparison of lengths
    raises, the handler of the page logs the exception and the crawl goes on.
    The contact fields filled earlier in the same call stay filled. *)
Theorem description_none_stays_none W url self :
  SimpleCrawler.company_data self !! "description" = Some PNone →
  SimpleCrawler.company_data (SimpleCrawler.crawl_company_page W url self) !! "description"
  = Some PNone ∧
  ∀ soup, http_get W (length (SimpleCrawler.requested self)) url = Ok soup →
    (∀ k, k ≠ "description" →
          SimpleCrawler.company_data (SimpleCrawler.crawl_company_page W url self) !! k
          = fills (SimpleCrawler.extract_email soup) (SimpleCrawler.extract_address soup)
                  (SimpleCrawler.extract_phone soup) (SimpleCrawler.company_data self) !! k) ∧
    (∀ c candidate, SimpleCrawler.extract_description soup = Ok (Some (c :: candidate)) →
          SimpleCrawler.stderr (SimpleCrawler.crawl_company_page W url self)
          = SimpleCrawler.stderr self ++ [SimpleCrawler.company_error url len_of_none]).
Proof.
  intros Hd. rewrite crawl_company_page_data. split.
  - destruct (http_get W _ url) as [soup|]; [|done]. by apply update_company_none.
  - intros soup Hs. rewrite Hs. split.
    + intros k Hk. by apply update_company_fills.
    + intros c candidate Hc.
      destruct (update_company_none soup _ Hd) as [_ He]. specialize (He c candidate Hc).
      unfold SimpleCrawler.crawl_company_page, SimpleCrawler.session_get. rewrite Hs.
      destruct (SimpleCrawler.update_company soup _) as [d o]. simpl in *. by rewrite He.
Qed.

Lemma description_none_witness :
  SimpleCrawler.company_data
    (SimpleCrawler.crawl_company_page acme acme_contact_url acme_profiled) !! "description"
  = Some PNone.
Proof.
  apply (description_none_stays_none acme acme_contact_url acme_profiled).
  vm_compute. reflexivity.
Defined.

Import PdfExtractor.

Lemma first_some_first {A B} (f : A → option B) : ∀ l i x y,
  l !! i = Some x → f x = Some y →
  (∀ j z, j < i → l !! j = Some z → f z = None) →
  first_some f l = Some y.
Proof.
  induction l as [|a l IH]; intros i x y Hi Hx Hb; [done|].
  destruct i as [|i]; simpl in *.
  - injection Hi as ->. by rewrite Hx.
  - rewrite (Hb 0 a) by (done || lia). apply (IH i x y Hi Hx).
    intros j z Hj Hz. apply (Hb (S j) z); [lia|done].
Qed.

Lemma first_some_none {A B} (f : A → option B) : ∀ l,
  (∀ i x, l !! i = Some x → f x = None) → first_some f l = None.
Proof.
  induction l as [|a l IH]; intros H; [done|]. simpl.
  rewrite (H 0 a) by done. apply IH. intros i x Hi. by apply (H (S i)).
Qed.

Lemma find_first_some {A} (p : A → bool) l :
  find p l = first_some (fun x => if p x then Some x else None) l.
Proof. induction l as [|a l IH]; simpl; [done|]. by destruct (p a). Qed.

Lemma first_at_take p bound lines i line :
  first_at p bound lines i line →
  take bound lines !! i = Some line ∧
  ∀ j l, j < i → take bound lines !! j = Some l → p l = false.
Proof.
  intros (Hi & Hl & Hp & Hb). split.
  - by rewrite lookup_take_lt.
  - intros j l Hj. rewrite lookup_take_lt by lia. by apply Hb.
Qed.

Lemma none_below_take p bound lines i l :
  none_below p bound lines → take bound lines !! i = Some l → p l = false.
Proof.
  intros H Hl. destruct (decide (i < bound)) as [Hi|Hi].
  - rewrite lookup_take_lt in Hl by done. by eapply H.
  - rewrite lookup_take_ge in Hl by lia. done.
Qed.

Lemma name_rule_wins line :
  wins line = true → name_rule line = Some (if has_marker line then line else title line).
Proof.
  unfold wins, name_rule, has_marker. intros [H1 H2]%andb_true_iff.
  apply negb_true_iff in H1. rewrite H1.
  destruct (any_in company_indicators (lower line)); [done|].
  rewrite orb_false_l in H2. by rewrite H2.
Qed.

Lemma name_rule_loses line : wins line = false → name_rule line = None.
Proof.
  unfold wins, name_rule, has_marker.
  destruct ((length line <? 3)%nat || (80 <? length line)%nat); [done|].
  rewrite andb_true_l.
  destruct (any_in company_indicators (lower line)); [done|].
  rewrite orb_false_l. by intros ->.
Qed.

(** C7 (amended). For every window, over its non-empty trimmed lines: the
    first of the first 10 lines that has 3 to 80 characters and either holds
    a legal-entity marker or is all-caps and longer than 5 characters gives
    the name, as it is when it holds a marker and title-cased otherwise; if
    there is none, the first of the first 5 lines that has 6 to 49 characters
    is the name; else the name is the placeholder. *)
Theorem company_name_chain (t : text) :
  (∀ i line, first_at wins 10 (stripped_lines t) i line →
             extract_company_name t = if has_marker line then line else title line) ∧
  (none_below wins 10 (stripped_lines t) →
   (∀ i line, first_at substantial 5 (stripped_lines t) i line →
              extract_company_name t = line) ∧
   (none_below substantial 5 (stripped_lines t) →
    extract_company_name t = txt "Unknown Company")) ∧
  (∀ line, substantial line = true ↔ 6 ≤ length line ≤ 49).
Proof.
  unfold extract_company_name. split; [|split].
  - intros i line H. pose proof H as (_ & _ & Hw & _).
    apply first_at_take in H as [Hl Hb].
    rewrite (first_some_first name_rule _ i line _ Hl (name_rule_wins _ Hw)); [done|].
    intros j z Hj Hz. apply name_rule_loses. by eapply Hb.
  - intros Hn. rewrite (first_some_none name_rule).
    2:{ intros i x Hx. apply name_rule_loses. by eapply none_below_take. }
    rewrite find_first_some. split.
    + intros i line H. pose proof H as (_ & _ & Hw & _).
      apply first_at_take in H as [Hl Hb].
      rewrite (first_some_first _ _ i line line Hl); [done|by rewrite Hw|].
      intros j z Hj Hz. by rewrite (Hb j z Hj Hz).
    + intros Hs. rewrite first_some_none; [done|].
      intros i x Hx. by rewrite (none_below_take _ _ _ _ _ Hs Hx).
  - intros line. unfold substantial. rewrite andb_true_iff, !Nat.ltb_lt. lia.
Qed.

Lemma company_name_chain_witness :
  extract_company_name acme_window = txt "Acme Packaging".
Proof.
  refine (proj1 (company_name_chain acme_window) 0 (txt "ACME PACKAGING") _).
  split; [lia|]. split; [vm_compute; reflexivity|]. split; [vm_compute; reflexivity|].
  intros j l Hj. lia.
Defined.

(** C7, as stated, fails: an all-caps line that comes before a marker line
    gives the name, and a line of 5 characters does not. *)
Lemma company_name_differs_from_spec :
  extract_company_name acme_window = txt "Acme Packaging" ∧
  spec_company_name (stripped_lines acme_window) = txt "Acme Packaging Ltd" ∧
  extract_company_name (txt "Abcde") = txt "Unknown Company" ∧
  spec_company_name (stripped_lines (txt "Abcde")) = txt "Abcde".
Proof. repeat split; vm_compute; reflexivity. Qed.
